(** * Award dashboard: the Directus access layer and its summaries

    A shallow embedding of [src/lib/directus.ts] (record fetcher, label
    helpers, ceremony summary, pending queue of the participant/team
    summary) and of the award-creation route handler, followed by the
    properties of the handbook's specification that concern them. *)

From Stdlib Require Import List ZArith NArith Lia Bool String Ascii.
From Stdlib Require Import Permutation Sorted DecimalString.
Import ListNotations.
Open Scope list_scope.

Set Implicit Arguments.
Set Warnings "-register-all".

(** ** JavaScript values *)

(** A JavaScript string is a sequence of UTF-16 code units.  Source
    literals are ASCII and are written [lit "..."]. *)
Module Js.

Definition str := list N.

Definition lit (s : string) : str :=
  map N_of_ascii (list_ascii_of_string s).

(** [a === b] on strings. *)
Fixpoint eqb (a b : str) : bool :=
  match a, b with
  | [], [] => true
  | x :: a', y :: b' => (x =? y)%N && eqb a' b'
  | _, _ => false
  end.

(** [s.length > 0] *)
Definition nonempty (s : str) : bool :=
  match s with [] => false | _ :: _ => true end.

(** WhiteSpace and LineTerminator code points of ECMAScript, the ones
    [String.prototype.trim] strips; all lie in the basic plane. *)
Definition is_white_space (c : N) : bool :=
  ((9 <=? c) && (c <=? 13)            (* TAB LF VT FF CR *)
   || (c =? 32) || (c =? 160)         (* SP, NBSP *)
   || (c =? 5760)                     (* U+1680 *)
   || ((8192 <=? c) && (c <=? 8202))  (* U+2000..U+200A *)
   || (c =? 8232) || (c =? 8233)      (* LS, PS *)
   || (c =? 8239) || (c =? 8287)      (* U+202F, U+205F *)
   || (c =? 12288) || (c =? 65279))%N (* U+3000, U+FEFF *).

Fixpoint trim_start (s : str) : str :=
  match s with
  | [] => []
  | c :: s' => if is_white_space c then trim_start s' else s
  end.

Definition trim (s : str) : str :=
  rev (trim_start (rev (trim_start s))).

(** [Array.prototype.join] on an array of strings. *)
Fixpoint join (sep : str) (parts : list str) : str :=
  match parts with
  | [] => []
  | [p] => p
  | p :: rest => p ++ sep ++ join sep rest
  end.

(** Truthiness of a [string | null | undefined]. *)
Definition truthy (o : option str) : bool :=
  match o with Some s => nonempty s | None => false end.

(** [a || b] on strings. *)
Definition or_else (a b : str) : str :=
  if nonempty a then a else b.

(** JSON values, as [JSON.parse] yields them and [JSON.stringify]
    consumes them.  Numbers are the integers the store uses for
    identifiers; none of them is NaN, so [Number.isNaN] is false on
    every number a request can carry. *)
Inductive json : Type :=
| JNull
| JBool (b : bool)
| JNum (n : Z)
| JStr (s : str)
| JArr (items : list json)
| JObj (fields : list (str * json)).

(** A plain object as an insertion-ordered property list. *)
Definition object := list (str * json).

Fixpoint get (k : str) (o : object) : option json :=
  match o with
  | [] => None
  | (k', v) :: o' => if eqb k k' then Some v else get k o'
  end.

(** [o[k] = v]: overwrite in place, or append a new property. *)
Fixpoint set (k : str) (v : json) (o : object) : object :=
  match o with
  | [] => [(k, v)]
  | (k', v') :: o' =>
      if eqb k k' then (k', v) :: o' else (k', v') :: set k v o'
  end.

Definition has (k : str) (o : object) : bool :=
  match get k o with Some _ => true | None => false end.

Definition of_opt_num (o : option Z) : json :=
  match o with Some n => JNum n | None => JNull end.

End Js.

Arguments Js.lit s%_string.
Abbreviation str := Js.str.
Abbreviation lit := Js.lit.

(** ** Data model *)

Inductive Status := pending | approved | rejected.

Inductive AwardType := individual | team | overall.

Definition Status_eq_dec : forall a b : Status, {a = b} + {a <> b}.
Proof. decide equality. Defined.

Definition is_status (s t : Status) : bool :=
  if Status_eq_dec s t then true else false.

(** [award.type === "individual"] on a [type] that may be null. *)
Definition is_individual (t : option AwardType) : bool :=
  match t with Some individual => true | _ => false end.

Record DirectusUser := {
  user_first_name : option str;
  user_last_name : option str
}.

Record DirectusParticipant := {
  participant_id : option Z;
  participant_first_name : option str;
  participant_last_name : option str
}.

Record DirectusTeam := {
  team_id : option Z;
  team_name : option str
}.

Record Category := {
  category_name : option str;
  category_color : option str
}.

Record DirectusAwardRecord := {
  id : Z;
  status : Status;
  type : option AwardType;
  submitted_at : option str;
  approved_at : option str;
  category : option Category;
  participant_nominee : option DirectusParticipant;
  team_nominee : option DirectusTeam;
  submitted_by : option DirectusUser;
  ceremony : option Z
}.

(** [formatPersonName] takes any object with optional [first_name] and
    [last_name]; users and participants both qualify. *)
Class Person (A : Type) := {
  first_name : A -> option str;
  last_name : A -> option str
}.

#[export] Instance Person_user : Person DirectusUser :=
  {| first_name := user_first_name; last_name := user_last_name |}.

#[export] Instance Person_participant : Person DirectusParticipant :=
  {| first_name := participant_first_name;
     last_name := participant_last_name |}.

(** ** Label and formatting helpers *)

(** The filter of [formatPersonName]:
    [part && part.trim().length > 0]. *)
Definition keep_part (part : option str) : bool :=
  match part with
  | Some s => Js.nonempty s && Js.nonempty (Js.trim s)
  | None => false
  end.

(** [parts.filter(...)], the survivors being strings. *)
Fixpoint kept_parts (parts : list (option str)) : list str :=
  match parts with
  | [] => []
  | part :: rest =>
      match part with
      | Some s => if keep_part part then s :: kept_parts rest
                  else kept_parts rest
      | None => kept_parts rest
      end
  end.

Definition formatPersonName {A} `{Person A} (person : option A) : str :=
  match person with
  | None => []
  | Some p => Js.join (lit " ") (kept_parts [first_name p; last_name p])
  end.

(** [award.team_nominee?.name] *)
Definition team_nominee_name (award : DirectusAwardRecord) : option str :=
  match team_nominee award with
  | Some t => team_name t
  | None => None
  end.

Definition getNomineeLabel (award : DirectusAwardRecord) : str :=
  match is_individual (type award), participant_nominee award with
  | true, Some p =>
      Js.or_else (formatPersonName (Some p)) (lit "Individual nominee")
  | _, _ =>
      match team_nominee_name award with
      | Some n => if Js.nonempty n then n else lit "Nominee TBD"
      | None => lit "Nominee TBD"
      end
  end.

(** ** Built-in collections and sorting *)

(** [a ?? b] *)
Definition nullish {A} (a : option A) (b : A) : A :=
  match a with Some x => x | None => b end.

(** [a ?? b] where [b] may itself be null. *)
Definition nullish_opt {A} (a b : option A) : option A :=
  match a with Some _ => a | None => b end.

(** A [Set<string>]: distinct members in insertion order. *)
Module JsSet.

Definition t := list str.

Definition has (x : str) (s : t) : bool := existsb (Js.eqb x) s.

Definition add (x : str) (s : t) : t :=
  if has x s then s else s ++ [x].

(** [new Set(iterable)] *)
Definition of_array (l : list str) : t :=
  fold_left (fun s x => add x s) l [].

Definition size (s : t) : nat := List.length s.

End JsSet.

(** A [Map<string, number>]: entries in insertion order of their keys. *)
Module JsMap.

Definition t := list (str * nat).

Fixpoint get (k : str) (m : t) : option nat :=
  match m with
  | [] => None
  | (k', v) :: m' => if Js.eqb k k' then Some v else get k m'
  end.

(** [m.set(k, v)]: an existing key keeps its position. *)
Fixpoint set (k : str) (v : nat) (m : t) : t :=
  match m with
  | [] => [(k, v)]
  | (k', v') :: m' =>
      if Js.eqb k k' then (k', v) :: m' else (k', v') :: set k v m'
  end.

Definition entries (m : t) : list (str * nat) := m.

End JsMap.

(** [Array.prototype.sort(compare)].  The language requires the sort to
    be stable, and every comparator below orders by an integer key, so
    the result is the one stable arrangement; insertion from the right
    computes it.  [compare a b > 0] puts [b] first. *)
Section ArraySort.

Context {A : Type} (compare : A -> A -> Z).

Fixpoint sort_insert (x : A) (l : list A) : list A :=
  match l with
  | [] => [x]
  | y :: l' =>
      if (compare x y <=? 0)%Z then x :: l else y :: sort_insert x l'
  end.

Fixpoint Array_sort (l : list A) : list A :=
  match l with
  | [] => []
  | x :: l' => sort_insert x (Array_sort l')
  end.

End ArraySort.

(** The shape of every comparator in the source, [(a, b) => keyB - keyA],
    and what sorting by it achieves. *)
Definition by_key {A} (key : A -> Z) (a b : A) : Z := (key b - key a)%Z.

Definition descending {A} (key : A -> Z) (l : list A) : Prop :=
  StronglySorted (fun a b => (key b <= key a)%Z) l.

Definition with_key {A} (key : A -> Z) (k : Z) (a : A) : bool :=
  (key a =? k)%Z.

(** [array.slice(0, n)] *)
Definition slice0 {A} (n : nat) (l : list A) : list A := firstn n l.

(** ** Summaries *)

Record Metrics := {
  metrics_pending : nat;
  metrics_approved : nat;
  individualsAwarded : nat;
  teamsAwarded : nat
}.

Record ApprovedEntry := {
  ae_id : Z;
  ae_categoryName : str;
  ae_categoryColor : str;
  ae_status : Status;
  ae_type : option AwardType;
  ae_nominee : str;
  ae_submittedAt : option str;
  ae_submittedBy : str;
  ae_ceremonyId : option Z
}.

Record LatestPendingEntry := {
  lp_id : Z;
  lp_categoryName : str;
  lp_categoryColor : str;
  lp_type : option AwardType;
  lp_nominee : str;
  lp_submittedAt : option str;
  lp_submittedBy : str;
  lp_ceremonyId : option Z
}.

Record ColorCount := {
  color : str;
  count : nat
}.

Record CeremonySummary := {
  metrics : Metrics;
  latestApproved : list ApprovedEntry;
  latestPending : list LatestPendingEntry;
  colorBreakdown : list ColorCount
}.

(** An entry of [pendingAwards] in the participant/team summary. *)
Record PendingAwardEntry := {
  pa_id : Z;
  pa_categoryName : str;
  pa_categoryColor : str;
  pa_type : option AwardType;
  pa_nominee : str;
  pa_submittedAt : option str;
  pa_ceremonyId : option Z
}.

(** [award.category?.name ?? "Unknown category"] *)
Definition categoryName_of (award : DirectusAwardRecord) : str :=
  nullish (match category award with
           | Some c => category_name c
           | None => None
           end) (lit "Unknown category").

(** [award.category?.color ?? "gray"] *)
Definition categoryColor_of (award : DirectusAwardRecord) : str :=
  nullish (match category award with
           | Some c => category_color c
           | None => None
           end) (lit "gray").

(** [formatPersonName(award.submitted_by) || "Unknown referee"] *)
Definition submittedBy_of (award : DirectusAwardRecord) : str :=
  Js.or_else (formatPersonName (submitted_by award)) (lit "Unknown referee").

(** [award.approved_at ?? award.submitted_at ?? null] *)
Definition approved_display_time (award : DirectusAwardRecord) : option str :=
  nullish_opt (approved_at award) (submitted_at award).

Definition approved_entry (award : DirectusAwardRecord) : ApprovedEntry :=
  {| ae_id := id award;
     ae_categoryName := categoryName_of award;
     ae_categoryColor := categoryColor_of award;
     ae_status := status award;
     ae_type := type award;
     ae_nominee := getNomineeLabel award;
     ae_submittedAt := approved_display_time award;
     ae_submittedBy := submittedBy_of award;
     ae_ceremonyId := ceremony award |}.

Definition latest_pending_entry (award : DirectusAwardRecord)
  : LatestPendingEntry :=
  {| lp_id := id award;
     lp_categoryName := categoryName_of award;
     lp_categoryColor := categoryColor_of award;
     lp_type := type award;
     lp_nominee := getNomineeLabel award;
     lp_submittedAt := submitted_at award;
     lp_submittedBy := submittedBy_of award;
     lp_ceremonyId := ceremony award |}.

(** The projection inside [buildParticipantTeamSummary]. *)
Definition pending_award_entry (award : DirectusAwardRecord)
  : PendingAwardEntry :=
  {| pa_id := id award;
     pa_categoryName := categoryName_of award;
     pa_categoryColor := categoryColor_of award;
     pa_type := type award;
     pa_nominee :=
       if is_individual (type award)
       then Js.or_else (formatPersonName (participant_nominee award))
                       (lit "Individual nominee")
       else nullish (team_nominee_name award) (lit "Team nominee");
     pa_submittedAt := submitted_at award;
     pa_ceremonyId := ceremony award |}.

(** The loop body that fills [colorMap]. *)
Definition count_color (m : JsMap.t) (award : DirectusAwardRecord) : JsMap.t :=
  let color := categoryColor_of award in
  JsMap.set color (nullish (JsMap.get color m) 0 + 1) m.

(** How often a color occurs among some awards. *)
Definition occurrences (c : str) (l : list DirectusAwardRecord) : nat :=
  List.length (filter (fun award => Js.eqb c (categoryColor_of award)) l).

Definition is_approved (award : DirectusAwardRecord) : bool :=
  is_status (status award) approved.

Definition is_pending (award : DirectusAwardRecord) : bool :=
  is_status (status award) pending.

Section Summaries.

(** [Date.parse] on a non-empty string, as the engine implements it:
    milliseconds since the epoch, [None] for NaN. *)
Variable parse_date_string : str -> option Z.

(** [Date.parse(s)]; the empty string never parses. *)
Definition Date_parse (s : str) : option Z :=
  match s with
  | [] => None
  | _ :: _ => parse_date_string s
  end.

(** [Date.parse(d ?? "") || 0] *)
Definition parsed_or_zero (d : option str) : Z :=
  match Date_parse (nullish d []) with
  | Some t => t
  | None => 0
  end.

(** The comparators [(a, b) => dateB - dateA]. *)
Definition compare_approved (a b : DirectusAwardRecord) : Z :=
  let dateA := parsed_or_zero (approved_display_time a) in
  let dateB := parsed_or_zero (approved_display_time b) in
  dateB - dateA.

Definition compare_pending (a b : DirectusAwardRecord) : Z :=
  let dateA := parsed_or_zero (submitted_at a) in
  let dateB := parsed_or_zero (submitted_at b) in
  dateB - dateA.

Definition compare_pending_entry (a b : PendingAwardEntry) : Z :=
  let dateA := parsed_or_zero (pa_submittedAt a) in
  let dateB := parsed_or_zero (pa_submittedAt b) in
  dateB - dateA.

Definition buildCeremonySummary (awards : list DirectusAwardRecord)
  : CeremonySummary :=
  let approvedAwards := filter is_approved awards in
  let pendingCount := List.length (filter is_pending awards) in
  let approvedCount := List.length approvedAwards in
  let latestApproved :=
    map approved_entry
        (slice0 5 (Array_sort compare_approved approvedAwards)) in
  let pendingAwards := filter is_pending awards in
  let latestPending :=
    map latest_pending_entry
        (slice0 5 (Array_sort compare_pending pendingAwards)) in
  let uniqueParticipants :=
    JsSet.of_array
      (filter Js.nonempty
         (map (fun award => formatPersonName (participant_nominee award))
            (filter (fun award => is_individual (type award))
               approvedAwards))) in
  let uniqueTeams :=
    JsSet.of_array
      (filter Js.nonempty
         (map (fun award => nullish (team_nominee_name award) [])
            (filter (fun award => Js.truthy (team_nominee_name award))
               approvedAwards))) in
  let colorMap := fold_left count_color approvedAwards [] in
  {| metrics :=
       {| metrics_pending := pendingCount;
          metrics_approved := approvedCount;
          individualsAwarded := JsSet.size uniqueParticipants;
          teamsAwarded := JsSet.size uniqueTeams |};
     latestApproved := latestApproved;
     latestPending := latestPending;
     colorBreakdown :=
       map (fun '(color, count) => {| color := color; count := count |})
           (JsMap.entries colorMap) |}.

(** The [pendingAwards] list of [buildParticipantTeamSummary]: filter,
    project, then sort the projected entries. *)
Definition buildParticipantTeamSummary_pendingAwards
  (awards : list DirectusAwardRecord)
  : list PendingAwardEntry :=
  Array_sort compare_pending_entry
    (map pending_award_entry (filter is_pending awards)).

(** An entry whose displayed date is missing or does not parse. *)
Definition undated (entry : ApprovedEntry) : Prop :=
  Date_parse (nullish (ae_submittedAt entry) []) = None.

(** The order as the handbook words it: an award without a usable date
    counts as the oldest, so in a list that runs from newest to oldest
    only undated entries follow an undated one. *)
Definition undated_oldest (entries : list ApprovedEntry) : Prop :=
  forall before entry after,
    entries = before ++ entry :: after ->
    undated entry -> Forall undated after.

End Summaries.

(** ** Record fetcher *)

(** The module-level connection constants. *)
Record Config := {
  DIRECTUS_URL : option str;
  DIRECTUS_STATIC_TOKEN : option str
}.

(** What [fetch] is called with.  [req_body] is the value handed to
    [JSON.stringify]. *)
Record Request := {
  req_url : str;
  req_method : option str;
  req_headers : list (str * str);
  req_body : option Js.json;
  req_cache : str
}.

(** What [fetch] resolves to.  [resp_json] is [None] when the body is
    not JSON. *)
Record Response := {
  resp_ok : bool;
  resp_status : Z;
  resp_statusText : str;
  resp_text : str;
  resp_json : option Js.json
}.

Inductive Thrown :=
| ConfigError (message : str)
| RequestFailed (http_status : Z) (detail : str)
| FetchRejected
| BodyNotJson
| TypeError.

(** An asynchronous computation: it returns, throws, or awaits one
    [fetch] and goes on with its outcome ([None]: the promise rejected). *)
Inductive Exec (A : Type) : Type :=
| Ret (a : A)
| Throw (e : Thrown)
| Fetch (rq : Request) (k : option Response -> Exec A).

Arguments Ret {A} a.
Arguments Throw {A} e.
Arguments Fetch {A} rq k.

Fixpoint bind {A B} (p : Exec A) (f : A -> Exec B) : Exec B :=
  match p with
  | Ret a => f a
  | Throw e => Throw e
  | Fetch rq k => Fetch rq (fun r => bind (k r) f)
  end.

(** [try { p } catch (error) { h }] *)
Fixpoint try_catch {A} (p : Exec A) (h : Thrown -> Exec A) : Exec A :=
  match p with
  | Ret a => Ret a
  | Throw e => h e
  | Fetch rq k => Fetch rq (fun r => try_catch (k r) h)
  end.

Declare Scope exec_scope.
Delimit Scope exec_scope with exec.
Notation "x <- p ;; q" := (bind p (fun x => q))
  (at level 61, p at next level, right associativity) : exec_scope.

(** Running a computation against a store: the requests sent, in
    order, and the outcome. *)
Fixpoint run {S A} (store : S -> Request -> S * option Response) (s : S)
  (p : Exec A) : list Request * (A + Thrown) :=
  match p with
  | Ret a => ([], inl a)
  | Throw e => ([], inr e)
  | Fetch rq k =>
      let (s', r) := store s rq in
      let (sent, outcome) := run store s' (k r) in
      (rq :: sent, outcome)
  end.

(** A computation that awaits nothing more. *)
Definition settled {A} (p : Exec A) : Prop :=
  match p with
  | Fetch _ _ => False
  | _ => True
  end.

(** [url.replace(/\/$/, empty)]: drop one trailing slash. *)
Fixpoint strip_trailing_slash (url : str) : str :=
  match url with
  | [] => []
  | [c] => if (c =? 47)%N then [] else [c]
  | c :: rest => c :: strip_trailing_slash rest
  end.

Definition status_string (s : Status) : str :=
  match s with
  | pending => lit "pending"
  | approved => lit "approved"
  | rejected => lit "rejected"
  end.

Record RequestInit := {
  init_method : option str;
  init_body : option Js.json
}.

(** [type] is declared as one of the three literals; the route handler
    passes the request's value through a cast, so the field holds
    whatever JSON value arrived. *)
Record CreateAwardInput := {
  ci_category : Z;
  ci_ceremony : Z;
  ci_type : Js.json;
  ci_participant_nominee : option Z;
  ci_team_nominee : option Z;
  ci_notes : option str;
  ci_status : option Status
}.

(** The response a route handler answers with: the status and the
    value serialized as its body. *)
Record HttpResponse := {
  http_code : Z;
  http_json : Js.json
}.

Definition message_response (code : Z) (message : string) : HttpResponse :=
  {| http_code := code;
     http_json := Js.JObj [(lit "message", Js.JStr (lit message))] |}.

(** [NextResponse.json(value, { status })].  The value is serialized
    when the response is built, and [undefined], here [None], has no
    serialization: the call throws a TypeError. *)
Definition NextResponse_json (value : option Js.json) (code : Z)
  : Exec HttpResponse :=
  match value with
  | Some body => Ret {| http_code := code; http_json := body |}
  | None => Throw TypeError
  end.

(** [await request.json()]: the parsed body, or a rejection when the
    body is not JSON ([None]). *)
Definition request_json (request_body : option Js.json) : Exec Js.json :=
  match request_body with
  | Some parsed => Ret parsed
  | None => Throw BodyNotJson
  end.

(** The properties a handler finds on a parsed body.  The handlers
    read a fixed set of names, none of which a number, a string, a
    boolean or an array carries, so such a body reads like the empty
    object. *)
Definition fields_of (parsed : Js.json) : Js.object :=
  match parsed with
  | Js.JObj fields => fields
  | _ => []
  end.

(** The first property read of a handler, [body.name]: on [null] it
    throws a TypeError. *)
Definition properties_of (parsed : Js.json) : Exec Js.object :=
  match parsed with
  | Js.JNull => Throw TypeError
  | _ => Ret (fields_of parsed)
  end.

Section Fetcher.

(** [String(n)] and template interpolation of a number. *)
Variable Number_toString : Z -> str.

Variable config : Config.

Definition getDirectusBaseUrl : Exec str :=
  match DIRECTUS_URL config with
  | Some url =>
      if Js.nonempty url then Ret (strip_trailing_slash url)
      else Throw (ConfigError (lit "DIRECTUS_URL is not defined. Please set it in your environment variables."))
  | None =>
      Throw (ConfigError (lit "DIRECTUS_URL is not defined. Please set it in your environment variables."))
  end.

Definition getDirectusHeaders : Exec (list (str * str)) :=
  match DIRECTUS_STATIC_TOKEN config with
  | Some token =>
      if Js.nonempty token
      then Ret [(lit "Authorization", lit "Bearer " ++ token);
                (lit "Content-Type", lit "application/json")]
      else Throw (ConfigError (lit "DIRECTUS_STATIC_TOKEN is not defined. Please set it in your environment variables."))
  | None =>
      Throw (ConfigError (lit "DIRECTUS_STATIC_TOKEN is not defined. Please set it in your environment variables."))
  end.

Definition directusFetch (path : str) (init : RequestInit) : Exec Js.json :=
  (baseUrl <- getDirectusBaseUrl ;;
   headers <- getDirectusHeaders ;;
   Fetch {| req_url := baseUrl ++ lit "/" ++ path;
            req_method := init_method init;
            req_headers := headers;
            req_body := init_body init;
            req_cache := lit "no-store" |}
     (fun outcome =>
        match outcome with
        | None => Throw FetchRejected
        | Some response =>
            if resp_ok response
            then match resp_json response with
                 | Some value => Ret value
                 | None => Throw BodyNotJson
                 end
            else Throw (RequestFailed (resp_status response)
                          (Js.or_else (resp_text response)
                                      (resp_statusText response)))
        end))%exec.

(** [response.data] on a parsed body. *)
Definition data_of (response : Js.json) : Exec (option Js.json) :=
  match response with
  | Js.JObj fields => Ret (Js.get (lit "data") fields)
  | Js.JNull => Throw TypeError
  | _ => Ret None
  end.

(** [now] is [new Date().toISOString()] at the time of the call. *)
Definition updateAwardStatus_payload (now : str) (status : Status)
  : Js.object :=
  let payload := [(lit "status", Js.JStr (status_string status))] in
  if is_status status approved
  then Js.set (lit "approved_at") (Js.JStr now) payload
  else Js.set (lit "approved_at") Js.JNull payload.

Definition updateAwardStatus (now : str) (awardId : Z) (status : Status)
  : Exec (option Js.json) :=
  (response <- directusFetch (lit "items/awards/" ++ Number_toString awardId)
                 {| init_method := Some (lit "PATCH");
                    init_body :=
                      Some (Js.JObj (updateAwardStatus_payload now status)) |} ;;
   data_of response)%exec.

Definition approveAward (now : str) (awardId : Z) : Exec (option Js.json) :=
  updateAwardStatus now awardId approved.

Definition createAward_payload (now : str) (input : CreateAwardInput)
  : Js.object :=
  let payload :=
    [(lit "category", Js.JNum (ci_category input));
     (lit "ceremony", Js.JNum (ci_ceremony input));
     (lit "type", ci_type input);
     (lit "participant_nominee", Js.of_opt_num (ci_participant_nominee input));
     (lit "team_nominee", Js.of_opt_num (ci_team_nominee input));
     (lit "status", Js.JStr (status_string (nullish (ci_status input) pending)));
     (lit "submitted_at", Js.JStr now)] in
  match ci_notes input with
  | Some notes =>
      if Js.nonempty notes && Js.nonempty (Js.trim notes)
      then Js.set (lit "notes") (Js.JStr notes) payload
      else payload
  | None => payload
  end.

Definition createAward (now : str) (input : CreateAwardInput)
  : Exec (option Js.json) :=
  (response <- directusFetch (lit "items/awards")
                 {| init_method := Some (lit "POST");
                    init_body := Some (Js.JObj (createAward_payload now input)) |} ;;
   data_of response)%exec.

(** *** The award-creation route

    The handler awaits the parsed request body and reads it as an
    object of unknown properties; [body] is that object. *)

(** [typeof body.k === "number" ? body.k : null] *)
Definition number_field (body : Js.object) (k : string) : option Z :=
  match Js.get (lit k) body with
  | Some (Js.JNum n) => Some n
  | _ => None
  end.

(** The value of a [number | null] when it is truthy. *)
Definition truthy_number (v : option Z) : option Z :=
  match v with
  | Some n => if (n =? 0)%Z then None else Some n
  | None => None
  end.

(** The value of a property when it is truthy. *)
Definition truthy_value (v : option Js.json) : option Js.json :=
  match v with
  | Some Js.JNull | None => None
  | Some (Js.JBool b) => if b then v else None
  | Some (Js.JNum n) => if (n =? 0)%Z then None else v
  | Some (Js.JStr s) => if Js.nonempty s then v else None
  | Some (Js.JArr _) | Some (Js.JObj _) => v
  end.

(** [type === "individual"] *)
Definition is_individual_value (v : Js.json) : bool :=
  match v with
  | Js.JStr s => Js.eqb s (lit "individual")
  | _ => false
  end.

(** The fields the handler reads, each under either of its two names. *)
Definition ceremonyId_of (body : Js.object) : option Z :=
  nullish_opt (number_field body "ceremonyId") (number_field body "ceremony").

Definition categoryId_of (body : Js.object) : option Z :=
  nullish_opt (number_field body "categoryId") (number_field body "category").

Definition type_of (body : Js.object) : option Js.json :=
  Js.get (lit "type") body.

Definition participantId_of (body : Js.object) : option Z :=
  nullish_opt (number_field body "participantId")
              (number_field body "participant_nominee").

Definition teamId_of (body : Js.object) : option Z :=
  nullish_opt (number_field body "teamId") (number_field body "team_nominee").

Definition notes_of (body : Js.object) : option str :=
  match Js.get (lit "notes") body with
  | Some (Js.JStr s) => Some s
  | Some (Js.JNum n) => Some (Number_toString n)
  | _ => None
  end.

(** The [try]/[catch] that ends the handler: create, then answer 201
    with the record; 500 when the creation throws, or when building the
    201 answer throws inside the [try]. *)
Definition create_and_answer (now : str) (input : CreateAwardInput)
  : Exec HttpResponse :=
  try_catch
    (award <- createAward now input ;;
     NextResponse_json award 201)%exec
    (fun _ => Ret (message_response 500 "Failed to create award.")).

(** The handler from its first test on: the three checks, then the
    [try]. *)
Definition POST_answer (now : str) (body : Js.object) : Exec HttpResponse :=
  let ceremonyId := ceremonyId_of body in
  let categoryId := categoryId_of body in
  let type := type_of body in
  let participantId := participantId_of body in
  let teamId := teamId_of body in
  let notes := notes_of body in
  match truthy_number ceremonyId, truthy_number categoryId, truthy_value type with
  | Some ceremony, Some category, Some type =>
      if is_individual_value type
      then
        match truthy_number participantId with
        | None =>
            Ret (message_response 400
                   "Participant award requires a participant nominee.")
        | Some participantNominee =>
            create_and_answer now
              {| ci_ceremony := ceremony;
                 ci_category := category;
                 ci_type := type;
                 ci_participant_nominee := Some participantNominee;
                 ci_team_nominee := None;
                 ci_notes := notes;
                 ci_status := None |}
        end
      else
        match truthy_number teamId with
        | None =>
            Ret (message_response 400
                   "Team or overall award requires a team nominee.")
        | Some teamNominee =>
            create_and_answer now
              {| ci_ceremony := ceremony;
                 ci_category := category;
                 ci_type := type;
                 ci_participant_nominee := None;
                 ci_team_nominee := Some teamNominee;
                 ci_notes := notes;
                 ci_status := None |}
        end
  | _, _, _ =>
      Ret (message_response 400
             "Missing ceremony, category, or type information.")
  end.

(** [request_body] is the body the request arrives with, [None] when
    it is not JSON.  The body is awaited and its properties are read
    before the [try], so a failure there leaves the handler as a
    throw. *)
Definition POST (now : str) (request_body : option Js.json)
  : Exec HttpResponse :=
  (parsed <- request_json request_body ;;
   body <- properties_of parsed ;;
   POST_answer now body)%exec.

End Fetcher.

(** Both connection constants are set. *)
Definition configured (config : Config) : bool :=
  Js.truthy (DIRECTUS_URL config) && Js.truthy (DIRECTUS_STATIC_TOKEN config).

(** What a request that passes validation hands to [createAward]. *)
Definition forwarded (Number_toString : Z -> str) (body : Js.object)
  (input : CreateAwardInput) : Prop :=
  ceremonyId_of body = Some (ci_ceremony input) /\
  categoryId_of body = Some (ci_category input) /\
  type_of body = Some (ci_type input) /\
  ci_notes input = notes_of Number_toString body /\
  ci_status input = None /\
  (type_of body = Some (Js.JStr (lit "individual")) ->
   ci_participant_nominee input = participantId_of body /\
   ci_team_nominee input = None) /\
  (type_of body <> Some (Js.JStr (lit "individual")) ->
   ci_participant_nominee input = None /\
   ci_team_nominee input = teamId_of body).

(** *** Readings of the validation rule *)

(** The type named by a request. *)
Definition type_is (body : Js.object) (name : string) : Prop :=
  type_of body = Some (Js.JStr (lit name)).

(** The rule as the handbook words it: a request is turned down when
    the ceremony id, the category id or the type is missing, when the
    type is individual without a participant nominee id, or when the
    type is team or overall without a team nominee id. *)
Definition stated_rejection (body : Js.object) : Prop :=
  ceremonyId_of body = None \/
  categoryId_of body = None \/
  (type_of body = None \/ type_of body = Some Js.JNull) \/
  (type_is body "individual" /\ participantId_of body = None) \/
  ((type_is body "team" \/ type_is body "overall") /\ teamId_of body = None).

(** An id that cannot be used: none was given as a number, or it is 0. *)
Definition unusable_id (v : option Z) : Prop :=
  v = None \/ v = Some 0%Z.

(** A type that counts as not given: absent, null, false, 0 or the
    empty string. *)
Definition unusable_type (v : option Js.json) : Prop :=
  v = None \/ v = Some Js.JNull \/ v = Some (Js.JBool false) \/
  v = Some (Js.JNum 0) \/ v = Some (Js.JStr []).

(** The rule the handler applies: every type other than individual
    needs a team nominee. *)
Definition validation_failure (body : Js.object) : Prop :=
  unusable_id (ceremonyId_of body) \/
  unusable_id (categoryId_of body) \/
  unusable_type (type_of body) \/
  (type_is body "individual" /\ unusable_id (participantId_of body)) \/
  (~ type_is body "individual" /\ unusable_id (teamId_of body)).

(** ** Participant and team summary *)

(** A [Map<number, V>]: entries in insertion order of their keys. *)
Module IdMap.

Definition t (V : Type) := list (Z * V).

Fixpoint get {V} (k : Z) (m : t V) : option V :=
  match m with
  | [] => None
  | (k', v) :: m' => if (k =? k')%Z then Some v else get k m'
  end.

(** [m.set(k, v)]: an existing key keeps its position. *)
Fixpoint set {V} (k : Z) (v : V) (m : t V) : t V :=
  match m with
  | [] => [(k, v)]
  | (k', v') :: m' =>
      if (k =? k')%Z then (k', v) :: m' else (k', v') :: set k v m'
  end.

Definition keys {V} (m : t V) : list Z := map fst m.

End IdMap.

(** A [Set<number>]: distinct members in insertion order. *)
Module IdSet.

Definition t := list Z.

Definition has (x : Z) (s : t) : bool := existsb (Z.eqb x) s.

Definition add (x : Z) (s : t) : t :=
  if has x s then s else s ++ [x].

Definition size (s : t) : nat := List.length s.

End IdSet.

(** The [team] relation of a participant. *)
Record ParticipantTeamRef := {
  ref_id : option Z;
  ref_name : option str
}.

Record ParticipantRecord := {
  pr_id : Z;
  pr_first_name : option str;
  pr_last_name : option str;
  pr_team : option ParticipantTeamRef;
  pr_nganh : option str
}.

Record TeamRecord := {
  tr_id : Z;
  tr_name : option str
}.

Record ParticipantStat := {
  ps_id : Z;
  ps_name : str;
  ps_teamName : str;
  ps_nganh : option str;
  ps_awardCount : nat;
  ps_colorBreakdown : list ColorCount
}.

Inductive DetailKind := kind_team | kind_participant.

Record TeamAwardDetail := {
  td_id : Z;
  td_kind : DetailKind;
  td_categoryName : str;
  td_categoryColor : str;
  td_type : option AwardType;
  td_nominee : str;
  td_submittedAt : option str
}.

Record TeamStat := {
  ts_id : Z;
  ts_name : str;
  ts_awardCount : nat;
  ts_participantsRecognized : nat;
  ts_colorBreakdown : list ColorCount;
  ts_teamAwards : list TeamAwardDetail;
  ts_individualAwards : list TeamAwardDetail
}.

Record ParticipantTeamMetrics := {
  totalApprovedAwards : nat;
  participantsAwarded : nat;
  participantsAwaitingRecognition : nat;
  pt_teamsAwarded : nat;
  teamsAwaitingRecognition : nat
}.

Record ParticipantTeamSummary := {
  pt_metrics : ParticipantTeamMetrics;
  participantLeaderboard : list ParticipantStat;
  participantsPendingRecognition : list ParticipantStat;
  teamLeaderboard : list TeamStat;
  teams : list TeamStat;
  teamsPendingRecognition : list TeamStat;
  pendingAwards : list PendingAwardEntry
}.

Record ParticipantAccumulator := {
  pacc_record : option ParticipantRecord;
  pacc_total : nat;
  pacc_colors : JsMap.t
}.

Record TeamAccumulator := {
  tacc_record : option TeamRecord;
  tacc_teamAwardCount : nat;
  tacc_colors : JsMap.t;
  tacc_participantsRecognized : IdSet.t;
  tacc_teamAwards : list TeamAwardDetail;
  tacc_individualAwards : list TeamAwardDetail
}.

(** The object literal [{ first_name, last_name }] handed to
    [formatPersonName]. *)
Record NameParts := {
  np_first_name : option str;
  np_last_name : option str
}.

#[export] Instance Person_parts : Person NameParts :=
  {| first_name := np_first_name; last_name := np_last_name |}.

(** [Array.from(colors.entries()).map(([color, count]) => ...)] *)
Definition breakdown_of (colors : JsMap.t) : list ColorCount :=
  map (fun '(color, count) => {| color := color; count := count |})
      (JsMap.entries colors).

Definition toParticipantStat (id : Z) (entry : ParticipantAccumulator)
  : ParticipantStat :=
  let record := pacc_record entry in
  let name :=
    Js.or_else
      (formatPersonName
         (Some {| np_first_name :=
                    match record with Some r => pr_first_name r | None => None end;
                  np_last_name :=
                    match record with Some r => pr_last_name r | None => None end |}))
      (lit "Unknown participant") in
  {| ps_id := id;
     ps_name := name;
     ps_teamName :=
       nullish (match record with
                | Some r => match pr_team r with
                            | Some t => ref_name t
                            | None => None
                            end
                | None => None
                end) (lit "Unassigned");
     ps_nganh := match record with Some r => pr_nganh r | None => None end;
     ps_awardCount := pacc_total entry;
     ps_colorBreakdown := breakdown_of (pacc_colors entry) |}.

Definition toTeamStat (id : Z) (entry : TeamAccumulator) : TeamStat :=
  {| ts_id := id;
     ts_name :=
       nullish (match tacc_record entry with
                | Some r => tr_name r
                | None => None
                end) (lit "Unknown team");
     ts_awardCount := tacc_teamAwardCount entry;
     ts_participantsRecognized := IdSet.size (tacc_participantsRecognized entry);
     ts_colorBreakdown := breakdown_of (tacc_colors entry);
     ts_teamAwards := tacc_teamAwards entry;
     ts_individualAwards := tacc_individualAwards entry |}.

(** [colors.set(color, (colors.get(color) ?? 0) + 1)] *)
Definition bump (color : str) (colors : JsMap.t) : JsMap.t :=
  JsMap.set color (nullish (JsMap.get color colors) 0 + 1) colors.

(** [award.participant_nominee?.id] and [award.team_nominee?.id] *)
Definition participant_nominee_id (award : DirectusAwardRecord) : option Z :=
  match participant_nominee award with
  | Some p => participant_id p
  | None => None
  end.

Definition team_nominee_id (award : DirectusAwardRecord) : option Z :=
  match team_nominee award with
  | Some t => team_id t
  | None => None
  end.

(** [award.submitted_at ?? award.approved_at ?? null] *)
Definition submitted_display_time (award : DirectusAwardRecord) : option str :=
  nullish_opt (submitted_at award) (approved_at award).

Definition individual_detail (award : DirectusAwardRecord) : TeamAwardDetail :=
  {| td_id := id award;
     td_kind := kind_participant;
     td_categoryName := categoryName_of award;
     td_categoryColor := categoryColor_of award;
     td_type := type award;
     td_nominee :=
       Js.or_else (formatPersonName (participant_nominee award))
                  (lit "Individual nominee");
     td_submittedAt := submitted_display_time award |}.

Definition team_detail (award : DirectusAwardRecord) : TeamAwardDetail :=
  {| td_id := id award;
     td_kind := kind_team;
     td_categoryName := categoryName_of award;
     td_categoryColor := categoryColor_of award;
     td_type := type award;
     td_nominee := nullish (team_nominee_name award) (lit "Team nominee");
     td_submittedAt := submitted_display_time award |}.

(** Which branch of the accumulation loop an approved award takes. *)
Definition individual_branch (award : DirectusAwardRecord) : option Z :=
  if is_individual (type award)
  then truthy_number (participant_nominee_id award)
  else None.

Definition team_branch (award : DirectusAwardRecord) : option Z :=
  match individual_branch award with
  | Some _ => None
  | None => truthy_number (team_nominee_id award)
  end.

Section ParticipantTeam.

Variable parse_date_string : str -> option Z.

(** [a.localeCompare(b)], the engine's collation: a consistent
    ordering of strings, so that the stable sort by it is determined. *)
Variable localeCompare : str -> str -> Z.

Variable participants : list ParticipantRecord.
Variable teams_given : list TeamRecord.

Definition find_participant (pid : Z) : option ParticipantRecord :=
  find (fun p => (pr_id p =? pid)%Z) participants.

Definition find_team (tid : Z) : option TeamRecord :=
  find (fun team => (tr_id team =? tid)%Z) teams_given.

(** The maps before the loop: every known participant and team. *)
Definition seed_participants : IdMap.t ParticipantAccumulator :=
  fold_left
    (fun m participant =>
       IdMap.set (pr_id participant)
         {| pacc_record := Some participant; pacc_total := 0;
            pacc_colors := [] |} m)
    participants [].

Definition seed_teams : IdMap.t TeamAccumulator :=
  fold_left
    (fun m team =>
       IdMap.set (tr_id team)
         {| tacc_record := Some team; tacc_teamAwardCount := 0;
            tacc_colors := []; tacc_participantsRecognized := [];
            tacc_teamAwards := []; tacc_individualAwards := [] |} m)
    teams_given [].

(** The participant side of one iteration. *)
Definition credit_participant (pid : Z) (color : str)
  (participantMap : IdMap.t ParticipantAccumulator)
  : IdMap.t ParticipantAccumulator :=
  match IdMap.get pid participantMap with
  | Some participantEntry =>
      IdMap.set pid
        {| pacc_record := pacc_record participantEntry;
           pacc_total := pacc_total participantEntry + 1;
           pacc_colors := bump color (pacc_colors participantEntry) |}
        participantMap
  | None =>
      IdMap.set pid
        {| pacc_record := None; pacc_total := 1;
           pacc_colors := [(color, 1)] |}
        participantMap
  end.

(** [participantEntry?.record ?? participants.find(...)?.team?.id] *)
Definition team_of_participant (pid : Z)
  (participantMap : IdMap.t ParticipantAccumulator) : option Z :=
  let participantRecord :=
    nullish_opt
      (match IdMap.get pid participantMap with
       | Some participantEntry => pacc_record participantEntry
       | None => None
       end)
      (find_participant pid) in
  match participantRecord with
  | Some r => match pr_team r with
              | Some t => ref_id t
              | None => None
              end
  | None => None
  end.

Definition recognize (tid pid : Z) (award : DirectusAwardRecord)
  (teamMap : IdMap.t TeamAccumulator) : IdMap.t TeamAccumulator :=
  match IdMap.get tid teamMap with
  | Some teamEntry =>
      IdMap.set tid
        {| tacc_record := tacc_record teamEntry;
           tacc_teamAwardCount := tacc_teamAwardCount teamEntry;
           tacc_colors := tacc_colors teamEntry;
           tacc_participantsRecognized :=
             IdSet.add pid (tacc_participantsRecognized teamEntry);
           tacc_teamAwards := tacc_teamAwards teamEntry;
           tacc_individualAwards :=
             tacc_individualAwards teamEntry ++ [individual_detail award] |}
        teamMap
  | None =>
      IdMap.set tid
        {| tacc_record := find_team tid;
           tacc_teamAwardCount := 0;
           tacc_colors := [];
           tacc_participantsRecognized := [pid];
           tacc_teamAwards := [];
           tacc_individualAwards := [individual_detail award] |}
        teamMap
  end.

Definition credit_team (tid : Z) (award : DirectusAwardRecord)
  (teamMap : IdMap.t TeamAccumulator) : IdMap.t TeamAccumulator :=
  let color := categoryColor_of award in
  match IdMap.get tid teamMap with
  | Some teamEntry =>
      IdMap.set tid
        {| tacc_record := tacc_record teamEntry;
           tacc_teamAwardCount := tacc_teamAwardCount teamEntry + 1;
           tacc_colors := bump color (tacc_colors teamEntry);
           tacc_participantsRecognized := tacc_participantsRecognized teamEntry;
           tacc_teamAwards := tacc_teamAwards teamEntry ++ [team_detail award];
           tacc_individualAwards := tacc_individualAwards teamEntry |}
        teamMap
  | None =>
      IdMap.set tid
        {| tacc_record := find_team tid;
           tacc_teamAwardCount := 1;
           tacc_colors := [(color, 1)];
           tacc_participantsRecognized := [];
           tacc_teamAwards := [team_detail award];
           tacc_individualAwards := [] |}
        teamMap
  end.

(** The body of [for (const award of approvedAwards)]; the team of the
    participant is read from the entry found before it was credited. *)
Definition accumulate
  (maps : IdMap.t ParticipantAccumulator * IdMap.t TeamAccumulator)
  (award : DirectusAwardRecord)
  : IdMap.t ParticipantAccumulator * IdMap.t TeamAccumulator :=
  let (participantMap, teamMap) := maps in
  match individual_branch award with
  | Some pid =>
      (credit_participant pid (categoryColor_of award) participantMap,
       match truthy_number (team_of_participant pid participantMap) with
       | Some teamId => recognize teamId pid award teamMap
       | None => teamMap
       end)
  | None =>
      match truthy_number (team_nominee_id award) with
      | Some tid => (participantMap, credit_team tid award teamMap)
      | None => maps
      end
  end.

Definition detail_key (d : TeamAwardDetail) : Z :=
  parsed_or_zero parse_date_string (td_submittedAt d).

Definition awarded_team_stat (id : Z) (entry : TeamAccumulator) : TeamStat :=
  let stat := toTeamStat id entry in
  {| ts_id := ts_id stat;
     ts_name := ts_name stat;
     ts_awardCount := ts_awardCount stat;
     ts_participantsRecognized := ts_participantsRecognized stat;
     ts_colorBreakdown := ts_colorBreakdown stat;
     ts_teamAwards := Array_sort (by_key detail_key) (tacc_teamAwards entry);
     ts_individualAwards := tacc_individualAwards entry |}.

Definition buildParticipantTeamSummary (awards : list DirectusAwardRecord)
  : ParticipantTeamSummary :=
  let approvedAwards := filter is_approved awards in
  let pendingAwards :=
    buildParticipantTeamSummary_pendingAwards parse_date_string awards in
  let (participantMap, teamMap) :=
    fold_left accumulate approvedAwards (seed_participants, seed_teams) in
  let participantAwardedAll :=
    Array_sort (by_key (fun stat => Z.of_nat (ps_awardCount stat)))
      (map (fun '(id, entry) => toParticipantStat id entry)
         (filter (fun '(_, entry) => 0 <? pacc_total entry) participantMap)) in
  let participantPendingAll :=
    Array_sort (fun a b => localeCompare (ps_teamName a) (ps_teamName b))
      (map (fun '(id, entry) => toParticipantStat id entry)
         (filter (fun '(_, entry) => pacc_total entry =? 0) participantMap)) in
  let teamAwardedAll :=
    Array_sort (by_key (fun stat => Z.of_nat (ts_awardCount stat)))
      (map (fun '(id, entry) => awarded_team_stat id entry)
         (filter (fun '(_, entry) => 0 <? tacc_teamAwardCount entry) teamMap)) in
  let teamPendingAll :=
    Array_sort (fun a b => localeCompare (ts_name a) (ts_name b))
      (map (fun '(id, entry) => toTeamStat id entry)
         (filter (fun '(_, entry) => tacc_teamAwardCount entry =? 0) teamMap)) in
  {| pt_metrics :=
       {| totalApprovedAwards := List.length approvedAwards;
          participantsAwarded := List.length participantAwardedAll;
          participantsAwaitingRecognition := List.length participantPendingAll;
          pt_teamsAwarded := List.length teamAwardedAll;
          teamsAwaitingRecognition := List.length teamPendingAll |};
     participantLeaderboard := slice0 10 participantAwardedAll;
     participantsPendingRecognition := slice0 10 participantPendingAll;
     teamLeaderboard := slice0 10 teamAwardedAll;
     teams := teamAwardedAll;
     teamsPendingRecognition := slice0 10 teamPendingAll;
     pendingAwards := pendingAwards |}.

End ParticipantTeam.

(** How many of some awards the loop credits to a participant, and to
    a team. *)
Definition credits_participant (pid : Z) (award : DirectusAwardRecord) : bool :=
  match individual_branch award with
  | Some p => (p =? pid)%Z
  | None => false
  end.

Definition credits_team (tid : Z) (award : DirectusAwardRecord) : bool :=
  match team_branch award with
  | Some t => (t =? tid)%Z
  | None => false
  end.

Definition credited (pid : Z) (l : list DirectusAwardRecord) : nat :=
  List.length (filter (credits_participant pid) l).

Definition team_credited (tid : Z) (l : list DirectusAwardRecord) : nat :=
  List.length (filter (credits_team tid) l).

(** The team the summary takes a participant to belong to: the team id
    of the record it holds for the participant's id. *)
Definition home_team (participants : list ParticipantRecord) (pid : Z)
  : option Z :=
  truthy_number
    (team_of_participant participants pid (seed_participants participants)).

(** An award that recognizes a participant of team [k]. *)
Definition recognizes (participants : list ParticipantRecord) (k : Z)
  (award : DirectusAwardRecord) : Prop :=
  exists pid,
    individual_branch award = Some pid /\ home_team participants pid = Some k.

(** What the maps hold once the loop has run over [l]. *)
Definition participants_after (participants : list ParticipantRecord)
  (l : list DirectusAwardRecord) (m : IdMap.t ParticipantAccumulator) : Prop :=
  NoDup (IdMap.keys m) /\
  (forall k, In k (IdMap.keys m) <->
             In k (map pr_id participants) \/ 0 < credited k l) /\
  (forall k e,
      IdMap.get k m = Some e ->
      pacc_total e = credited k l /\
      list_sum (map snd (pacc_colors e)) = pacc_total e /\
      (forall r, pacc_record e = Some r -> In r participants /\ pr_id r = k) /\
      (pacc_record e = None ->
       0 < pacc_total e /\ ~ In k (map pr_id participants))).

Definition teams_after (teams_given : list TeamRecord)
  (l : list DirectusAwardRecord) (m : IdMap.t TeamAccumulator) : Prop :=
  NoDup (IdMap.keys m) /\
  (forall k, In k (map tr_id teams_given) \/ 0 < team_credited k l ->
             In k (IdMap.keys m)) /\
  (forall k e,
      IdMap.get k m = Some e ->
      tacc_teamAwardCount e = team_credited k l /\
      tacc_teamAwards e = map team_detail (filter (credits_team k) l) /\
      list_sum (map snd (tacc_colors e)) = tacc_teamAwardCount e /\
      Forall (fun d => td_kind d = kind_participant) (tacc_individualAwards e) /\
      NoDup (tacc_participantsRecognized e) /\
      IdSet.size (tacc_participantsRecognized e)
      <= List.length (tacc_individualAwards e) /\
      (tacc_individualAwards e = [] <-> tacc_participantsRecognized e = []) /\
      (forall r, tacc_record e = Some r -> In r teams_given /\ tr_id r = k) /\
      (tacc_record e = None -> ~ In k (map tr_id teams_given))).

(** ** Reads, and the other routes *)

(** [response.data ?? []] on a parsed body. *)
Definition data_or_empty (data : option Js.json) : Js.json :=
  match data with
  | Some Js.JNull | None => Js.JArr []
  | Some value => value
  end.

Record CeremonyRecord := {
  cr_id : Z;
  cr_name : str;
  cr_order : option Z
}.

(** An entry of the by-entity listing. *)
Record EntityAward := {
  ea_id : Z;
  ea_categoryName : str;
  ea_categoryColor : str;
  ea_status : Status;
  ea_type : option AwardType;
  ea_submittedAt : option str;
  ea_ceremonyId : option Z;
  ea_ceremonyName : option str;
  ea_ceremonyOrder : Z
}.

(** [type === "team" || type === "overall"] *)
Definition is_team_or_overall (t : option AwardType) : bool :=
  match t with
  | Some team | Some overall => true
  | _ => false
  end.

(** [relation?.id === wanted] for a number [wanted]. *)
Definition id_is (found : option Z) (wanted : Z) : bool :=
  match found with
  | Some n => (n =? wanted)%Z
  | None => false
  end.

(** The filter of the by-entity route: a participant id, when truthy,
    takes precedence over a team id. *)
Definition entity_filter (participantId teamId : option Z)
  (award : DirectusAwardRecord) : bool :=
  match truthy_number participantId with
  | Some p =>
      is_individual (type award) && id_is (participant_nominee_id award) p
  | None =>
      match truthy_number teamId with
      | Some t =>
          is_team_or_overall (type award) && id_is (team_nominee_id award) t
      | None => false
      end
  end.

(** [new Map(ceremonies.map(c => [c.id, { name, order: c.order ?? 999 }]))] *)
Definition ceremony_map (ceremonies : list CeremonyRecord)
  : IdMap.t (str * Z) :=
  fold_left
    (fun m c => IdMap.set (cr_id c) (cr_name c, nullish (cr_order c) 999%Z) m)
    ceremonies [].

Definition entity_award (ceremonyMap : IdMap.t (str * Z))
  (award : DirectusAwardRecord) : EntityAward :=
  let found :=
    match truthy_number (ceremony award) with
    | Some c => IdMap.get c ceremonyMap
    | None => None
    end in
  {| ea_id := id award;
     ea_categoryName := categoryName_of award;
     ea_categoryColor := categoryColor_of award;
     ea_status := status award;
     ea_type := type award;
     ea_submittedAt := submitted_display_time award;
     ea_ceremonyId := ceremony award;
     ea_ceremonyName := option_map fst found;
     ea_ceremonyOrder := nullish (option_map snd found) 999%Z |}.

(** What the by-entity route answers once both lists are fetched. *)
Definition entity_awards (participantId teamId : option Z)
  (allAwards : list DirectusAwardRecord) (ceremonies : list CeremonyRecord)
  : list EntityAward :=
  map (entity_award (ceremony_map ceremonies))
      (filter (entity_filter participantId teamId) allAwards).

(** [status === "approved"] on a value of unknown type. *)
Definition is_approved_value (v : Js.json) : bool :=
  match v with
  | Js.JStr s => Js.eqb s (lit "approved")
  | _ => false
  end.

Section Routes.

(** [Number.parseInt(s, 10)]; [None] is NaN. *)
Variable parseInt10 : str -> option Z.

Variable Number_toString : Z -> str.

(** [new URLSearchParams(entries).toString()] *)
Variable encode_query : list (str * str) -> str.

Variable config : Config.

Definition read_init : RequestInit :=
  {| init_method := None; init_body := None |}.

(** The query of [getAwardsByCeremony]. *)
Definition awards_query (ceremonyId : option Z) : list (str * str) :=
  let params :=
    [(lit "fields",
      lit "id,status,type,submitted_at,approved_at,category.name,category.color,participant_nominee.id,participant_nominee.first_name,participant_nominee.last_name,team_nominee.id,team_nominee.name,submitted_by.first_name,submitted_by.last_name,ceremony");
     (lit "sort", lit "-submitted_at");
     (lit "limit", lit "-1")] in
  match truthy_number ceremonyId with
  | Some c => params ++ [(lit "filter[ceremony][_eq]", Number_toString c)]
  | None => params
  end.

Definition getAwardsByCeremony (ceremonyId : option Z) : Exec Js.json :=
  (response <- directusFetch config
                 (lit "items/awards?" ++ encode_query (awards_query ceremonyId))
                 read_init ;;
   data <- data_of response ;;
   Ret (data_or_empty data))%exec.

Definition getCeremonies : Exec Js.json :=
  (response <- directusFetch config
                 (lit "items/award_ceremonies?"
                  ++ encode_query [(lit "sort", lit "order")])
                 read_init ;;
   data <- data_of response ;;
   Ret (data_or_empty data))%exec.

Definition getParticipants : Exec Js.json :=
  (response <- directusFetch config
                 (lit "items/participants?"
                  ++ encode_query
                       [(lit "fields",
                         lit "id,first_name,last_name,team.id,team.name,nganh");
                        (lit "limit", lit "-1")])
                 read_init ;;
   data <- data_of response ;;
   Ret (data_or_empty data))%exec.

Definition getTeams : Exec Js.json :=
  (response <- directusFetch config
                 (lit "items/teams?"
                  ++ encode_query [(lit "fields", lit "id,name");
                                   (lit "limit", lit "-1")])
                 read_init ;;
   data <- data_of response ;;
   Ret (data_or_empty data))%exec.

(** [updateAwardStatus] on the value a route hands it through a cast. *)
Definition updateAwardStatus_value_payload (now : str) (status : Js.json)
  : Js.object :=
  let payload := [(lit "status", status)] in
  if is_approved_value status
  then Js.set (lit "approved_at") (Js.JStr now) payload
  else Js.set (lit "approved_at") Js.JNull payload.

Definition updateAwardStatus_value (now : str) (awardId : Z) (status : Js.json)
  : Exec (option Js.json) :=
  (response <- directusFetch config
                 (lit "items/awards/" ++ Number_toString awardId)
                 {| init_method := Some (lit "PATCH");
                    init_body :=
                      Some (Js.JObj (updateAwardStatus_value_payload now status)) |} ;;
   data_of response)%exec.

(** The confirm route, [POST /api/awards/:awardId/confirm]. *)
Definition confirm_POST (now : str) (awardIdParam : str) : Exec HttpResponse :=
  match parseInt10 awardIdParam with
  | None => Ret (message_response 400 "Invalid award identifier.")
  | Some awardId =>
      try_catch
        (award <- approveAward Number_toString config now awardId ;;
         NextResponse_json award 200)%exec
        (fun _ => Ret (message_response 500 "Failed to approve award."))
  end.

(** The [try]/[catch] that ends the status route. *)
Definition update_and_answer (now : str) (awardId : Z) (status : Js.json)
  : Exec HttpResponse :=
  try_catch
    (award <- updateAwardStatus_value now awardId status ;;
     NextResponse_json award 200)%exec
    (fun _ => Ret (message_response 500 "Failed to update award status.")).

(** The status route: the award id from the path, the target status
    from the body, which is awaited only after the id has parsed and
    outside the [try]. *)
Definition status_POST (now : str) (awardIdParam : str)
  (request_body : option Js.json) : Exec HttpResponse :=
  match parseInt10 awardIdParam with
  | None => Ret (message_response 400 "Invalid award identifier.")
  | Some awardId =>
      (parsed <- request_json request_body ;;
       body <- properties_of parsed ;;
       match truthy_value (Js.get (lit "status") body) with
       | None => Ret (message_response 400 "Missing target status.")
       | Some status => update_and_answer now awardId status
       end)%exec
  end.

End Routes.

(** ** Labels of the award form *)

(** [value.replace(/_/g, " ")], or undefined for a missing or empty
    value. *)
Definition normalizeLabel (value : option str) : option str :=
  match value with
  | Some s =>
      if Js.nonempty s
      then Some (map (fun c => if (c =? 95)%N then 32%N else c) s)
      else None
  | None => None
  end.

(** The class [\w] of a pattern without flags: ASCII letters, digits
    and the underscore. *)
Definition is_word_char (c : N) : bool :=
  ((48 <=? c) && (c <=? 57) || (65 <=? c) && (c <=? 90)
   || (c =? 95) || (97 <=? c) && (c <=? 122))%N.

(** [letter.toUpperCase()] on one word character. *)
Definition upper_word_char (c : N) : N :=
  if ((97 <=? c) && (c <=? 122))%N then (c - 32)%N else c.

(** [s.replace(/\b\w/g, letter => letter.toUpperCase())]: a word
    character is replaced when no word character precedes it. *)
Fixpoint capitalize_words (after_word : bool) (s : str) : str :=
  match s with
  | [] => []
  | c :: rest =>
      (if is_word_char c && negb after_word then upper_word_char c else c)
        :: capitalize_words (is_word_char c) rest
  end.

Definition normalizeColorLabel (value : option str) : str :=
  match normalizeLabel value with
  | Some formatted =>
      if Js.nonempty formatted then capitalize_words false formatted
      else lit "Unknown color"
  | None => lit "Unknown color"
  end.

(** ** Sample data *)

Module Samples.

Local Open Scope Z_scope.

(** An engine that knows three instants and rejects everything else. *)
Definition parse_date_string (s : str) : option Z :=
  if Js.eqb s (lit "2024-07-01T10:00:00.000Z") then Some 1719828000000
  else if Js.eqb s (lit "2024-07-01T11:00:00.000Z") then Some 1719831600000
  else if Js.eqb s (lit "1969-12-31T23:59:59.000Z") then Some (-1000)
  else None.

(** Decimal rendering, as [String] gives it for integers. *)
Definition Number_toString (n : Z) : str :=
  lit (NilZero.string_of_int (Z.to_int n)).

Definition config : Config :=
  {| DIRECTUS_URL := Some (lit "https://cms.example/");
     DIRECTUS_STATIC_TOKEN := Some (lit "secret") |}.

Definition now : str := lit "2024-07-01T12:00:00.000Z".

Definition ann : DirectusParticipant :=
  {| participant_id := Some 1;
     participant_first_name := Some (lit "Ann");
     participant_last_name := Some (lit "Lee") |}.

(** Another participant who formats to the same name as [ann]. *)
Definition ann_too : DirectusParticipant :=
  {| participant_id := Some 2;
     participant_first_name := Some (lit "Ann");
     participant_last_name := Some (lit "Lee") |}.

Definition nameless : DirectusParticipant :=
  {| participant_id := Some 3;
     participant_first_name := Some (lit "  ");
     participant_last_name := None |}.

Definition eagles : DirectusTeam :=
  {| team_id := Some 10; team_name := Some (lit "Eagles") |}.

Definition green : Category :=
  {| category_name := Some (lit "Spirit"); category_color := Some (lit "green") |}.

Definition award (i : Z) (s : Status) (t : option AwardType)
  (submitted approved_on : option str) (c : option Category)
  (p : option DirectusParticipant) (tm : option DirectusTeam)
  : DirectusAwardRecord :=
  {| id := i; status := s; type := t;
     submitted_at := submitted; approved_at := approved_on;
     category := c; participant_nominee := p; team_nominee := tm;
     submitted_by := None; ceremony := Some 1 |}.

Definition a1 : DirectusAwardRecord :=
  award 1 approved (Some individual)
    (Some (lit "2024-07-01T10:00:00.000Z")) (Some (lit "2024-07-01T11:00:00.000Z"))
    (Some green) (Some ann) None.

Definition a2 : DirectusAwardRecord :=
  award 2 approved (Some individual)
    (Some (lit "2024-07-01T10:00:00.000Z")) None
    None (Some ann_too) None.

Definition a3 : DirectusAwardRecord :=
  award 3 approved (Some team) None None None None (Some eagles).

Definition a4 : DirectusAwardRecord :=
  award 4 pending (Some team) (Some (lit "yesterday")) None None None None.

Definition a5 : DirectusAwardRecord :=
  award 5 pending (Some individual) None None (Some green) None None.

Definition a6 : DirectusAwardRecord :=
  award 6 rejected None None None None None None.

(** Approved before the epoch. *)
Definition a7 : DirectusAwardRecord :=
  award 7 approved (Some overall) None (Some (lit "1969-12-31T23:59:59.000Z"))
    None None (Some eagles).

Definition awards : list DirectusAwardRecord := [a1; a2; a3; a4; a5; a6].

(** A store that accepts every request and echoes an empty record. *)
Definition echo_store (s : unit) (rq : Request) : unit * option Response :=
  (s, Some {| resp_ok := true; resp_status := 200;
              resp_statusText := lit "OK"; resp_text := lit "{}";
              resp_json := Some (Js.JObj [(lit "data", Js.JObj [])]) |}).

(** A store that refuses every request. *)
Definition failing_store (s : unit) (rq : Request) : unit * option Response :=
  (s, Some {| resp_ok := false; resp_status := 503;
              resp_statusText := lit "Service Unavailable"; resp_text := [];
              resp_json := None |}).

(** A store holding one award as a record of properties.  A request
    with a body overwrites the properties it names, the partial update
    the store offers, and answers with the record. *)
Definition award_store (held : Js.object) (rq : Request)
  : Js.object * option Response :=
  let held' :=
    match req_body rq with
    | Some (Js.JObj payload) =>
        fold_left (fun record '(k, v) => Js.set k v record) payload held
    | _ => held
    end in
  (held', Some {| resp_ok := true; resp_status := 200;
                  resp_statusText := lit "OK"; resp_text := [];
                  resp_json := Some (Js.JObj [(lit "data", Js.JObj held')]) |}).

(** The award as the store holds it in a given status. *)
Definition held_in (s : Status) : Js.object :=
  [(lit "id", Js.JNum 7);
   (lit "status", Js.JStr (status_string s));
   (lit "approved_at",
    match s with
    | approved => Js.JStr (lit "2024-07-01T11:00:00.000Z")
    | _ => Js.JNull
    end)].

Definition team_request : Js.object :=
  [(lit "ceremonyId", Js.JNum 1); (lit "categoryId", Js.JNum 2);
   (lit "type", Js.JStr (lit "team")); (lit "teamId", Js.JNum 10);
   (lit "notes", Js.JStr (lit "well played"))].

(** A request whose type is none of the three kinds and names no team. *)
Definition odd_type_request : Js.object :=
  [(lit "ceremonyId", Js.JNum 1); (lit "categoryId", Js.JNum 2);
   (lit "type", Js.JStr (lit "group"))].

(** A team request that gives every id, the ceremony as 0. *)
Definition zero_id_request : Js.object :=
  [(lit "ceremonyId", Js.JNum 0); (lit "categoryId", Js.JNum 2);
   (lit "type", Js.JStr (lit "team")); (lit "teamId", Js.JNum 10)].

(** A team request whose type is the empty string. *)
Definition blank_type_request : Js.object :=
  [(lit "ceremonyId", Js.JNum 1); (lit "categoryId", Js.JNum 2);
   (lit "type", Js.JStr []); (lit "teamId", Js.JNum 10)].

(** A store that accepts every request and answers with an object that
    has no [data] property. *)
Definition bare_store (s : unit) (rq : Request) : unit * option Response :=
  (s, Some {| resp_ok := true; resp_status := 200;
              resp_statusText := lit "OK"; resp_text := lit "{}";
              resp_json := Some (Js.JObj []) |}).

(** Comparison by code units, a collation that agrees with the engine's
    on plain capitalised names. *)
Fixpoint localeCompare (a b : str) : Z :=
  match a, b with
  | [], [] => 0
  | [], _ :: _ => -1
  | _ :: _, [] => 1
  | x :: a', y :: b' =>
      if (x <? y)%N then -1 else if (y <? x)%N then 1 else localeCompare a' b'
  end.

Definition p_ann : ParticipantRecord :=
  {| pr_id := 1; pr_first_name := Some (lit "Ann");
     pr_last_name := Some (lit "Lee");
     pr_team := Some {| ref_id := Some 10; ref_name := Some (lit "Eagles") |};
     pr_nganh := Some (lit "Thieu") |}.

Definition p_bao : ParticipantRecord :=
  {| pr_id := 2; pr_first_name := Some (lit "Bao"); pr_last_name := None;
     pr_team := Some {| ref_id := Some 11; ref_name := Some (lit "Doves") |};
     pr_nganh := None |}.

Definition p_chi : ParticipantRecord :=
  {| pr_id := 3; pr_first_name := None; pr_last_name := None;
     pr_team := None; pr_nganh := None |}.

Definition participants : list ParticipantRecord := [p_ann; p_bao; p_chi].

Definition team_records : list TeamRecord :=
  [{| tr_id := 10; tr_name := Some (lit "Eagles") |};
   {| tr_id := 12; tr_name := Some (lit "Cranes") |}].

(** A team award that names no team. *)
Definition a8 : DirectusAwardRecord :=
  award 8 approved (Some team) None None (Some green) None None.

End Samples.

(** * Properties *)

(** ** Facts about the built-in models *)

Lemma nonempty_true_iff (s : str) : Js.nonempty s = true <-> s <> [].
Proof. destruct s; simpl; split; congruence. Qed.

Lemma nonempty_false_iff (s : str) : Js.nonempty s = false <-> s = [].
Proof. destruct s; simpl; split; congruence. Qed.

Lemma eqb_true_iff (a b : str) : Js.eqb a b = true <-> a = b.
Proof.
  revert b. induction a as [|x a IH]; intros [|y b]; cbn [Js.eqb];
    try (split; congruence).
  rewrite andb_true_iff, N.eqb_eq, IH. split.
  - intros [-> ->]. reflexivity.
  - intros H. injection H as -> ->. split; reflexivity.
Qed.

Lemma eqb_false_iff (a b : str) : Js.eqb a b = false <-> a <> b.
Proof.
  rewrite <- eqb_true_iff. destruct (Js.eqb a b); split; congruence.
Qed.

Lemma eqb_refl (a : str) : Js.eqb a a = true.
Proof. now apply eqb_true_iff. Qed.

Lemma is_status_true_iff (s t : Status) : is_status s t = true <-> s = t.
Proof. unfold is_status; destruct (Status_eq_dec s t); split; congruence. Qed.

Lemma is_individual_true_iff (t : option AwardType) :
  is_individual t = true <-> t = Some individual.
Proof. destruct t as [[]|]; simpl; split; congruence. Qed.

Lemma or_else_nonempty (a b : str) : a <> [] -> Js.or_else a b = a.
Proof. destruct a; [congruence | reflexivity]. Qed.

(** The stable sort by a descending integer key. *)
Section SortFacts.

Context {A : Type} (key : A -> Z).

Lemma sort_insert_perm (x : A) (l : list A) :
  Permutation (sort_insert (by_key key) x l) (x :: l).
Proof.
  induction l as [|y l IH]; simpl; [reflexivity|].
  destruct (by_key key x y <=? 0)%Z; [reflexivity|].
  rewrite IH. apply perm_swap.
Qed.

Lemma Array_sort_perm (l : list A) : Permutation (Array_sort (by_key key) l) l.
Proof.
  induction l as [|x l IH]; simpl; [reflexivity|].
  rewrite sort_insert_perm. now constructor.
Qed.

Lemma sort_insert_descending (x : A) (l : list A) :
  descending key l -> descending key (sort_insert (by_key key) x l).
Proof.
  unfold descending. induction l as [|y l IH]; intros Hs; simpl.
  - repeat constructor.
  - inversion Hs as [|? ? Hl Hy]; subst.
    destruct (Z.leb_spec (by_key key x y) 0) as [Hle|Hgt]; unfold by_key in *.
    + constructor; [assumption|].
      constructor; [lia|].
      eapply Forall_impl; [|exact Hy]. simpl; intros; lia.
    + constructor; [now apply IH|].
      eapply Permutation_Forall;
        [apply Permutation_sym, sort_insert_perm|].
      constructor; [lia | assumption].
Qed.

Lemma Array_sort_descending (l : list A) : descending key (Array_sort (by_key key) l).
Proof.
  induction l as [|x l IH]; simpl.
  - constructor.
  - now apply sort_insert_descending.
Qed.

Lemma sort_insert_stable (k : Z) (x : A) (l : list A) :
  filter (with_key key k) (sort_insert (by_key key) x l) = filter (with_key key k) (x :: l).
Proof.
  induction l as [|y l IH]; [reflexivity|].
  cbn [sort_insert].
  destruct (Z.leb_spec (by_key key x y) 0) as [Hle|Hgt]; [reflexivity|].
  unfold by_key in Hgt. cbn [filter] in *. rewrite IH.
  unfold with_key.
  destruct (Z.eqb_spec (key x) k), (Z.eqb_spec (key y) k); try reflexivity; lia.
Qed.

(** Awards with equal keys keep their input order. *)
Lemma Array_sort_stable (k : Z) (l : list A) :
  filter (with_key key k) (Array_sort (by_key key) l) = filter (with_key key k) l.
Proof.
  induction l as [|x l IH]; [reflexivity|].
  cbn [Array_sort]. rewrite sort_insert_stable. cbn [filter]. now rewrite IH.
Qed.

End SortFacts.

(** ** Nominee labels *)

(** C7. The nominee label is defined on every award record, whatever
    relations are missing, and is: the formatted participant name when
    the type is individual and a participant nominee is present, or
    Individual nominee when that name is empty; otherwise the team
    nominee's name when it is present and non-empty; otherwise
    Nominee TBD. *)
Theorem getNomineeLabel_cases (award : DirectusAwardRecord) :
  (exists label, getNomineeLabel award = label) /\
  (forall p,
      type award = Some individual ->
      participant_nominee award = Some p ->
      (formatPersonName (Some p) <> [] ->
       getNomineeLabel award = formatPersonName (Some p)) /\
      (formatPersonName (Some p) = [] ->
       getNomineeLabel award = lit "Individual nominee")) /\
  (type award <> Some individual \/ participant_nominee award = None ->
   forall n,
     team_nominee_name award = Some n -> n <> [] ->
     getNomineeLabel award = n) /\
  (type award <> Some individual \/ participant_nominee award = None ->
   team_nominee_name award = None \/ team_nominee_name award = Some [] ->
   getNomineeLabel award = lit "Nominee TBD").
Proof.
  split; [eexists; reflexivity|].
  unfold getNomineeLabel. split; [|split].
  - intros p Ht Hp. rewrite Ht, Hp. simpl. split; intros Hn.
    + now apply or_else_nonempty.
    + unfold formatPersonName in Hn. simpl in Hn. now rewrite Hn.
  - intros Hguard n Hn Hne.
    assert (Hfall : is_individual (type award) = false
                    \/ participant_nominee award = None).
    { destruct Hguard as [Ht|Hp]; [left|now right].
      destruct (is_individual (type award)) eqn:E; [|reflexivity].
      apply is_individual_true_iff in E. contradiction. }
    rewrite Hn.
    apply nonempty_true_iff in Hne.
    destruct Hfall as [-> | ->]; rewrite ?Hne;
      try destruct (is_individual (type award)); now rewrite ?Hne.
  - intros Hguard Hteam.
    assert (Hfall : is_individual (type award) = false
                    \/ participant_nominee award = None).
    { destruct Hguard as [Ht|Hp]; [left|now right].
      destruct (is_individual (type award)) eqn:E; [|reflexivity].
      apply is_individual_true_iff in E. contradiction. }
    destruct Hfall as [-> | ->], Hteam as [-> | ->]; simpl;
      try destruct (is_individual (type award)); reflexivity.
Qed.

(** The label of records with broken relations. *)
Example getNomineeLabel_malformed :
  getNomineeLabel Samples.a6 = lit "Nominee TBD" /\
  getNomineeLabel Samples.a5 = lit "Nominee TBD" /\
  getNomineeLabel (Samples.award 8 pending (Some individual) None None None
                     (Some Samples.nameless) (Some Samples.eagles))
  = lit "Individual nominee".
Proof. repeat split; reflexivity. Qed.

Section SummaryProperties.

Variable parse_date_string : str -> option Z.


(** C5. Pending, approved and rejected awards partition the input:
    the two counts of the metrics and the number of rejected awards
    add up to the length of the list. *)
Theorem status_partition (awards : list DirectusAwardRecord) :
  let m := metrics (buildCeremonySummary parse_date_string awards) in
  metrics_pending m + metrics_approved m
  + List.length (filter (fun award => is_status (status award) rejected) awards)
  = List.length awards.
Proof.
  unfold buildCeremonySummary.
  cbn [metrics metrics_pending metrics_approved].
  induction awards as [|award awards IH]; [reflexivity|].
  cbn [filter]. unfold is_pending, is_approved in *.
  destruct (status award); cbn [is_status Status_eq_dec List.length];
    cbn; lia.
Qed.

End SummaryProperties.

(** ** Sets and maps of the summary *)

Lemma JsSet_has_In (x : str) (s : JsSet.t) : JsSet.has x s = true <-> In x s.
Proof.
  unfold JsSet.has. rewrite existsb_exists. split.
  - intros (y & Hy & E). apply eqb_true_iff in E. now subst.
  - intros H. exists x. split; [assumption | apply eqb_refl].
Qed.

Lemma JsSet_add_In (x y : str) (s : JsSet.t) :
  In y (JsSet.add x s) <-> In y s \/ y = x.
Proof.
  unfold JsSet.add. destruct (JsSet.has x s) eqn:E.
  - apply JsSet_has_In in E. split; [now left|].
    intros [H | ->]; assumption.
  - rewrite in_app_iff. simpl. intuition.
Qed.

Lemma JsSet_add_NoDup (x : str) (s : JsSet.t) :
  NoDup s -> NoDup (JsSet.add x s).
Proof.
  intros Hs. unfold JsSet.add. destruct (JsSet.has x s) eqn:E; [assumption|].
  assert (Hx : ~ In x s).
  { intros Hin. apply JsSet_has_In in Hin. congruence. }
  clear E. induction s as [|y s IH]; simpl.
  - constructor; [easy | constructor].
  - inversion Hs as [|? ? Hy Hs']; subst.
    constructor.
    + rewrite in_app_iff. simpl. intros [H | [H | []]]; [contradiction|].
      apply Hx. now left.
    + apply IH; [assumption|]. intros H. apply Hx. now right.
Qed.

Lemma JsSet_fold_spec (l : list str) (s : JsSet.t) :
  NoDup s ->
  NoDup (fold_left (fun s x => JsSet.add x s) l s) /\
  forall y, In y (fold_left (fun s x => JsSet.add x s) l s) <-> In y s \/ In y l.
Proof.
  revert s. induction l as [|x l IH]; intros s Hs; simpl.
  - split; [assumption | intuition].
  - destruct (IH (JsSet.add x s) (JsSet_add_NoDup x Hs)) as [Hnd Hin].
    split; [assumption|].
    intros y. rewrite Hin, JsSet_add_In. intuition.
Qed.

(** A set built from an array holds each of its strings once. *)
Lemma JsSet_of_array_spec (l : list str) :
  NoDup (JsSet.of_array l) /\ forall y, In y (JsSet.of_array l) <-> In y l.
Proof.
  destruct (JsSet_fold_spec l (NoDup_nil str)) as [Hnd Hin].
  split; [exact Hnd|]. intros y. rewrite (Hin y). simpl. intuition.
Qed.

Lemma JsMap_get_set (c k : str) (v : nat) (m : JsMap.t) :
  JsMap.get c (JsMap.set k v m) = if Js.eqb c k then Some v else JsMap.get c m.
Proof.
  induction m as [|[k' v'] m IH]; simpl.
  - reflexivity.
  - destruct (Js.eqb k k') eqn:Ek; simpl.
    + apply eqb_true_iff in Ek. subst k'.
      destruct (Js.eqb c k); reflexivity.
    + rewrite IH. destruct (Js.eqb c k') eqn:Ec; [|reflexivity].
      apply eqb_true_iff in Ec. subst k'.
      destruct (Js.eqb c k) eqn:Eck; [|reflexivity].
      apply eqb_true_iff in Eck. subst k. rewrite eqb_refl in Ek. discriminate.
Qed.

Lemma JsMap_keys_set (k : str) (v : nat) (m : JsMap.t) :
  map fst (JsMap.set k v m)
  = if JsSet.has k (map fst m) then map fst m else map fst m ++ [k].
Proof.
  unfold JsSet.has.
  induction m as [|[k' v'] m IH]; [reflexivity|].
  simpl. destruct (Js.eqb k k'); simpl; [reflexivity|].
  rewrite IH. now destruct (existsb (Js.eqb k) (map fst m)).
Qed.

Lemma JsMap_set_NoDup (k : str) (v : nat) (m : JsMap.t) :
  NoDup (map fst m) -> NoDup (map fst (JsMap.set k v m)).
Proof.
  intros H. rewrite JsMap_keys_set. now apply (JsSet_add_NoDup k).
Qed.

Lemma JsMap_get_In (m : JsMap.t) (c : str) (n : nat) :
  NoDup (map fst m) -> (In (c, n) m <-> JsMap.get c m = Some n).
Proof.
  induction m as [|[k v] m IH]; simpl; intros Hnd.
  - split; [easy | discriminate].
  - inversion Hnd as [|? ? Hk Hm]; subst.
    destruct (Js.eqb c k) eqn:E.
    + apply eqb_true_iff in E. subst k. split.
      * intros [H | H]; [congruence|].
        exfalso. apply Hk. change c with (fst (c, n)). now apply in_map.
      * intros H. left. congruence.
    + apply eqb_false_iff in E. rewrite <- (IH Hm). split.
      * intros [H | H]; [congruence | assumption].
      * now right.
Qed.

Lemma colorMap_get (l : list DirectusAwardRecord) (m : JsMap.t) (c : str) :
  JsMap.get c (fold_left count_color l m)
  = match JsMap.get c m with
    | Some v => Some (v + occurrences c l)
    | None => if occurrences c l =? 0 then None else Some (occurrences c l)
    end.
Proof.
  revert m. induction l as [|award l IH]; intros m.
  - cbn. destruct (JsMap.get c m); [f_equal; lia | reflexivity].
  - cbn [fold_left]. rewrite IH. unfold count_color.
    rewrite JsMap_get_set. unfold occurrences. cbn [filter].
    destruct (Js.eqb c (categoryColor_of award)) eqn:E.
    + apply eqb_true_iff in E. subst c.
      destruct (JsMap.get (categoryColor_of award) m); cbn; f_equal; lia.
    + destruct (JsMap.get c m); reflexivity.
Qed.

Lemma colorMap_NoDup (l : list DirectusAwardRecord) (m : JsMap.t) :
  NoDup (map fst m) -> NoDup (map fst (fold_left count_color l m)).
Proof.
  revert m. induction l as [|award l IH]; intros m Hm; [assumption|].
  cbn [fold_left]. apply IH. now apply JsMap_set_NoDup.
Qed.

Lemma occurrences_perm (c : str) (l1 l2 : list DirectusAwardRecord) :
  Permutation l1 l2 -> occurrences c l1 = occurrences c l2.
Proof.
  unfold occurrences. induction 1; cbn [filter].
  - reflexivity.
  - destruct (Js.eqb c (categoryColor_of x)); cbn; congruence.
  - destruct (Js.eqb c (categoryColor_of x)), (Js.eqb c (categoryColor_of y));
      reflexivity.
  - congruence.
Qed.

Lemma filter_perm {A} (f : A -> bool) (l1 l2 : list A) :
  Permutation l1 l2 -> Permutation (filter f l1) (filter f l2).
Proof.
  induction 1; cbn [filter].
  - constructor.
  - destruct (f x); [now constructor | assumption].
  - destruct (f x), (f y); try reflexivity. apply perm_swap.
  - etransitivity; eassumption.
Qed.

(** The entries of the color map: one per color that occurs, carrying
    the number of its occurrences. *)
Lemma colorMap_entries (l : list DirectusAwardRecord) (c : str) (n : nat) :
  In (c, n) (fold_left count_color l []) <-> n = occurrences c l /\ 1 <= n.
Proof.
  rewrite JsMap_get_In by (apply colorMap_NoDup; constructor).
  rewrite colorMap_get. cbn [JsMap.get].
  destruct (Nat.eqb_spec (occurrences c l) 0) as [E|E]; split.
  - discriminate.
  - intros [-> H]. lia.
  - intros H. injection H as <-. lia.
  - intros [-> _]. reflexivity.
Qed.

Lemma colorMap_step_sum (m : JsMap.t) (k : str) :
  list_sum (map snd (JsMap.set k (nullish (JsMap.get k m) 0 + 1) m))
  = list_sum (map snd m) + 1.
Proof.
  induction m as [|[k' v'] m IH]; [reflexivity|].
  cbn [JsMap.get JsMap.set]. destruct (Js.eqb k k').
  - cbn. lia.
  - change (v' + list_sum (map snd (JsMap.set k (nullish (JsMap.get k m) 0 + 1) m))
            = v' + list_sum (map snd m) + 1).
    rewrite IH. lia.
Qed.


Lemma filter_filter {A} (f g : A -> bool) (l : list A) :
  filter g (filter f l) = filter (fun a => f a && g a) l.
Proof.
  induction l as [|a l IH]; [reflexivity|].
  cbn [filter]. destruct (f a); cbn [filter andb]; [|assumption].
  destruct (g a); now rewrite IH.
Qed.

(** Sorting two arrangements of the same awards. *)
Section OrderFacts.

Context {A : Type} (key : A -> Z).

Lemma descending_keys (l : list A) :
  descending key l -> StronglySorted Z.ge (map key l).
Proof.
  unfold descending. induction 1 as [|a l Hs IH Ha]; cbn [map].
  - constructor.
  - constructor; [assumption|].
    apply Forall_forall. intros k Hk.
    apply in_map_iff in Hk. destruct Hk as (b & <- & Hb).
    rewrite Forall_forall in Ha. specialize (Ha b Hb). lia.
Qed.

Lemma sorted_keys_unique (k1 k2 : list Z) :
  StronglySorted Z.ge k1 -> StronglySorted Z.ge k2 ->
  Permutation k1 k2 -> k1 = k2.
Proof.
  revert k2. induction k1 as [|x k1 IH]; intros k2 H1 H2 Hp.
  - apply Permutation_nil in Hp. now subst.
  - destruct k2 as [|y k2].
    + apply Permutation_sym, Permutation_nil in Hp. discriminate.
    + apply StronglySorted_inv in H1. destruct H1 as [H1 Hx].
      apply StronglySorted_inv in H2. destruct H2 as [H2 Hy].
      rewrite Forall_forall in Hx, Hy.
      assert (Hxy : x = y).
      { assert (Hy_in : In y (x :: k1)).
        { eapply Permutation_in;
            [apply Permutation_sym; exact Hp | now left]. }
        assert (Hx_in : In x (y :: k2)).
        { eapply Permutation_in; [exact Hp | now left]. }
        destruct Hy_in as [? | Hy_in]; [assumption|].
        destruct Hx_in as [? | Hx_in]; [congruence|].
        specialize (Hx y Hy_in). specialize (Hy x Hx_in). lia. }
      subst y. f_equal. apply IH; try assumption.
      eapply Permutation_cons_inv. exact Hp.
Qed.

Lemma sorted_keys_agree (l1 l2 : list A) :
  Permutation l1 l2 ->
  map key (Array_sort (by_key key) l1) = map key (Array_sort (by_key key) l2).
Proof.
  intros Hp. apply sorted_keys_unique.
  - apply descending_keys, Array_sort_descending.
  - apply descending_keys, Array_sort_descending.
  - apply Permutation_map.
    rewrite (Array_sort_perm key l1), (Array_sort_perm key l2). exact Hp.
Qed.

Lemma aligned_firstn (P : A -> Prop) (n : nat) (l1 l2 : list A) :
  map key l1 = map key l2 ->
  Forall P l1 -> Forall P l2 ->
  Forall2 (fun a b => P a /\ P b /\ key a = key b) (firstn n l1) (firstn n l2).
Proof.
  revert l1 l2. induction n as [|n IH]; intros l1 l2 Hk H1 H2.
  - constructor.
  - destruct l1 as [|a l1], l2 as [|b l2]; try discriminate; cbn [firstn].
    + constructor.
    + injection Hk as Hab Hk.
      inversion H1; inversion H2; subst.
      constructor; [tauto | now apply IH].
Qed.

(** The first [n] awards of two sorted arrangements agree position by
    position up to awards of equal key. *)
Lemma top_aligned (n : nat) (l1 l2 : list A) :
  Permutation l1 l2 ->
  Forall2 (fun a b => In a l1 /\ In b l1 /\ key a = key b)
    (slice0 n (Array_sort (by_key key) l1))
    (slice0 n (Array_sort (by_key key) l2)).
Proof.
  intros Hp. unfold slice0.
  apply (aligned_firstn (P := fun a => In a l1)).
  - now apply sorted_keys_agree.
  - apply Forall_forall. intros a Ha.
    eapply Permutation_in; [apply Array_sort_perm | exact Ha].
  - apply Forall_forall. intros a Ha.
    eapply Permutation_in; [apply Permutation_sym; exact Hp|].
    eapply Permutation_in; [apply Array_sort_perm | exact Ha].
Qed.

Lemma key_injective_on (l : list A) (a b : A) :
  NoDup (map key l) -> In a l -> In b l -> key a = key b -> a = b.
Proof.
  induction l as [|x l IH]; cbn [map]; intros Hnd Ha Hb Hk; [destruct Ha|].
  inversion Hnd as [|? ? Hx Hl]; subst.
  destruct Ha as [-> | Ha], Hb as [-> | Hb].
  - reflexivity.
  - exfalso. apply Hx. rewrite Hk. now apply in_map.
  - exfalso. apply Hx. rewrite <- Hk. now apply in_map.
  - now apply IH.
Qed.

End OrderFacts.

Lemma Forall2_map_both {A B C D} (R : C -> D -> Prop) (f : A -> C) (g : B -> D)
  (l1 : list A) (l2 : list B) :
  Forall2 (fun a b => R (f a) (g b)) l1 l2 -> Forall2 R (map f l1) (map g l2).
Proof. induction 1; cbn [map]; constructor; assumption. Qed.

Lemma Forall2_eq {A} (l1 l2 : list A) : Forall2 eq l1 l2 -> l1 = l2.
Proof. induction 1; congruence. Qed.

Lemma fold_compare_approved (parse : str -> option Z) :
  compare_approved parse
  = by_key (fun a => parsed_or_zero parse (approved_display_time a)).
Proof. reflexivity. Qed.

Lemma fold_compare_pending (parse : str -> option Z) :
  compare_pending parse
  = by_key (fun a => parsed_or_zero parse (submitted_at a)).
Proof. reflexivity. Qed.

Lemma JsSet_size_perm (l1 l2 : list str) :
  Permutation l1 l2 ->
  JsSet.size (JsSet.of_array l1) = JsSet.size (JsSet.of_array l2).
Proof.
  intros Hp. unfold JsSet.size. apply Permutation_length.
  destruct (JsSet_of_array_spec l1) as [Hn1 Hi1].
  destruct (JsSet_of_array_spec l2) as [Hn2 Hi2].
  apply NoDup_Permutation; try assumption.
  intros y. rewrite Hi1, Hi2. split; intros Hy.
  - eapply Permutation_in; [exact Hp | exact Hy].
  - eapply Permutation_in; [apply Permutation_sym; exact Hp | exact Hy].
Qed.

Section CeremonyProperties.

Variable parse_date_string : str -> option Z.

Local Abbreviation summary := (buildCeremonySummary parse_date_string).

(** C2. [individualsAwarded] counts the distinct non-empty formatted
    participant names among approved awards of individual type, and
    [teamsAwarded] the distinct non-empty team-nominee names among all
    approved awards, whatever their type; both by name string. *)
Theorem distinct_names_awarded (awards : list DirectusAwardRecord) :
  (exists names,
      NoDup names /\
      (forall n, In n names <->
                 n <> [] /\
                 exists award,
                   In award awards /\ status award = approved /\
                   type award = Some individual /\
                   formatPersonName (participant_nominee award) = n) /\
      individualsAwarded (metrics (summary awards)) = List.length names) /\
  (exists names,
      NoDup names /\
      (forall n, In n names <->
                 n <> [] /\
                 exists award,
                   In award awards /\ status award = approved /\
                   team_nominee_name award = Some n) /\
      teamsAwarded (metrics (summary awards)) = List.length names).
Proof.
  split.
  - match goal with
    | |- context [individualsAwarded (metrics (summary awards))] =>
        change (individualsAwarded (metrics (summary awards)))
          with (List.length
                  (JsSet.of_array
                     (filter Js.nonempty
                        (map (fun award =>
                                formatPersonName (participant_nominee award))
                           (filter (fun award => is_individual (type award))
                              (filter is_approved awards))))))
    end.
    eexists. split; [apply JsSet_of_array_spec|]. split; [|reflexivity].
    intros n. rewrite (proj2 (JsSet_of_array_spec _)).
    rewrite filter_In, in_map_iff, nonempty_true_iff. split.
    + intros [(award & <- & Hin) Hne]. split; [assumption|].
      apply filter_In in Hin. destruct Hin as [Hin Hi].
      apply filter_In in Hin. destruct Hin as [Hin Ha].
      exists award. repeat split; try assumption.
      * now apply is_status_true_iff.
      * now apply is_individual_true_iff.
    + intros [Hne (award & Hin & Hs & Ht & <-)]. split; [|assumption].
      exists award. split; [reflexivity|].
      apply filter_In. split; [|now apply is_individual_true_iff].
      apply filter_In. split; [assumption|]. now apply is_status_true_iff.
  - match goal with
    | |- context [teamsAwarded (metrics (summary awards))] =>
        change (teamsAwarded (metrics (summary awards)))
          with (List.length
                  (JsSet.of_array
                     (filter Js.nonempty
                        (map (fun award => nullish (team_nominee_name award) [])
                           (filter (fun award =>
                                      Js.truthy (team_nominee_name award))
                              (filter is_approved awards))))))
    end.
    eexists. split; [apply JsSet_of_array_spec|]. split; [|reflexivity].
    intros n. rewrite (proj2 (JsSet_of_array_spec _)).
    rewrite filter_In, in_map_iff, nonempty_true_iff. split.
    + intros [(award & <- & Hin) Hne]. split; [assumption|].
      apply filter_In in Hin. destruct Hin as [Hin Hi].
      apply filter_In in Hin. destruct Hin as [Hin Ha].
      exists award. repeat split; try assumption.
      * now apply is_status_true_iff.
      * destruct (team_nominee_name award); [reflexivity | discriminate].
    + intros [Hne (award & Hin & Hs & Ht)]. split; [|assumption].
      exists award. rewrite Ht. split; [reflexivity|].
      apply filter_In. split.
      * apply filter_In. split; [assumption|]. now apply is_status_true_iff.
      * rewrite Ht. now apply nonempty_true_iff.
Qed.


(** The timestamp an approved award is sorted and displayed by. *)
Local Abbreviation approved_key :=
  (fun award => parsed_or_zero parse_date_string (approved_display_time award)).

Local Abbreviation pending_key :=
  (fun award => parsed_or_zero parse_date_string (submitted_at award)).

(** C3. [latestApproved] holds the first five approved awards in
    descending order of the timestamp [approved_at], else
    [submitted_at], a missing or unparsable date counting as 0; awards
    with equal timestamps keep their input order.  Each entry carries
    the award id, the category name and color with their defaults, the
    status, the type, the nominee label, that same timestamp, the
    submitter name with its default, and the ceremony id. *)
Theorem latestApproved_top5 (awards : list DirectusAwardRecord) :
  (exists sorted,
      Permutation sorted (filter is_approved awards) /\
      descending approved_key sorted /\
      (forall k, filter (with_key approved_key k) sorted
                 = filter (with_key approved_key k) (filter is_approved awards)) /\
      latestApproved (summary awards) = map approved_entry (firstn 5 sorted)) /\
  (forall award,
      (forall d, approved_at award = Some d ->
                 approved_display_time award = Some d) /\
      (approved_at award = None ->
       approved_display_time award = submitted_at award) /\
      (approved_display_time award = None -> approved_key award = 0%Z) /\
      (forall d, approved_display_time award = Some d ->
                 Date_parse parse_date_string d = None ->
                 approved_key award = 0%Z) /\
      (forall d t, approved_display_time award = Some d ->
                   Date_parse parse_date_string d = Some t ->
                   approved_key award = t)) /\
  (forall award,
      let entry := approved_entry award in
      ae_id entry = id award /\
      (forall c n, category award = Some c -> category_name c = Some n ->
                   ae_categoryName entry = n) /\
      (category award = None \/
       (exists c, category award = Some c /\ category_name c = None) ->
       ae_categoryName entry = lit "Unknown category") /\
      (forall c n, category award = Some c -> category_color c = Some n ->
                   ae_categoryColor entry = n) /\
      (category award = None \/
       (exists c, category award = Some c /\ category_color c = None) ->
       ae_categoryColor entry = lit "gray") /\
      ae_status entry = status award /\
      ae_type entry = type award /\
      ae_nominee entry = getNomineeLabel award /\
      ae_submittedAt entry = approved_display_time award /\
      (formatPersonName (submitted_by award) <> [] ->
       ae_submittedBy entry = formatPersonName (submitted_by award)) /\
      (formatPersonName (submitted_by award) = [] ->
       ae_submittedBy entry = lit "Unknown referee") /\
      ae_ceremonyId entry = ceremony award).
Proof.
  split; [|split].
  - exists (Array_sort (compare_approved parse_date_string)
              (filter is_approved awards)).
    rewrite fold_compare_approved. repeat split.
    + apply Array_sort_perm.
    + apply Array_sort_descending.
    + intros k. apply Array_sort_stable.
  - intros award. unfold approved_display_time, parsed_or_zero.
    repeat split.
    + intros d ->. reflexivity.
    + intros ->. reflexivity.
    + intros ->. reflexivity.
    + intros d -> Hd. cbn [nullish]. now rewrite Hd.
    + intros d t -> Hd. cbn [nullish]. now rewrite Hd.
  - intros award. cbn zeta. unfold approved_entry.
    cbn [ae_id ae_categoryName ae_categoryColor ae_status ae_type ae_nominee
         ae_submittedAt ae_submittedBy ae_ceremonyId].
    unfold categoryName_of, categoryColor_of, submittedBy_of.
    repeat split.
    + intros c n -> ->. reflexivity.
    + intros [-> | (c & -> & ->)]; reflexivity.
    + intros c n -> ->. reflexivity.
    + intros [-> | (c & -> & ->)]; reflexivity.
    + intros Hn. now apply or_else_nonempty.
    + intros ->. reflexivity.
Qed.

(** Sorting is by the number parsed: a date before 1970 parses below
    0 and so comes after an award with no date. *)
Example latestApproved_before_epoch :
  map ae_id
    (latestApproved
       (buildCeremonySummary Samples.parse_date_string
          [Samples.a7; Samples.a3; Samples.a2; Samples.a1]))
  = [1; 2; 3; 7]%Z.
Proof. reflexivity. Qed.

(** C3, as worded.  Of four approved awards the one without any date
    is listed ahead of the one approved in 1969: an award without a
    usable date is not the oldest once a date lies before the epoch. *)
Lemma latestApproved_undated_not_oldest :
  latestApproved
    (buildCeremonySummary Samples.parse_date_string
       [Samples.a7; Samples.a3; Samples.a2; Samples.a1])
  = map approved_entry [Samples.a1; Samples.a2; Samples.a3; Samples.a7] /\
  undated Samples.parse_date_string (approved_entry Samples.a3) /\
  ~ undated Samples.parse_date_string (approved_entry Samples.a7) /\
  ~ undated_oldest Samples.parse_date_string
      (latestApproved
         (buildCeremonySummary Samples.parse_date_string
            [Samples.a7; Samples.a3; Samples.a2; Samples.a1])).
Proof.
  assert (Hlisted :
            latestApproved
              (buildCeremonySummary Samples.parse_date_string
                 [Samples.a7; Samples.a3; Samples.a2; Samples.a1])
            = map approved_entry [Samples.a1; Samples.a2]
              ++ approved_entry Samples.a3 :: [approved_entry Samples.a7])
    by reflexivity.
  assert (Hdated : ~ undated Samples.parse_date_string
                       (approved_entry Samples.a7)).
  { intros H. vm_compute in H. discriminate. }
  split; [reflexivity|]. split; [reflexivity|]. split; [exact Hdated|].
  intros Holdest.
  specialize (Holdest _ _ _ Hlisted eq_refl).
  inversion Holdest as [|entry rest Hentry Hrest]. now apply Hdated.
Qed.

(** C6. The summary does not depend on the order of the awards: for
    two arrangements of the same awards the metrics are equal, the
    color breakdowns hold the same entries, and the latest-approved and
    latest-pending lists agree position by position up to the choice
    among awards of equal sort timestamp; where no two such awards
    share a timestamp the lists are equal. *)
Theorem summary_order_independent (l1 l2 : list DirectusAwardRecord) :
  Permutation l1 l2 ->
  metrics (summary l1) = metrics (summary l2) /\
  Forall2 (fun e1 e2 =>
             exists a b,
               (In a l1 /\ status a = approved) /\
               (In b l1 /\ status b = approved) /\
               approved_key a = approved_key b /\
               e1 = approved_entry a /\ e2 = approved_entry b)
    (latestApproved (summary l1)) (latestApproved (summary l2)) /\
  (NoDup (map approved_key (filter is_approved l1)) ->
   latestApproved (summary l1) = latestApproved (summary l2)) /\
  Forall2 (fun e1 e2 =>
             exists a b,
               (In a l1 /\ status a = pending) /\
               (In b l1 /\ status b = pending) /\
               pending_key a = pending_key b /\
               e1 = latest_pending_entry a /\ e2 = latest_pending_entry b)
    (latestPending (summary l1)) (latestPending (summary l2)) /\
  (NoDup (map pending_key (filter is_pending l1)) ->
   latestPending (summary l1) = latestPending (summary l2)) /\
  Permutation (colorBreakdown (summary l1)) (colorBreakdown (summary l2)).
Proof.
  intros Hp.
  assert (Ha : Permutation (filter is_approved l1) (filter is_approved l2))
    by now apply filter_perm.
  assert (Hq : Permutation (filter is_pending l1) (filter is_pending l2))
    by now apply filter_perm.
  assert (Hin_a : forall a, In a (filter is_approved l1) ->
                            In a l1 /\ status a = approved).
  { intros a H. apply filter_In in H. destruct H as [H Hs].
    split; [assumption | now apply is_status_true_iff]. }
  assert (Hin_p : forall a, In a (filter is_pending l1) ->
                            In a l1 /\ status a = pending).
  { intros a H. apply filter_In in H. destruct H as [H Hs].
    split; [assumption | now apply is_status_true_iff]. }
  unfold buildCeremonySummary.
  cbn [metrics latestApproved latestPending colorBreakdown].
  rewrite fold_compare_approved, fold_compare_pending.
  split; [|split; [|split; [|split; [|split]]]].
  - f_equal.
    + now apply Permutation_length.
    + now apply Permutation_length.
    + apply JsSet_size_perm.
      apply filter_perm, Permutation_map, filter_perm, Ha.
    + apply JsSet_size_perm.
      apply filter_perm, Permutation_map, filter_perm, Ha.
  - apply Forall2_map_both.
    eapply Forall2_impl; [|apply (top_aligned approved_key 5 Ha)].
    intros a b (Hai & Hbi & Hk). exists a, b. auto 6.
  - intros Hnd. f_equal. apply Forall2_eq.
    eapply Forall2_impl; [|apply (top_aligned approved_key 5 Ha)].
    intros a b (Hai & Hbi & Hk).
    now apply (key_injective_on approved_key (filter is_approved l1)).
  - apply Forall2_map_both.
    eapply Forall2_impl; [|apply (top_aligned pending_key 5 Hq)].
    intros a b (Hai & Hbi & Hk). exists a, b. auto 6.
  - intros Hnd. f_equal. apply Forall2_eq.
    eapply Forall2_impl; [|apply (top_aligned pending_key 5 Hq)].
    intros a b (Hai & Hbi & Hk).
    now apply (key_injective_on pending_key (filter is_pending l1)).
  - unfold JsMap.entries.
    assert (Hinj : forall m : JsMap.t,
               NoDup (map fst m) ->
               NoDup (map (fun '(color, count) =>
                             {| color := color; count := count |}) m)).
    { intros m Hm. apply (NoDup_map_inv color).
      rewrite map_map.
      erewrite map_ext; [exact Hm|]. now intros [c n]. }
    apply NoDup_Permutation.
    + apply Hinj, colorMap_NoDup. constructor.
    + apply Hinj, colorMap_NoDup. constructor.
    + intros entry. rewrite !in_map_iff. split.
      * intros ([c n] & <- & Hcn). exists (c, n). split; [reflexivity|].
        apply colorMap_entries. apply colorMap_entries in Hcn.
        now rewrite <- (occurrences_perm c Ha).
      * intros ([c n] & <- & Hcn). exists (c, n). split; [reflexivity|].
        apply colorMap_entries. apply colorMap_entries in Hcn.
        now rewrite (occurrences_perm c Ha).
Qed.

(** Two undated approved awards swap places with the input. *)
Example tie_follows_input_order :
  map ae_id
    (latestApproved
       (buildCeremonySummary Samples.parse_date_string [Samples.a3; Samples.a2]))
  = [2; 3]%Z /\
  map ae_id
    (latestApproved
       (buildCeremonySummary Samples.parse_date_string
          [Samples.a3; Samples.award 9 approved None None None None None None]))
  = [3; 9]%Z /\
  map ae_id
    (latestApproved
       (buildCeremonySummary Samples.parse_date_string
          [Samples.award 9 approved None None None None None None; Samples.a3]))
  = [9; 3]%Z.
Proof. repeat split; reflexivity. Qed.

End CeremonyProperties.

(** ** Writes to the store *)

Lemma run_bind_ret {S A B} (store : S -> Request -> S * option Response)
  (p : Exec A) (f : A -> B) (s : S) :
  run store s (bind p (fun a => Ret (f a)))
  = (fst (run store s p),
     match snd (run store s p) with
     | inl a => inl (f a)
     | inr e => inr e
     end).
Proof.
  revert s. induction p as [a | e | rq k IH]; intros s; try reflexivity.
  cbn [bind run]. destruct (store s rq) as [s' r]. rewrite IH.
  destruct (run store s' (k r)). reflexivity.
Qed.

Lemma run_try_catch_ret {S A} (store : S -> Request -> S * option Response)
  (p : Exec A) (fallback : A) (s : S) :
  run store s (try_catch p (fun _ => Ret fallback))
  = (fst (run store s p),
     match snd (run store s p) with
     | inl a => inl a
     | inr _ => inl fallback
     end).
Proof.
  revert s. induction p as [a | e | rq k IH]; intros s; try reflexivity.
  cbn [try_catch run]. destruct (store s rq) as [s' r]. rewrite IH.
  destruct (run store s' (k r)). reflexivity.
Qed.

Lemma run_bind_settled {S A B} (store : S -> Request -> S * option Response)
  (p : Exec A) (f : A -> Exec B) (s : S) :
  (forall a, settled (f a)) ->
  run store s (bind p f)
  = (fst (run store s p),
     match snd (run store s p) with
     | inl a => snd (run store s (f a))
     | inr e => inr e
     end).
Proof.
  intros Hf. revert s. induction p as [a | e | rq k IH]; intros s.
  - cbn [bind run fst snd]. specialize (Hf a).
    destruct (f a); [reflexivity | reflexivity | contradiction].
  - reflexivity.
  - cbn [bind run]. destruct (store s rq) as [s' r]. rewrite IH.
    destruct (run store s' (k r)) as [sent outcome]. cbn [fst snd].
    destruct outcome as [a | e]; [|reflexivity].
    specialize (Hf a). destruct (f a); [reflexivity | reflexivity | contradiction].
Qed.

Lemma NextResponse_json_settled (value : option Js.json) (code : Z) :
  settled (NextResponse_json value code).
Proof. destruct value; exact I. Qed.

(** The [try]/[catch] of a route handler: the requests are those of
    the call in the [try]; the answer is the success response when the
    call returns a value, and the fallback when it throws or returns
    [undefined]. *)
Lemma try_answer_run {S} (store : S -> Request -> S * option Response)
  (p : Exec (option Js.json)) (code : Z) (fallback : HttpResponse) (s : S) :
  run store s
    (try_catch (bind p (fun award => NextResponse_json award code))
       (fun _ => Ret fallback))
  = (fst (run store s p),
     inl match snd (run store s p) with
         | inl (Some award) => {| http_code := code; http_json := award |}
         | _ => fallback
         end).
Proof.
  rewrite run_try_catch_ret.
  rewrite (run_bind_settled store p _ s
             (fun award => NextResponse_json_settled award code)).
  cbn [fst snd].
  destruct (snd (run store s p)) as [[award|]|e]; reflexivity.
Qed.

(** One call of the fetcher sends at most one request, carrying the
    method and body it was given. *)
Lemma directusFetch_sends {S} (store : S -> Request -> S * option Response)
  (config : Config) (path : str) (init : RequestInit) (s : S) :
  let sent := fst (run store s
                     (bind (directusFetch config path init) data_of)) in
  (configured config = true -> exists rq, sent = [rq]) /\
  (configured config = false -> sent = []) /\
  (forall rq, In rq sent ->
              req_method rq = init_method init /\
              req_body rq = init_body init).
Proof.
  unfold configured, directusFetch, getDirectusBaseUrl, getDirectusHeaders.
  destruct (DIRECTUS_URL config) as [url|]; cbn [Js.truthy];
    [destruct (Js.nonempty url)|]; cbn [andb bind run fst];
    try (split; [discriminate | split; [reflexivity | intros ? []]]).
  destruct (DIRECTUS_STATIC_TOKEN config) as [token|]; cbn [Js.truthy];
    [destruct (Js.nonempty token)|]; cbn [andb bind run fst];
    try (split; [discriminate | split; [reflexivity | intros ? []]]).
  match goal with
  | |- context [store s ?r] => set (rq := r); destruct (store s rq) as [s' out]
  end.
  assert (Hsent : forall p : Exec (option Js.json),
             (exists e, p = Throw e) \/ (exists v, p = Ret v) ->
             fst (let (sent, outcome) := run store s' p in
                  (rq :: sent, outcome)) = [rq]).
  { intros p [(e & ->) | (v & ->)]; reflexivity. }
  rewrite Hsent.
  - split; [intros _; now exists rq|]. split; [discriminate|].
    intros r [<- | []]. split; reflexivity.
  - destruct out as [response|]; [|left; eexists; reflexivity].
    destruct (resp_ok response); [|left; eexists; reflexivity].
    destruct (resp_json response) as [value|];
      [|left; eexists; reflexivity].
    cbn [bind]. destruct value; cbn [data_of];
      solve [left; eexists; reflexivity | right; eexists; reflexivity].
Qed.

Section WriteProperties.

Variable Number_toString : Z -> str.
Variable config : Config.

(** C1. Whatever the store holds for the award, and so from each of
    the three previous statuses, [updateAwardStatus] sends at most one
    request, a PATCH whose payload names the target status and whose
    [approved_at] is the current timestamp, a string and so not null,
    exactly when the target status is approved, and null otherwise.
    With the connection configured the request is sent. *)
Theorem updateAwardStatus_approved_at {S}
  (store : S -> Request -> S * option Response) (s : S)
  (now : str) (awardId : Z) (target : Status) :
  let sent :=
    fst (run store s (updateAwardStatus Number_toString config now awardId target)) in
  (configured config = true -> exists rq, sent = [rq]) /\
  (forall rq,
      In rq sent ->
      req_method rq = Some (lit "PATCH") /\
      exists payload,
        req_body rq = Some (Js.JObj payload) /\
        Js.get (lit "status") payload = Some (Js.JStr (status_string target)) /\
        (target = approved ->
         Js.get (lit "approved_at") payload = Some (Js.JStr now)) /\
        (target <> approved ->
         Js.get (lit "approved_at") payload = Some Js.JNull) /\
        (Js.get (lit "approved_at") payload <> Some Js.JNull <->
         target = approved)).
Proof.
  cbn zeta. unfold updateAwardStatus.
  destruct (directusFetch_sends store config
              (lit "items/awards/" ++ Number_toString awardId)
              {| init_method := Some (lit "PATCH");
                 init_body :=
                   Some (Js.JObj (updateAwardStatus_payload now target)) |} s)
    as (Hone & _ & Hall).
  split; [exact Hone|].
  intros rq Hin. destruct (Hall rq Hin) as [Hm Hb]. cbn in Hm, Hb.
  split; [exact Hm|].
  exists (updateAwardStatus_payload now target). split; [exact Hb|].
  destruct target; cbn; repeat split; try congruence; intros; exfalso; auto.
Qed.

(** The request sent for each of the three target statuses. *)
Example updateAwardStatus_three_targets :
  map (fun target =>
         map req_body
           (fst (run Samples.echo_store tt
                   (updateAwardStatus Samples.Number_toString Samples.config
                      Samples.now 7 target))))
    [pending; approved; rejected]
  = [[Some (Js.JObj [(lit "status", Js.JStr (lit "pending"));
                     (lit "approved_at", Js.JNull)])];
     [Some (Js.JObj [(lit "status", Js.JStr (lit "approved"));
                     (lit "approved_at", Js.JStr Samples.now)])];
     [Some (Js.JObj [(lit "status", Js.JStr (lit "rejected"));
                     (lit "approved_at", Js.JNull)])]].
Proof. reflexivity. Qed.

Lemma trim_nonempty (s : str) : Js.trim s <> [] -> s <> [].
Proof. intros H ->. now apply H. Qed.

(** C8. The payload [createAward] sends has status pending when the
    input gives none, [submitted_at] set to the current time, no
    [approved_at] property at all, and a [notes] property exactly when
    the input notes are non-empty after trimming. *)
Theorem createAward_payload_fields {S}
  (store : S -> Request -> S * option Response) (s : S)
  (now : str) (input : CreateAwardInput) :
  let payload := createAward_payload now input in
  let sent := fst (run store s (createAward config now input)) in
  (configured config = true -> exists rq, sent = [rq]) /\
  (forall rq, In rq sent ->
              req_method rq = Some (lit "POST") /\
              req_body rq = Some (Js.JObj payload)) /\
  (ci_status input = None ->
   Js.get (lit "status") payload = Some (Js.JStr (lit "pending"))) /\
  (forall given, ci_status input = Some given ->
                 Js.get (lit "status") payload
                 = Some (Js.JStr (status_string given))) /\
  Js.get (lit "submitted_at") payload = Some (Js.JStr now) /\
  Js.has (lit "approved_at") payload = false /\
  (Js.has (lit "notes") payload = true <->
   exists notes, ci_notes input = Some notes /\ Js.trim notes <> []) /\
  (forall notes, ci_notes input = Some notes -> Js.trim notes <> [] ->
                 Js.get (lit "notes") payload = Some (Js.JStr notes)).
Proof.
  cbn zeta. unfold createAward.
  destruct (directusFetch_sends store config (lit "items/awards")
              {| init_method := Some (lit "POST");
                 init_body := Some (Js.JObj (createAward_payload now input)) |} s)
    as (Hone & _ & Hall).
  split; [exact Hone|]. split; [exact Hall|].
  unfold createAward_payload, Js.has.
  destruct (ci_notes input) as [notes|] eqn:En.
  - destruct (Js.nonempty notes && Js.nonempty (Js.trim notes)) eqn:Ek.
    + apply andb_prop in Ek. destruct Ek as [_ Ek].
      apply nonempty_true_iff in Ek.
      repeat split; try reflexivity.
      * intros ->. reflexivity.
      * intros given ->. reflexivity.
      * intros _. now exists notes.
      * intros n Hn _. injection Hn as <-. reflexivity.
    + assert (Ht : Js.trim notes = []).
      { apply andb_false_iff in Ek. destruct Ek as [Ek | Ek].
        - apply nonempty_false_iff in Ek. now subst.
        - now apply nonempty_false_iff. }
      repeat split; try reflexivity.
      * intros ->. reflexivity.
      * intros given ->. reflexivity.
      * discriminate.
      * intros (n & Hn & Hne). injection Hn as <-. contradiction.
      * intros n Hn Hne. injection Hn as <-. contradiction.
  - repeat split; try reflexivity.
    + intros ->. reflexivity.
    + intros given ->. reflexivity.
    + discriminate.
    + intros (n & Hn & _). discriminate.
    + intros n Hn. discriminate.
Qed.

(** Notes of blanks only are left out; other notes go out untrimmed. *)
Example createAward_notes :
  let input notes :=
    {| ci_category := 2; ci_ceremony := 1;
       ci_type := Js.JStr (lit "team");
       ci_participant_nominee := None; ci_team_nominee := Some 10%Z;
       ci_notes := notes; ci_status := None |} in
  Js.get (lit "notes") (createAward_payload Samples.now (input (Some (lit "  "))))
  = None /\
  Js.get (lit "notes") (createAward_payload Samples.now (input (Some (lit " ok "))))
  = Some (Js.JStr (lit " ok ")).
Proof. split; reflexivity. Qed.

Lemma truthy_number_None (v : option Z) :
  truthy_number v = None <-> unusable_id v.
Proof.
  unfold unusable_id. destruct v as [n|]; cbn.
  - destruct (Z.eqb_spec n 0); split.
    + intros _. right. now subst.
    + reflexivity.
    + discriminate.
    + intros [H | H]; congruence.
  - split; [now left | reflexivity].
Qed.

Lemma truthy_number_Some (v : option Z) (n : Z) :
  truthy_number v = Some n -> v = Some n /\ ~ unusable_id v.
Proof.
  intros H. assert (Hv : v = Some n).
  { destruct v as [m|]; cbn in H; [|discriminate].
    destruct (m =? 0)%Z; congruence. }
  split; [assumption|].
  intros Hu. apply truthy_number_None in Hu. congruence.
Qed.

Lemma truthy_value_None (v : option Js.json) :
  truthy_value v = None <-> unusable_type v.
Proof.
  unfold unusable_type.
  destruct v as [[ |[]|n|[|c t]|items|fields]|]; cbn;
    try (split; [intros _; tauto | reflexivity]);
    try (split; [discriminate
                | intros [H | [H | [H | [H | H]]]]; discriminate]).
  destruct (Z.eqb_spec n 0) as [-> | Hn].
  - split; [intros _; tauto | reflexivity].
  - split; [discriminate|].
    intros [H | [H | [H | [H | H]]]]; congruence.
Qed.

Lemma truthy_value_Some (v : option Js.json) (t : Js.json) :
  truthy_value v = Some t -> v = Some t /\ ~ unusable_type v.
Proof.
  intros H. assert (Hv : v = Some t).
  { destruct v as [[ |[]|n|[|c u]|items|fields]|]; cbn in H;
      try discriminate; try assumption.
    destruct (n =? 0)%Z; [discriminate | assumption]. }
  split; [assumption|].
  intros Hu. apply truthy_value_None in Hu. congruence.
Qed.

Lemma is_individual_value_iff (t : Js.json) :
  is_individual_value t = true <-> t = Js.JStr (lit "individual").
Proof.
  destruct t; cbn [is_individual_value]; try (split; discriminate).
  rewrite eqb_true_iff. split; congruence.
Qed.

Lemma POST_cases (now : str) (body : Js.object) :
  (validation_failure body /\
   exists message,
     POST_answer Number_toString config now body
     = Ret (message_response 400 message)) \/
  (~ validation_failure body /\
   exists input,
     forwarded Number_toString body input /\
     POST_answer Number_toString config now body
     = create_and_answer config now input).
Proof.
  unfold POST_answer, validation_failure.
  destruct (truthy_number (ceremonyId_of body)) as [ceremony|] eqn:Ec;
    [|left; split; [left; now apply truthy_number_None
                   | eexists; reflexivity]].
  destruct (truthy_number (categoryId_of body)) as [category|] eqn:Ek;
    [|left; split; [right; left; now apply truthy_number_None
                   | eexists; reflexivity]].
  destruct (truthy_value (type_of body)) as [ty|] eqn:Et;
    [|left; split; [right; right; left; now apply truthy_value_None
                   | eexists; reflexivity]].
  apply truthy_number_Some in Ec. destruct Ec as [Ec Hc].
  apply truthy_number_Some in Ek. destruct Ek as [Ek Hk].
  apply truthy_value_Some in Et. destruct Et as [Et Ht].
  destruct (is_individual_value ty) eqn:Ei.
  - apply is_individual_value_iff in Ei. subst ty.
    destruct (truthy_number (participantId_of body)) as [p|] eqn:Ep.
    + apply truthy_number_Some in Ep. destruct Ep as [Ep Hp].
      right. split.
      * intros [H | [H | [H | [[_ H] | [H _]]]]]; auto.
      * eexists. split; [|reflexivity].
        unfold forwarded, type_is. cbn. repeat split; auto; try tauto.
    + left. split; [|eexists; reflexivity].
      right; right; right; left. split; [exact Et|].
      now apply truthy_number_None.
  - assert (Hni : ~ type_is body "individual").
    { unfold type_is. intros H. rewrite H in Et. injection Et as <-.
      rewrite (proj2 (is_individual_value_iff _) eq_refl) in Ei.
      discriminate. }
    destruct (truthy_number (teamId_of body)) as [tm|] eqn:Em.
    + apply truthy_number_Some in Em. destruct Em as [Em Hm].
      right. split.
      * intros [H | [H | [H | [[H _] | [_ H]]]]]; auto.
      * eexists. split; [|reflexivity].
        unfold forwarded. cbn. repeat split; auto; try tauto.
    + left. split; [|eexists; reflexivity].
      right; right; right; right. split; [exact Hni|].
      now apply truthy_number_None.
Qed.

(** A body that is JSON and not null is read as its properties. *)
Lemma POST_readable (now : str) (parsed : Js.json) :
  parsed <> Js.JNull ->
  POST Number_toString config now (Some parsed)
  = POST_answer Number_toString config now (fields_of parsed).
Proof. destruct parsed; [contradiction | reflexivity ..]. Qed.

(** C4, as the handler applies the rule.  On a request whose body is
    JSON other than null, read as its properties: the request is
    answered 400, with no request sent to the store, exactly when
    validation fails, that is when the ceremony id, the category id or
    the type is not given (an id that is no number or is 0, a type that
    is absent or falsy), or the type is individual without a usable
    participant id, or the type is anything else without a usable team
    id.  A request that passes is forwarded to [createAward]: the
    handler sends what that call sends, and answers 201 with the record
    it returns, or 500 when it throws or returns no record. *)
Theorem POST_validation {S}
  (store : S -> Request -> S * option Response) (s : S)
  (now : str) (parsed : Js.json) :
  parsed <> Js.JNull ->
  let body := fields_of parsed in
  let handled := run store s (POST Number_toString config now (Some parsed)) in
  (validation_failure body ->
   fst handled = [] /\
   exists message, snd handled = inl (message_response 400 message)) /\
  (~ validation_failure body ->
   exists input,
     forwarded Number_toString body input /\
     let create := run store s (createAward config now input) in
     fst handled = fst create /\
     (forall award,
         snd create = inl (Some award) ->
         snd handled = inl {| http_code := 201; http_json := award |}) /\
     (snd create = inl None ->
      snd handled = inl (message_response 500 "Failed to create award.")) /\
     (forall e,
         snd create = inr e ->
         snd handled = inl (message_response 500 "Failed to create award."))) /\
  (exists response,
      snd handled = inl response /\
      (http_code response = 400%Z <-> validation_failure body)).
Proof.
  intros Hparsed. cbn zeta. rewrite (POST_readable now Hparsed).
  destruct (POST_cases now (fields_of parsed))
    as [[Hv (message & ->)] | [Hv (input & Hf & ->)]].
  - cbn [run fst snd]. split; [|split].
    + intros _. split; [reflexivity | now exists message].
    + intros Hn. contradiction.
    + eexists. split; [reflexivity|]. cbn. tauto.
  - unfold create_and_answer. rewrite try_answer_run.
    cbn [fst snd]. split; [|split].
    + intros H. contradiction.
    + intros _. exists input.
      split; [exact Hf|]. split; [reflexivity|]. split; [|split].
      * intros award ->. reflexivity.
      * intros ->. reflexivity.
      * intros e ->. reflexivity.
    + eexists. split; [reflexivity|].
      destruct (snd (run store s (createAward config now input)))
        as [[award|]|e]; cbn; split; try discriminate;
        intros H; contradiction.
Qed.

End WriteProperties.

(** The nine transitions against a store that applies the update: the
    record that comes back has the current timestamp when the target is
    approved and null otherwise, whatever the status before. *)
Example updateAwardStatus_nine_transitions :
  forall from target,
    snd (run Samples.award_store (Samples.held_in from)
           (updateAwardStatus Samples.Number_toString Samples.config
              Samples.now 7 target))
    = inl (Some (Js.JObj
                   [(lit "id", Js.JNum 7);
                    (lit "status", Js.JStr (status_string target));
                    (lit "approved_at",
                     match target with
                     | approved => Js.JStr Samples.now
                     | _ => Js.JNull
                     end)])).
Proof. intros [] []; reflexivity. Qed.

(** C4, as worded.  Three requests are answered 400 without a store
    call although none of the stated grounds applies to them: one of a
    type that is none of the three kinds and names no team, one that
    gives the ceremony id as 0, and one whose type is the empty string.
    A request whose body is null lacks every id, a stated ground, and is
    not answered 400: the handler throws. *)
Lemma POST_departs_from_stated_rule :
  (run Samples.echo_store tt
     (POST Samples.Number_toString Samples.config Samples.now
        (Some (Js.JObj Samples.odd_type_request)))
   = ([], inl (message_response 400
                 "Team or overall award requires a team nominee.")) /\
   ~ stated_rejection Samples.odd_type_request) /\
  (run Samples.echo_store tt
     (POST Samples.Number_toString Samples.config Samples.now
        (Some (Js.JObj Samples.zero_id_request)))
   = ([], inl (message_response 400
                 "Missing ceremony, category, or type information.")) /\
   ~ stated_rejection Samples.zero_id_request) /\
  (run Samples.echo_store tt
     (POST Samples.Number_toString Samples.config Samples.now
        (Some (Js.JObj Samples.blank_type_request)))
   = ([], inl (message_response 400
                 "Missing ceremony, category, or type information.")) /\
   ~ stated_rejection Samples.blank_type_request) /\
  (stated_rejection (fields_of Js.JNull) /\
   run Samples.echo_store tt
     (POST Samples.Number_toString Samples.config Samples.now (Some Js.JNull))
   = ([], inr TypeError)).
Proof.
  split; [|split; [|split]].
  - split; [reflexivity|].
    unfold stated_rejection, type_is.
    intros [H | [H | [[H | H] | [[H _] | [[H | H] _]]]]]; discriminate.
  - split; [reflexivity|].
    unfold stated_rejection, type_is.
    intros [H | [H | [[H | H] | [[H _] | [_ H]]]]]; discriminate.
  - split; [reflexivity|].
    unfold stated_rejection, type_is.
    intros [H | [H | [[H | H] | [[H _] | [_ H]]]]]; discriminate.
  - split; [left; reflexivity | reflexivity].
Qed.

(** The handler on the sample requests: created, store failure, an
    answer without a record, validation failures, and bodies it cannot
    read. *)
Example POST_three_outcomes :
  let code {S} (store : S -> Request -> S * option Response) (s : S) body :=
    match snd (run store s
                 (POST Samples.Number_toString Samples.config Samples.now body))
    with
    | inl response => inl (http_code response)
    | inr e => inr e
    end in
  code Samples.echo_store tt (Some (Js.JObj Samples.team_request)) = inl 201%Z /\
  code Samples.failing_store tt (Some (Js.JObj Samples.team_request))
  = inl 500%Z /\
  code Samples.bare_store tt (Some (Js.JObj Samples.team_request))
  = inl 500%Z /\
  code Samples.echo_store tt (Some (Js.JObj Samples.odd_type_request))
  = inl 400%Z /\
  code Samples.echo_store tt (Some (Js.JObj Samples.zero_id_request))
  = inl 400%Z /\
  code Samples.echo_store tt (Some (Js.JArr [])) = inl 400%Z /\
  code Samples.echo_store tt (Some Js.JNull) = inr TypeError /\
  code Samples.echo_store tt None = inr BodyNotJson.
Proof. repeat split; reflexivity. Qed.

(** A request that names a team on a body that is an object. *)
Lemma POST_validation_witness :
  Js.JObj Samples.team_request <> Js.JNull /\
  exists response,
    snd (run Samples.echo_store tt
           (POST Samples.Number_toString Samples.config Samples.now
              (Some (Js.JObj Samples.team_request))))
    = inl response /\
    (http_code response = 400%Z <->
     validation_failure (fields_of (Js.JObj Samples.team_request))).
Proof.
  assert (H : Js.JObj Samples.team_request <> Js.JNull) by discriminate.
  split; [exact H|].
  exact (proj2 (proj2 (POST_validation Samples.Number_toString Samples.config
                         Samples.echo_store tt Samples.now H))).
Defined.

(** The sample awards and their reversal yield the same metrics. *)
Lemma summary_order_independent_witness :
  Permutation Samples.awards (rev Samples.awards) /\
  metrics (buildCeremonySummary Samples.parse_date_string Samples.awards)
  = metrics (buildCeremonySummary Samples.parse_date_string
               (rev Samples.awards)).
Proof.
  split.
  - apply Permutation_rev.
  - exact (proj1 (summary_order_independent Samples.parse_date_string
                    (Permutation_rev Samples.awards))).
Defined.

(** * Further properties *)

(** ** Maps and sets keyed by number *)

Lemma fold_left_prefix_inv {A B} (f : B -> A -> B) (Inv : list A -> B -> Prop)
  (l : list A) (b0 : B) :
  Inv [] b0 ->
  (forall pre a b, Inv pre b -> Inv (pre ++ [a]) (f b a)) ->
  Inv l (fold_left f l b0).
Proof.
  intros H0 Hstep.
  assert (G : forall pre b, Inv pre b -> Inv (pre ++ l) (fold_left f l b)).
  { induction l as [|a l IH]; intros pre b Hb; cbn [fold_left].
    - now rewrite app_nil_r.
    - replace (pre ++ a :: l) with ((pre ++ [a]) ++ l)
        by (rewrite <- app_assoc; reflexivity).
      apply IH, Hstep, Hb. }
  exact (G [] b0 H0).
Qed.

Section IdMapFacts.

Context {V : Type}.

Lemma IdMap_get_set (c k : Z) (v : V) (m : IdMap.t V) :
  IdMap.get c (IdMap.set k v m)
  = if (c =? k)%Z then Some v else IdMap.get c m.
Proof.
  induction m as [|[k' v'] m IH]; cbn [IdMap.get IdMap.set].
  - reflexivity.
  - destruct (Z.eqb_spec k k') as [-> | Hk]; cbn [IdMap.get].
    + destruct (c =? k')%Z; reflexivity.
    + rewrite IH. destruct (Z.eqb_spec c k') as [-> | Hc]; [|reflexivity].
      destruct (Z.eqb_spec k' k); [congruence | reflexivity].
Qed.

Lemma IdMap_keys_set (k : Z) (v : V) (m : IdMap.t V) :
  IdMap.keys (IdMap.set k v m) = IdSet.add k (IdMap.keys m).
Proof.
  unfold IdSet.add, IdSet.has, IdMap.keys.
  induction m as [|[k' v'] m IH]; [reflexivity|].
  simpl. destruct (k =? k')%Z; simpl; [reflexivity|].
  rewrite IH. now destruct (existsb (Z.eqb k) (map fst m)).
Qed.

Lemma IdMap_get_In (m : IdMap.t V) (k : Z) (v : V) :
  NoDup (IdMap.keys m) -> (In (k, v) m <-> IdMap.get k m = Some v).
Proof.
  unfold IdMap.keys.
  induction m as [|[k' v'] m IH]; cbn [IdMap.get map fst In]; intros Hnd.
  - split; [easy | discriminate].
  - inversion Hnd as [|? ? Hk Hm]; subst.
    destruct (Z.eqb_spec k k') as [-> | Hne].
    + split.
      * intros [H | H]; [congruence|].
        exfalso. apply Hk. change k' with (fst (k', v)). now apply in_map.
      * intros H. left. congruence.
    + rewrite <- (IH Hm). split.
      * intros [H | H]; [congruence | assumption].
      * now right.
Qed.

Lemma IdMap_get_keys (m : IdMap.t V) (k : Z) :
  In k (IdMap.keys m) <-> exists v, IdMap.get k m = Some v.
Proof.
  unfold IdMap.keys.
  induction m as [|[k' v'] m IH]; cbn [IdMap.get map fst In].
  - split; [easy | intros [v H]; discriminate].
  - destruct (Z.eqb_spec k k') as [-> | Hne].
    + split; [intros _; now exists v' | now left].
    + rewrite <- IH. split; [intros [H | H]; [congruence | assumption]
                            | now right].
Qed.

End IdMapFacts.

Lemma IdSet_has_In (x : Z) (s : IdSet.t) : IdSet.has x s = true <-> In x s.
Proof.
  unfold IdSet.has. rewrite existsb_exists. split.
  - intros (y & Hy & E). apply Z.eqb_eq in E. now subst.
  - intros H. exists x. split; [assumption | apply Z.eqb_refl].
Qed.

Lemma IdSet_add_In (x y : Z) (s : IdSet.t) :
  In y (IdSet.add x s) <-> In y s \/ y = x.
Proof.
  unfold IdSet.add. destruct (IdSet.has x s) eqn:E.
  - apply IdSet_has_In in E. split; [now left|].
    intros [H | ->]; assumption.
  - rewrite in_app_iff. simpl. intuition.
Qed.

Lemma IdSet_add_NoDup (x : Z) (s : IdSet.t) : NoDup s -> NoDup (IdSet.add x s).
Proof.
  intros Hs. unfold IdSet.add. destruct (IdSet.has x s) eqn:E; [assumption|].
  assert (Hx : ~ In x s).
  { intros Hin. apply IdSet_has_In in Hin. congruence. }
  clear E. induction s as [|y s IH]; simpl.
  - constructor; [easy | constructor].
  - inversion Hs as [|? ? Hy Hs']; subst.
    constructor.
    + rewrite in_app_iff. simpl. intros [H | [H | []]]; [contradiction|].
      apply Hx. now left.
    + apply IH; [assumption|]. intros H. apply Hx. now right.
Qed.

Lemma IdSet_add_size (x : Z) (s : IdSet.t) :
  IdSet.size s <= IdSet.size (IdSet.add x s) <= S (IdSet.size s).
Proof.
  unfold IdSet.size, IdSet.add. destruct (IdSet.has x s).
  - lia.
  - rewrite length_app. simpl. lia.
Qed.

Lemma IdMap_set_NoDup {V} (k : Z) (v : V) (m : IdMap.t V) :
  NoDup (IdMap.keys m) -> NoDup (IdMap.keys (IdMap.set k v m)).
Proof. intros H. rewrite IdMap_keys_set. now apply IdSet_add_NoDup. Qed.

Lemma IdMap_set_keys_In {V} (c k : Z) (v : V) (m : IdMap.t V) :
  In c (IdMap.keys (IdMap.set k v m)) <-> In c (IdMap.keys m) \/ c = k.
Proof. rewrite IdMap_keys_set. apply IdSet_add_In. Qed.

(** Seeding a map from a list of records. *)
Lemma seed_spec {P V} (key : P -> Z) (value : P -> V) (ps : list P)
  (m0 : IdMap.t V) :
  let m := fold_left (fun m p => IdMap.set (key p) (value p) m) ps m0 in
  NoDup (IdMap.keys m0) ->
  NoDup (IdMap.keys m) /\
  (forall k, In k (IdMap.keys m) <-> In k (IdMap.keys m0) \/ In k (map key ps)) /\
  (forall k e, IdMap.get k m = Some e ->
               IdMap.get k m0 = Some e \/
               exists p, In p ps /\ key p = k /\ e = value p).
Proof.
  cbn zeta. revert m0. induction ps as [|p ps IH]; intros m0 Hnd; cbn [fold_left].
  - split; [assumption|]. split; [intros k; cbn; tauto | intros k e H; now left].
  - destruct (IH (IdMap.set (key p) (value p) m0) (IdMap_set_NoDup _ _ _ Hnd))
      as (Hn & Hk & Hg).
    split; [assumption|]. split.
    + intros k. rewrite Hk, IdMap_set_keys_In. cbn [map In].
      split; [intros [[H | H] | H] | intros [H | [H | H]]]; auto.
    + intros k e H. destruct (Hg k e H) as [H0 | (q & Hq & Hkq & He)].
      * rewrite IdMap_get_set in H0.
        destruct (Z.eqb_spec k (key p)) as [-> | Hne]; [|now left].
        right. exists p. split; [now left|]. split; [reflexivity | congruence].
      * right. exists q. split; [now right | tauto].
Qed.

(** ** The accumulation loop *)

Lemma credited_snoc (k : Z) (l : list DirectusAwardRecord)
  (a : DirectusAwardRecord) :
  credited k (l ++ [a])
  = credited k l + (if credits_participant k a then 1 else 0).
Proof.
  unfold credited. rewrite filter_app, length_app. cbn [filter].
  now destruct (credits_participant k a).
Qed.

Lemma team_credited_snoc (k : Z) (l : list DirectusAwardRecord)
  (a : DirectusAwardRecord) :
  team_credited k (l ++ [a])
  = team_credited k l + (if credits_team k a then 1 else 0).
Proof.
  unfold team_credited. rewrite filter_app, length_app. cbn [filter].
  now destruct (credits_team k a).
Qed.

Lemma bump_sum (c : str) (m : JsMap.t) :
  list_sum (map snd (bump c m)) = list_sum (map snd m) + 1.
Proof. apply colorMap_step_sum. Qed.

Section LoopFacts.

Variable participants : list ParticipantRecord.
Variable teams_given : list TeamRecord.

Lemma participants_seeded :
  participants_after participants [] (seed_participants participants).
Proof.
  unfold participants_after, seed_participants.
  destruct (seed_spec pr_id
              (fun p => {| pacc_record := Some p; pacc_total := 0;
                           pacc_colors := [] |})
              participants [] (NoDup_nil Z)) as (Hn & Hk & Hg).
  split; [exact Hn|]. split.
  - intros k. rewrite Hk. cbn. split; [intros [[] | H]; now left|].
    intros [H | H]; [now right | lia].
  - intros k e H. destruct (Hg k e H) as [H0 | (p & Hp & Hkp & ->)];
      [discriminate|].
    cbn. split; [reflexivity|]. split; [reflexivity|].
    split; [|discriminate].
    intros r Hr. injection Hr as <-. tauto.
Qed.

Lemma participants_credit (pre : list DirectusAwardRecord)
  (a : DirectusAwardRecord) (m : IdMap.t ParticipantAccumulator) :
  participants_after participants pre m ->
  participants_after participants (pre ++ [a])
    (match individual_branch a with
     | Some pid => credit_participant pid (categoryColor_of a) m
     | None => m
     end).
Proof.
  intros (Hn & Hk & He). unfold participants_after.
  assert (Hc : forall k, credited k (pre ++ [a])
                         = credited k pre
                           + (if credits_participant k a then 1 else 0))
    by (intros; apply credited_snoc).
  unfold credits_participant in Hc.
  destruct (individual_branch a) as [pid|].
  - assert (Hkeys : forall k,
               In k (IdMap.keys (credit_participant pid (categoryColor_of a) m))
               <-> In k (IdMap.keys m) \/ k = pid).
    { intros k. unfold credit_participant.
      destruct (IdMap.get pid m); apply IdMap_set_keys_In. }
    split; [|split].
    + unfold credit_participant.
      destruct (IdMap.get pid m); now apply IdMap_set_NoDup.
    + intros k. rewrite Hkeys, Hk, Hc.
      destruct (Z.eqb_spec pid k) as [-> | Hne].
      * split; [intros _; right; lia | intros _; now right].
      * split; [intros [[H | H] | H]; [now left | right; lia | congruence]
               | intros [H | H]; [left; now left | left; right; lia]].
    + intros k e. rewrite Hc. unfold credit_participant.
      destruct (IdMap.get pid m) as [old|] eqn:Eold; rewrite IdMap_get_set;
        destruct (Z.eqb_spec k pid) as [-> | Hne];
        rewrite ?Z.eqb_refl.
      * intros H. injection H as <-. cbn.
        destruct (He pid old Eold) as (Ht & Hs & Hr & Hz).
        rewrite bump_sum. split; [lia|]. split; [lia|].
        split; [exact Hr|].
        intros Hnone. destruct (Hz Hnone). split; [lia | assumption].
      * intros H. destruct (Z.eqb_spec pid k); [congruence|].
        rewrite Nat.add_0_r. now apply He.
      * intros H. injection H as <-. cbn.
        assert (Hz : credited pid pre = 0).
        { destruct (Nat.eq_dec (credited pid pre) 0) as [|Hpos];
            [assumption|].
          assert (Hin : In pid (IdMap.keys m)) by (apply Hk; right; lia).
          apply IdMap_get_keys in Hin. destruct Hin as [v Hv]. congruence. }
        rewrite Hz. split; [lia|]. split; [reflexivity|].
        split; [discriminate|]. intros _. split; [lia|].
        intros Hin.
        assert (Hkey : In pid (IdMap.keys m)) by (apply Hk; now left).
        apply IdMap_get_keys in Hkey. destruct Hkey as [v Hv]. congruence.
      * intros H. destruct (Z.eqb_spec pid k); [congruence|].
        rewrite Nat.add_0_r. now apply He.
  - split; [assumption|]. split.
    + intros k. rewrite Hk, Hc, Nat.add_0_r. reflexivity.
    + intros k e H. rewrite Hc, Nat.add_0_r. now apply He.
Qed.

Lemma filter_snoc {A} (f : A -> bool) (l : list A) (a : A) :
  filter f (l ++ [a]) = filter f l ++ (if f a then [a] else []).
Proof. rewrite filter_app. cbn [filter]. now destruct (f a). Qed.

Lemma IdSet_add_nonempty (x : Z) (s : IdSet.t) : IdSet.add x s <> [].
Proof.
  unfold IdSet.add. destruct (IdSet.has x s) eqn:E.
  - apply IdSet_has_In in E. intros ->. destruct E.
  - destruct s; discriminate.
Qed.

Lemma teams_seeded : teams_after teams_given [] (seed_teams teams_given).
Proof.
  unfold teams_after, seed_teams.
  destruct (seed_spec tr_id
              (fun team => {| tacc_record := Some team; tacc_teamAwardCount := 0;
                              tacc_colors := [];
                              tacc_participantsRecognized := [];
                              tacc_teamAwards := [];
                              tacc_individualAwards := [] |})
              teams_given [] (NoDup_nil Z)) as (Hn & Hk & Hg).
  split; [exact Hn|]. split.
  - intros k [H | H]; [apply Hk; now right | cbn in H; lia].
  - intros k e H. destruct (Hg k e H) as [H0 | (p & Hp & Hkp & ->)];
      [discriminate|].
    cbn. split; [reflexivity|]. split; [reflexivity|]. split; [reflexivity|].
    split; [constructor|]. split; [constructor|]. split; [lia|].
    split; [tauto|]. split; [|discriminate].
    intros r Hr. injection Hr as <-. tauto.
Qed.

(** A team created on the fly is not among the supplied ones, so its
    lookup in the supplied list finds nothing. *)
Lemma teams_after_unknown (pre : list DirectusAwardRecord)
  (m : IdMap.t TeamAccumulator) (tid : Z) :
  teams_after teams_given pre m -> IdMap.get tid m = None ->
  ~ In tid (map tr_id teams_given) /\ find_team teams_given tid = None.
Proof.
  intros (_ & Hk & _) Hnone.
  assert (Hnot : ~ In tid (map tr_id teams_given)).
  { intros Hin.
    assert (Hkey : In tid (IdMap.keys m)) by (apply Hk; now left).
    apply IdMap_get_keys in Hkey. destruct Hkey as [v Hv]. congruence. }
  split; [assumption|].
  unfold find_team.
  destruct (find (fun team => (tr_id team =? tid)%Z) teams_given) as [r|] eqn:E;
    [|reflexivity].
  apply find_some in E. destruct E as [Hin Heq]. apply Z.eqb_eq in Heq.
  exfalso. apply Hnot. rewrite <- Heq. now apply in_map.
Qed.

(** A key the team map lacks has no team award so far. *)
Lemma teams_after_absent (pre : list DirectusAwardRecord)
  (m : IdMap.t TeamAccumulator) (tid : Z) :
  teams_after teams_given pre m -> IdMap.get tid m = None ->
  filter (credits_team tid) pre = [].
Proof.
  intros (_ & Hk & _) Hnone.
  destruct (filter (credits_team tid) pre) as [|x rest] eqn:E; [reflexivity|].
  assert (Hin : In tid (IdMap.keys m)).
  { apply Hk. right. unfold team_credited. rewrite E. cbn. lia. }
  apply IdMap_get_keys in Hin. destruct Hin as [v Hv]. congruence.
Qed.

Lemma teams_recognize (pre : list DirectusAwardRecord)
  (a : DirectusAwardRecord) (m : IdMap.t TeamAccumulator) (tid pid : Z) :
  team_branch a = None ->
  teams_after teams_given pre m ->
  teams_after teams_given (pre ++ [a]) (recognize teams_given tid pid a m).
Proof.
  intros Hb Hinv. pose proof Hinv as (Hn & Hk & He).
  assert (Hf : forall k, filter (credits_team k) (pre ++ [a])
                         = filter (credits_team k) pre).
  { intros k. rewrite filter_snoc. unfold credits_team. rewrite Hb.
    apply app_nil_r. }
  assert (Hc : forall k, team_credited k (pre ++ [a]) = team_credited k pre).
  { intros k. unfold team_credited. now rewrite Hf. }
  unfold teams_after.
  split; [|split].
  - unfold recognize. destruct (IdMap.get tid m); now apply IdMap_set_NoDup.
  - intros k Hin. rewrite Hc in Hin.
    unfold recognize.
    destruct (IdMap.get tid m); apply IdMap_set_keys_In; left; now apply Hk.
  - intros k e. rewrite Hc, Hf. unfold recognize.
    destruct (IdMap.get tid m) as [old|] eqn:Eold; rewrite IdMap_get_set;
      destruct (Z.eqb_spec k tid) as [-> | Hne]; try (now apply He).
    + intros H. injection H as <-. cbn.
      destruct (He tid old Eold)
        as (Ht & Ha & Hs & Hki & Hnd & Hsz & Hiff & Hrec).
      split; [assumption|]. split; [assumption|]. split; [assumption|].
      split; [apply Forall_app; split; [assumption | now repeat constructor]|].
      split; [now apply IdSet_add_NoDup|].
      split.
      * rewrite length_app. cbn.
        pose proof (IdSet_add_size pid (tacc_participantsRecognized old)).
        unfold IdSet.size in *. lia.
      * split; [|exact Hrec].
        split; intros H.
        -- destruct (tacc_individualAwards old); discriminate.
        -- now apply IdSet_add_nonempty in H.
    + intros H. injection H as <-. cbn.
      pose proof (teams_after_absent tid Hinv Eold) as Hnil.
      destruct (teams_after_unknown tid Hinv Eold) as [Hnot Hfind].
      unfold team_credited. rewrite Hnil, Hfind.
      split; [reflexivity|]. split; [reflexivity|]. split; [reflexivity|].
      split; [now repeat constructor|].
      split; [constructor; [easy | constructor]|].
      split; [lia|]. split; [split; discriminate|].
      split; [discriminate | intros _; exact Hnot].
Qed.

Lemma teams_credit (pre : list DirectusAwardRecord)
  (a : DirectusAwardRecord) (m : IdMap.t TeamAccumulator) (tid : Z) :
  team_branch a = Some tid ->
  teams_after teams_given pre m ->
  teams_after teams_given (pre ++ [a]) (credit_team teams_given tid a m).
Proof.
  intros Hb Hinv. pose proof Hinv as (Hn & Hk & He).
  assert (Hf : forall k, filter (credits_team k) (pre ++ [a])
                         = filter (credits_team k) pre
                           ++ (if (tid =? k)%Z then [a] else [])).
  { intros k. rewrite filter_snoc. unfold credits_team. now rewrite Hb. }
  assert (Hc : forall k, team_credited k (pre ++ [a])
                         = team_credited k pre
                           + (if (tid =? k)%Z then 1 else 0)).
  { intros k. unfold team_credited. rewrite Hf, length_app.
    now destruct (tid =? k)%Z. }
  unfold teams_after.
  split; [|split].
  - unfold credit_team. destruct (IdMap.get tid m); now apply IdMap_set_NoDup.
  - intros k Hin. rewrite Hc in Hin.
    assert (Hkey : In k (IdMap.keys (credit_team teams_given tid a m))
                   <-> In k (IdMap.keys m) \/ k = tid).
    { unfold credit_team. destruct (IdMap.get tid m); apply IdMap_set_keys_In. }
    apply Hkey. destruct (Z.eqb_spec tid k) as [-> | Hne]; [now right|].
    left. apply Hk. rewrite Nat.add_0_r in Hin. exact Hin.
  - intros k e. rewrite Hc, Hf. unfold credit_team.
    destruct (IdMap.get tid m) as [old|] eqn:Eold; rewrite IdMap_get_set;
      destruct (Z.eqb_spec k tid) as [-> | Hne]; rewrite ?Z.eqb_refl.
    + intros H. injection H as <-. cbn.
      destruct (He tid old Eold) as (Ht & Ha & Hs & Hrest).
      split; [lia|]. split; [rewrite map_app, Ha; reflexivity|].
      split; [rewrite bump_sum; lia | exact Hrest].
    + destruct (Z.eqb_spec tid k); [congruence|].
      rewrite Nat.add_0_r, app_nil_r. now apply He.
    + intros H. injection H as <-. cbn.
      pose proof (teams_after_absent tid Hinv Eold) as Hnil.
      destruct (teams_after_unknown tid Hinv Eold) as [Hnot Hfind].
      unfold team_credited. rewrite Hnil, Hfind.
      split; [reflexivity|]. split; [reflexivity|]. split; [reflexivity|].
      split; [constructor|]. split; [constructor|]. split; [lia|].
      split; [tauto|]. split; [discriminate | intros _; exact Hnot].
    + destruct (Z.eqb_spec tid k); [congruence|].
      rewrite Nat.add_0_r, app_nil_r. now apply He.
Qed.

Lemma teams_untouched (pre : list DirectusAwardRecord)
  (a : DirectusAwardRecord) (m : IdMap.t TeamAccumulator) :
  team_branch a = None ->
  teams_after teams_given pre m -> teams_after teams_given (pre ++ [a]) m.
Proof.
  intros Hb (Hn & Hk & He).
  assert (Hf : forall k, filter (credits_team k) (pre ++ [a])
                         = filter (credits_team k) pre).
  { intros k. rewrite filter_snoc. unfold credits_team. rewrite Hb.
    apply app_nil_r. }
  unfold teams_after, team_credited in *.
  split; [assumption|]. split.
  - intros k. rewrite Hf. apply Hk.
  - intros k e. rewrite Hf. apply He.
Qed.

(** One iteration keeps both maps in step with the awards seen. *)
Lemma accumulate_keeps (pre : list DirectusAwardRecord)
  (a : DirectusAwardRecord)
  (maps : IdMap.t ParticipantAccumulator * IdMap.t TeamAccumulator) :
  participants_after participants pre (fst maps) /\
  teams_after teams_given pre (snd maps) ->
  participants_after participants (pre ++ [a])
    (fst (accumulate participants teams_given maps a)) /\
  teams_after teams_given (pre ++ [a])
    (snd (accumulate participants teams_given maps a)).
Proof.
  destruct maps as [pm tm]. cbn [fst snd]. intros [Hp Ht].
  pose proof (participants_credit a Hp) as Hp'.
  unfold accumulate. unfold team_branch in *.
  assert (Hteam : forall tid,
             individual_branch a = None ->
             truthy_number (team_nominee_id a) = tid -> team_branch a = tid).
  { intros tid Hi Htid. unfold team_branch. now rewrite Hi. }
  destruct (individual_branch a) as [pid|] eqn:Ei; cbn [fst snd].
  - split; [exact Hp'|].
    assert (Hb : team_branch a = None) by (unfold team_branch; now rewrite Ei).
    destruct (truthy_number (team_of_participant participants pid pm)).
    + now apply teams_recognize.
    + now apply teams_untouched.
  - destruct (truthy_number (team_nominee_id a)) as [tid|] eqn:Et; cbn [fst snd].
    + split; [exact Hp'|]. apply teams_credit; [|assumption].
      unfold team_branch. now rewrite Ei.
    + split; [exact Hp'|]. apply teams_untouched; [|assumption].
      unfold team_branch. now rewrite Ei.
Qed.

(** Both maps after the whole loop. *)
Lemma loop_result (l : list DirectusAwardRecord) :
  let maps := fold_left (accumulate participants teams_given) l
                (seed_participants participants, seed_teams teams_given) in
  participants_after participants l (fst maps) /\
  teams_after teams_given l (snd maps).
Proof.
  cbn zeta.
  apply (fold_left_prefix_inv (accumulate participants teams_given)
           (fun pre maps =>
              participants_after participants pre (fst maps) /\
              teams_after teams_given pre (snd maps))).
  - split; [apply participants_seeded | apply teams_seeded].
  - intros pre a maps H. now apply accumulate_keeps.
Qed.

End LoopFacts.

(** ** The participant and team summary *)

Lemma sort_insert_perm_any {A} (compare : A -> A -> Z) (x : A) (l : list A) :
  Permutation (sort_insert compare x l) (x :: l).
Proof.
  induction l as [|y l IH]; simpl; [reflexivity|].
  destruct (compare x y <=? 0)%Z; [reflexivity|].
  rewrite IH. apply perm_swap.
Qed.

(** Sorting rearranges, whatever the comparator. *)
Lemma Array_sort_perm_any {A} (compare : A -> A -> Z) (l : list A) :
  Permutation (Array_sort compare l) l.
Proof.
  induction l as [|x l IH]; simpl; [reflexivity|].
  rewrite sort_insert_perm_any. now constructor.
Qed.

Lemma NoDup_keys_filter {V} (f : Z * V -> bool) (m : IdMap.t V) :
  NoDup (IdMap.keys m) -> NoDup (IdMap.keys (filter f m)).
Proof.
  unfold IdMap.keys. induction m as [|[k v] m IH]; cbn [filter map fst];
    intros Hnd; [constructor|].
  inversion Hnd as [|? ? Hk Hm]; subst.
  destruct (f (k, v)); cbn [map fst]; [|now apply IH].
  constructor; [|now apply IH].
  intros Hin. apply Hk. apply in_map_iff in Hin.
  destruct Hin as ([k' v'] & Hfst & Hin). cbn in Hfst. subst k'.
  apply filter_In in Hin. destruct Hin as [Hin _].
  change k with (fst (k, v')). now apply in_map.
Qed.

Lemma credited_positive (k : Z) (l : list DirectusAwardRecord) :
  0 < credited k l <->
  exists award, In award l /\ individual_branch award = Some k.
Proof.
  unfold credited. split.
  - intros H. destruct (filter (credits_participant k) l) as [|a rest] eqn:E;
      [cbn in H; lia|].
    assert (Ha : In a (filter (credits_participant k) l))
      by (rewrite E; now left).
    apply filter_In in Ha. destruct Ha as [Ha Hc]. exists a. split; [assumption|].
    unfold credits_participant in Hc.
    destruct (individual_branch a) as [p|]; [|discriminate].
    apply Z.eqb_eq in Hc. now subst.
  - intros (a & Ha & Hb).
    assert (Hin : In a (filter (credits_participant k) l)).
    { apply filter_In. split; [assumption|].
      unfold credits_participant. rewrite Hb. apply Z.eqb_refl. }
    destruct (filter (credits_participant k) l); [destruct Hin | cbn; lia].
Qed.

Lemma team_credited_positive (k : Z) (l : list DirectusAwardRecord) :
  0 < team_credited k l <->
  exists award, In award l /\ team_branch award = Some k.
Proof.
  unfold team_credited. split.
  - intros H. destruct (filter (credits_team k) l) as [|a rest] eqn:E;
      [cbn in H; lia|].
    assert (Ha : In a (filter (credits_team k) l)) by (rewrite E; now left).
    apply filter_In in Ha. destruct Ha as [Ha Hc]. exists a. split; [assumption|].
    unfold credits_team in Hc.
    destruct (team_branch a) as [p|]; [|discriminate].
    apply Z.eqb_eq in Hc. now subst.
  - intros (a & Ha & Hb).
    assert (Hin : In a (filter (credits_team k) l)).
    { apply filter_In. split; [assumption|].
      unfold credits_team. rewrite Hb. apply Z.eqb_refl. }
    destruct (filter (credits_team k) l); [destruct Hin | cbn; lia].
Qed.

(** The individual branch, spelled out. *)
Lemma individual_branch_iff (award : DirectusAwardRecord) (k : Z) :
  individual_branch award = Some k <->
  type award = Some individual /\
  participant_nominee_id award = Some k /\ k <> 0%Z.
Proof.
  unfold individual_branch.
  destruct (is_individual (type award)) eqn:Ei.
  - apply is_individual_true_iff in Ei. unfold truthy_number.
    destruct (participant_nominee_id award) as [n|].
    + destruct (Z.eqb_spec n 0); split.
      * discriminate.
      * intros (_ & H & Hk). congruence.
      * intros H. injection H as <-. tauto.
      * intros (_ & H & _). congruence.
    + split; [discriminate | intros (_ & H & _); discriminate].
  - split; [discriminate|]. intros (H & _).
    apply is_individual_true_iff in H. congruence.
Qed.

(** The team branch: taken by an award that does not take the
    individual one and names a team by a non-zero id. *)
Lemma team_branch_iff (award : DirectusAwardRecord) (k : Z) :
  team_branch award = Some k <->
  individual_branch award = None /\
  team_nominee_id award = Some k /\ k <> 0%Z.
Proof.
  unfold team_branch. destruct (individual_branch award) as [p|].
  - split; [discriminate | intros (H & _); discriminate].
  - unfold truthy_number. destruct (team_nominee_id award) as [n|].
    + destruct (Z.eqb_spec n 0); split.
      * discriminate.
      * intros (_ & H & Hk). congruence.
      * intros H. injection H as <-. tauto.
      * intros (_ & H & _). congruence.
    + split; [discriminate | intros (_ & H & _); discriminate].
Qed.

Lemma keys_filter_In {V} (f : Z * V -> bool) (m : IdMap.t V) (k : Z) :
  In k (IdMap.keys (filter f m)) <->
  exists v, In (k, v) m /\ f (k, v) = true.
Proof.
  unfold IdMap.keys. rewrite in_map_iff. split.
  - intros ([k' v] & Hk & Hin). cbn in Hk. subst k'.
    apply filter_In in Hin. now exists v.
  - intros (v & Hin & Hf). exists (k, v). split; [reflexivity|].
    now apply filter_In.
Qed.

Lemma approved_In (awards : list DirectusAwardRecord) (a : DirectusAwardRecord) :
  In a (filter is_approved awards) <-> In a awards /\ status a = approved.
Proof.
  rewrite filter_In. unfold is_approved. now rewrite is_status_true_iff.
Qed.

Lemma StronglySorted_app {A} (R : A -> A -> Prop) (l1 l2 : list A) :
  StronglySorted R (l1 ++ l2) ->
  StronglySorted R l1 /\ forall x y, In x l1 -> In y l2 -> R x y.
Proof.
  induction l1 as [|a l1 IH]; cbn [app]; intros H.
  - split; [constructor | intros x y []].
  - apply StronglySorted_inv in H. destruct H as [H Ha].
    destruct (IH H) as [Hs Hxy]. rewrite Forall_forall in Ha. split.
    + constructor; [assumption|]. apply Forall_forall. intros x Hx.
      apply Ha, in_or_app. now left.
    + intros x y [<- | Hx] Hy; [|now apply Hxy].
      apply Ha, in_or_app. now right.
Qed.

Lemma NoDup_firstn {A} (n : nat) (l : list A) : NoDup l -> NoDup (firstn n l).
Proof.
  intros H. rewrite <- (firstn_skipn n l) in H.
  now apply NoDup_app_remove_r in H.
Qed.

Lemma In_firstn {A} (n : nat) (l : list A) (x : A) :
  In x (firstn n l) -> In x l.
Proof.
  intros H. rewrite <- (firstn_skipn n l). apply in_or_app. now left.
Qed.

Lemma breakdown_sum (colors : JsMap.t) :
  list_sum (map count (breakdown_of colors)) = list_sum (map snd colors).
Proof.
  unfold breakdown_of, JsMap.entries. rewrite map_map. f_equal.
  apply map_ext. now intros [c n].
Qed.

Lemma list_sum_cons (x : nat) (l : list nat) :
  list_sum (x :: l) = x + list_sum l.
Proof. reflexivity. Qed.

Lemma indicator_sum (t : Z) (ids : list Z) :
  NoDup ids ->
  list_sum (map (fun k => if (t =? k)%Z then 1 else 0) ids)
  = if IdSet.has t ids then 1 else 0.
Proof.
  unfold IdSet.has. induction ids as [|k ids IH]; intros Hnd; [reflexivity|].
  inversion Hnd as [|? ? Hk Hids]; subst.
  cbn [map existsb]. rewrite list_sum_cons, (IH Hids).
  destruct (Z.eqb_spec t k) as [-> | Hne]; cbn [orb]; [|reflexivity].
  destruct (existsb (Z.eqb k) ids) eqn:E; [|reflexivity].
  exfalso. apply Hk. apply existsb_exists in E. destruct E as (y & Hy & Ey).
  apply Z.eqb_eq in Ey. now subst.
Qed.

Lemma list_sum_map_add {A} (f g : A -> nat) (l : list A) :
  list_sum (map (fun x => f x + g x) l)
  = list_sum (map f l) + list_sum (map g l).
Proof.
  induction l as [|x l IH]; [reflexivity|].
  cbn [map]. rewrite !list_sum_cons, IH. lia.
Qed.

Lemma list_sum_zero {A} (f : A -> nat) (l : list A) :
  (forall x, f x = 0) -> list_sum (map f l) = 0.
Proof.
  intros Hf. induction l as [|x l IH]; [reflexivity|].
  cbn [map]. rewrite list_sum_cons, IH, Hf. reflexivity.
Qed.

(** The team award counts of a duplicate-free list of ids that covers
    every credited team add up to the awards taking the team branch. *)
Lemma team_credited_sum (ids : list Z) (l : list DirectusAwardRecord) :
  NoDup ids ->
  (forall a t, In a l -> team_branch a = Some t -> In t ids) ->
  list_sum (map (fun k => team_credited k l) ids)
  = List.length
      (filter (fun a => match team_branch a with
                        | Some _ => true
                        | None => false
                        end) l).
Proof.
  intros Hnd. induction l as [|a l IH]; intros Hcover.
  - now apply list_sum_zero.
  - assert (Hstep : forall k, team_credited k (a :: l)
                              = (if credits_team k a then 1 else 0)
                                + team_credited k l).
    { intros k. unfold team_credited. cbn [filter].
      now destruct (credits_team k a). }
    assert (Hind : list_sum (map (fun k => if credits_team k a then 1 else 0) ids)
                   = match team_branch a with
                     | Some t => if IdSet.has t ids then 1 else 0
                     | None => 0
                     end).
    { unfold credits_team. destruct (team_branch a) as [t|].
      - now apply indicator_sum.
      - now apply list_sum_zero. }
    rewrite (map_ext _ _ Hstep), list_sum_map_add, IH, Hind
      by (intros b t Hb; apply Hcover; now right).
    cbn [filter].
    destruct (team_branch a) as [t|] eqn:Et; [|reflexivity].
    assert (Hin : IdSet.has t ids = true).
    { apply IdSet_has_In. apply (Hcover a t); [now left | assumption]. }
    rewrite Hin. reflexivity.
Qed.

(** Crediting a participant leaves every participant's team as it
    was: records are never replaced. *)
Lemma team_of_participant_credit (participants : list ParticipantRecord)
  (k pid : Z) (c : str) (m : IdMap.t ParticipantAccumulator) :
  team_of_participant participants k (credit_participant pid c m)
  = team_of_participant participants k m.
Proof.
  unfold team_of_participant, credit_participant.
  destruct (IdMap.get pid m) as [old|] eqn:Eold; rewrite IdMap_get_set;
    destruct (Z.eqb_spec k pid) as [-> | Hne]; try reflexivity;
    rewrite Eold; reflexivity.
Qed.

Section TeamKeys.

Variable participants : list ParticipantRecord.
Variable teams_given : list TeamRecord.

(** The keys of the team map: the supplied teams, the teams credited
    with a team award, and the teams of recognized participants. *)
Lemma team_keys (l : list DirectusAwardRecord) :
  let maps := fold_left (accumulate participants teams_given) l
                (seed_participants participants, seed_teams teams_given) in
  (forall pid,
      truthy_number (team_of_participant participants pid (fst maps))
      = home_team participants pid) /\
  (forall k,
      In k (IdMap.keys (snd maps)) <->
      In k (map tr_id teams_given) \/ 0 < team_credited k l \/
      exists award, In award l /\ recognizes participants k award).
Proof.
  cbn zeta.
  apply (fold_left_prefix_inv (accumulate participants teams_given)
           (fun pre maps =>
              (forall pid,
                  truthy_number
                    (team_of_participant participants pid (fst maps))
                  = home_team participants pid) /\
              (forall k,
                  In k (IdMap.keys (snd maps)) <->
                  In k (map tr_id teams_given) \/ 0 < team_credited k pre \/
                  exists award, In award pre /\ recognizes participants k award))).
  - split; [reflexivity|]. intros k. cbn [snd].
    destruct (teams_seeded teams_given) as (_ & Hk & _).
    split.
    + intros Hin. left.
      unfold seed_teams in Hin.
      destruct (seed_spec tr_id
                  (fun team => {| tacc_record := Some team;
                                  tacc_teamAwardCount := 0;
                                  tacc_colors := [];
                                  tacc_participantsRecognized := [];
                                  tacc_teamAwards := [];
                                  tacc_individualAwards := [] |})
                  teams_given [] (NoDup_nil Z)) as (_ & Hkeys & _).
      apply Hkeys in Hin. destruct Hin as [[] | Hin]. exact Hin.
    + intros [Hin | [Hin | (a & [] & _)]]; [|cbn in Hin; lia].
      apply Hk. now left.
  - intros pre a [pm tm] [Hhome Hkeys]. cbn [fst snd] in *.
    assert (Hrec : forall k,
               (exists award, In award (pre ++ [a])
                              /\ recognizes participants k award) <->
               (exists award, In award pre /\ recognizes participants k award)
               \/ recognizes participants k a).
    { intros k. split.
      - intros (x & Hx & Hr). apply in_app_or in Hx.
        destruct Hx as [Hx | [<- | []]]; [left; now exists x | now right].
      - intros [(x & Hx & Hr) | Hr].
        + exists x. split; [apply in_or_app; now left | assumption].
        + exists a. split; [apply in_or_app; right; now left | assumption]. }
    assert (Hcr : forall k, team_credited k (pre ++ [a])
                            = team_credited k pre
                              + (if credits_team k a then 1 else 0))
      by (intros; apply team_credited_snoc).
    unfold accumulate.
    destruct (individual_branch a) as [pid|] eqn:Ei; cbn [fst snd].
    + assert (Hnot : forall k, credits_team k a = false).
      { intros k. unfold credits_team, team_branch. now rewrite Ei. }
      split.
      * intros q. rewrite team_of_participant_credit. apply Hhome.
      * intros k. rewrite Hrec, Hcr, Hnot, Nat.add_0_r.
        assert (Hra : recognizes participants k a
                      <-> home_team participants pid = Some k).
        { unfold recognizes. rewrite Ei. split.
          - intros (q & Hq & Hh). now injection Hq as <-.
          - intros Hh. now exists pid. }
        rewrite Hra, <- (Hhome pid).
        destruct (truthy_number (team_of_participant participants pid pm))
          as [tid|] eqn:Et.
        -- assert (Hk : In k (IdMap.keys (recognize teams_given tid pid a tm))
                        <-> In k (IdMap.keys tm) \/ k = tid).
           { unfold recognize.
             destruct (IdMap.get tid tm); apply IdMap_set_keys_In. }
           rewrite Hk, Hkeys.
           assert (Hsame : Some tid = Some k <-> k = tid)
             by (split; congruence).
           tauto.
        -- rewrite Hkeys.
           assert (Hnone : ~ @None Z = Some k) by discriminate.
           tauto.
    + assert (Hno : forall k, ~ recognizes participants k a).
      { intros k. unfold recognizes. rewrite Ei.
        intros (q & Hq & _). discriminate. }
      assert (Hbranch : team_branch a = truthy_number (team_nominee_id a)).
      { unfold team_branch. now rewrite Ei. }
      destruct (truthy_number (team_nominee_id a)) as [tid|] eqn:Et;
        cbn [fst snd].
      * split; [exact Hhome|]. intros k. rewrite Hrec, Hcr.
        assert (Hk : In k (IdMap.keys (credit_team teams_given tid a tm))
                     <-> In k (IdMap.keys tm) \/ k = tid).
        { unfold credit_team.
          destruct (IdMap.get tid tm); apply IdMap_set_keys_In. }
        rewrite Hk, Hkeys. unfold credits_team. rewrite Hbranch.
        specialize (Hno k).
        destruct (Z.eqb_spec tid k) as [-> | Hne].
        -- split; [intros _; right; left; lia | intros _; now right].
        -- rewrite Nat.add_0_r.
           assert (Hdiff : k <> tid) by congruence.
           tauto.
      * split; [exact Hhome|]. intros k. rewrite Hrec, Hcr, Hkeys.
        unfold credits_team. rewrite Hbranch, Nat.add_0_r.
        specialize (Hno k). tauto.
Qed.

End TeamKeys.

Section ParticipantTeamProperties.

Variable parse_date_string : str -> option Z.
Variable localeCompare : str -> str -> Z.
Variable participants : list ParticipantRecord.
Variable teams_given : list TeamRecord.

Local Abbreviation build :=
  (buildParticipantTeamSummary parse_date_string localeCompare
     participants teams_given).

Local Abbreviation loop awards :=
  (fold_left (accumulate participants teams_given) (filter is_approved awards)
     (seed_participants participants, seed_teams teams_given)).

Local Abbreviation stat_of :=
  (fun entry : Z * ParticipantAccumulator =>
     let '(id, acc) := entry in toParticipantStat id acc).

(** The summary in terms of the two maps the loop leaves. *)
Lemma build_fields (awards : list DirectusAwardRecord) :
  let participantMap := fst (loop awards) in
  let teamMap := snd (loop awards) in
  let participantAwardedAll :=
    Array_sort (by_key (fun stat => Z.of_nat (ps_awardCount stat)))
      (map (fun '(id, entry) => toParticipantStat id entry)
         (filter (fun '(_, entry) => 0 <? pacc_total entry) participantMap)) in
  let participantPendingAll :=
    Array_sort (fun a b => localeCompare (ps_teamName a) (ps_teamName b))
      (map (fun '(id, entry) => toParticipantStat id entry)
         (filter (fun '(_, entry) => pacc_total entry =? 0) participantMap)) in
  let teamAwardedAll :=
    Array_sort (by_key (fun stat => Z.of_nat (ts_awardCount stat)))
      (map (fun '(id, entry) => awarded_team_stat parse_date_string id entry)
         (filter (fun '(_, entry) => 0 <? tacc_teamAwardCount entry) teamMap)) in
  let teamPendingAll :=
    Array_sort (fun a b => localeCompare (ts_name a) (ts_name b))
      (map (fun '(id, entry) => toTeamStat id entry)
         (filter (fun '(_, entry) => tacc_teamAwardCount entry =? 0) teamMap)) in
  build awards
  = {| pt_metrics :=
         {| totalApprovedAwards := List.length (filter is_approved awards);
            participantsAwarded := List.length participantAwardedAll;
            participantsAwaitingRecognition := List.length participantPendingAll;
            pt_teamsAwarded := List.length teamAwardedAll;
            teamsAwaitingRecognition := List.length teamPendingAll |};
       participantLeaderboard := slice0 10 participantAwardedAll;
       participantsPendingRecognition := slice0 10 participantPendingAll;
       teamLeaderboard := slice0 10 teamAwardedAll;
       teams := teamAwardedAll;
       teamsPendingRecognition := slice0 10 teamPendingAll;
       pendingAwards :=
         buildParticipantTeamSummary_pendingAwards parse_date_string awards |}.
Proof.
  cbn zeta. unfold buildParticipantTeamSummary.
  destruct (fold_left (accumulate participants teams_given)
              (filter is_approved awards)
              (seed_participants participants, seed_teams teams_given))
    as [pm tm].
  reflexivity.
Qed.

Lemma awarded_ids (awards : list DirectusAwardRecord) (k : Z) :
  In k (IdMap.keys (filter (fun '(_, entry) => 0 <? pacc_total entry)
                      (fst (loop awards))))
  <-> 0 < credited k (filter is_approved awards).
Proof.
  destruct (loop_result participants teams_given (filter is_approved awards))
    as [(Hn & Hk & He) _].
  rewrite keys_filter_In. split.
  - intros (e & Hin & Hpos). apply Nat.ltb_lt in Hpos.
    apply (IdMap_get_In _ _ _ Hn) in Hin.
    destruct (He k e Hin) as [Ht _]. lia.
  - intros Hpos.
    assert (Hin : In k (IdMap.keys (fst (loop awards))))
      by (apply Hk; now right).
    apply IdMap_get_keys in Hin. destruct Hin as [e Hg].
    exists e. split; [now apply (IdMap_get_In _ _ _ Hn)|].
    apply Nat.ltb_lt. destruct (He k e Hg) as [Ht _]. lia.
Qed.

Lemma awaiting_ids (awards : list DirectusAwardRecord) (k : Z) :
  In k (IdMap.keys (filter (fun '(_, entry) => pacc_total entry =? 0)
                      (fst (loop awards))))
  <-> In k (map pr_id participants)
      /\ credited k (filter is_approved awards) = 0.
Proof.
  destruct (loop_result participants teams_given (filter is_approved awards))
    as [(Hn & Hk & He) _].
  rewrite keys_filter_In. split.
  - intros (e & Hin & Hz). apply Nat.eqb_eq in Hz.
    assert (Hg : IdMap.get k (fst (loop awards)) = Some e)
      by now apply (IdMap_get_In _ _ _ Hn).
    destruct (He k e Hg) as [Ht _].
    assert (Hkey : In k (IdMap.keys (fst (loop awards))))
      by (apply IdMap_get_keys; now exists e).
    apply Hk in Hkey. split; [|lia]. destruct Hkey; [assumption | lia].
  - intros [Hp Hz].
    assert (Hin : In k (IdMap.keys (fst (loop awards))))
      by (apply Hk; now left).
    apply IdMap_get_keys in Hin. destruct Hin as [e Hg].
    exists e. split; [now apply (IdMap_get_In _ _ _ Hn)|].
    apply Nat.eqb_eq. destruct (He k e Hg) as [Ht _]. lia.
Qed.

(** X1. The summary counts as awarded the distinct participant ids that
    approved awards of individual type name by a non-zero id, and as
    awaiting recognition the distinct ids of the supplied participants
    that no such award names. *)
Theorem participants_counted (awards : list DirectusAwardRecord) :
  let m := pt_metrics (build awards) in
  let named k :=
    exists award,
      In award awards /\ status award = approved /\
      type award = Some individual /\
      participant_nominee_id award = Some k /\ k <> 0%Z in
  (exists ids,
      NoDup ids /\ participantsAwarded m = List.length ids /\
      forall k, In k ids <-> named k) /\
  (exists ids,
      NoDup ids /\ participantsAwaitingRecognition m = List.length ids /\
      forall k, In k ids <-> In k (map pr_id participants) /\ ~ named k).
Proof.
  cbn zeta. rewrite build_fields.
  cbn [pt_metrics participantsAwarded participantsAwaitingRecognition].
  destruct (loop_result participants teams_given (filter is_approved awards))
    as [(Hn & _) _].
  assert (Hnamed : forall k,
             0 < credited k (filter is_approved awards) <->
             exists award,
               In award awards /\ status award = approved /\
               type award = Some individual /\
               participant_nominee_id award = Some k /\ k <> 0%Z).
  { intros k. rewrite credited_positive. split.
    - intros (a & Ha & Hb). apply approved_In in Ha.
      apply individual_branch_iff in Hb. exists a. tauto.
    - intros (a & Ha & Hs & Hb). exists a. split.
      + apply approved_In. tauto.
      + now apply individual_branch_iff. }
  split.
  - exists (IdMap.keys (filter (fun '(_, entry) => 0 <? pacc_total entry)
                          (fst (loop awards)))).
    split; [now apply NoDup_keys_filter|]. split.
    + rewrite (Permutation_length (Array_sort_perm_any _ _)).
      unfold IdMap.keys. now rewrite !length_map.
    + intros k. rewrite awarded_ids. apply Hnamed.
  - exists (IdMap.keys (filter (fun '(_, entry) => pacc_total entry =? 0)
                          (fst (loop awards)))).
    split; [now apply NoDup_keys_filter|]. split.
    + rewrite (Permutation_length (Array_sort_perm_any _ _)).
      unfold IdMap.keys. now rewrite !length_map.
    + intros k. rewrite awaiting_ids, <- Hnamed.
      split; intros [Hp Hz]; (split; [assumption | lia]).
Qed.

Lemma awarded_stat (awards : list DirectusAwardRecord) (stat : ParticipantStat) :
  In stat (map (fun '(id, entry) => toParticipantStat id entry)
             (filter (fun '(_, entry) => 0 <? pacc_total entry)
                (fst (loop awards)))) ->
  1 <= ps_awardCount stat /\
  ps_awardCount stat = credited (ps_id stat) (filter is_approved awards) /\
  list_sum (map count (ps_colorBreakdown stat)) = ps_awardCount stat.
Proof.
  destruct (loop_result participants teams_given (filter is_approved awards))
    as [(Hn & Hk & He) _].
  intros Hin. apply in_map_iff in Hin. destruct Hin as ([k e] & <- & Hin).
  apply filter_In in Hin. destruct Hin as [Hin Hpos].
  apply Nat.ltb_lt in Hpos. apply (IdMap_get_In _ _ _ Hn) in Hin.
  destruct (He k e Hin) as (Ht & Hs & _).
  cbn [toParticipantStat ps_awardCount ps_id ps_colorBreakdown].
  rewrite breakdown_sum. repeat split; lia.
Qed.

(** X2. The participant leaderboard holds at most ten participants,
    each once, in descending order of award count.  A count is the
    number of approved individual awards naming the participant, is at
    least one, and is the total of the participant's color breakdown;
    no participant left off the board has more awards than one on it. *)
Theorem participantLeaderboard_ranked (awards : list DirectusAwardRecord) :
  let board := participantLeaderboard (build awards) in
  let awards_of k := credited k (filter is_approved awards) in
  List.length board <= 10 /\
  NoDup (map ps_id board) /\
  descending (fun stat => Z.of_nat (ps_awardCount stat)) board /\
  (forall stat,
      In stat board ->
      1 <= ps_awardCount stat /\
      ps_awardCount stat = awards_of (ps_id stat) /\
      list_sum (map count (ps_colorBreakdown stat)) = ps_awardCount stat) /\
  (forall stat k,
      In stat board -> ps_awardCount stat < awards_of k ->
      In k (map ps_id board)).
Proof.
  cbn zeta. rewrite build_fields. cbn [participantLeaderboard]. unfold slice0.
  set (awarded := map (fun '(id, entry) => toParticipantStat id entry)
                    (filter (fun '(_, entry) => 0 <? pacc_total entry)
                       (fst (loop awards)))).
  set (full := Array_sort
                 (by_key (fun stat => Z.of_nat (ps_awardCount stat))) awarded).
  assert (Hperm : Permutation full awarded) by apply Array_sort_perm.
  assert (Hsorted : descending (fun stat => Z.of_nat (ps_awardCount stat)) full)
    by apply Array_sort_descending.
  assert (Hids : map ps_id awarded
                 = IdMap.keys (filter (fun '(_, entry) => 0 <? pacc_total entry)
                                 (fst (loop awards)))).
  { unfold awarded, IdMap.keys. rewrite map_map. apply map_ext.
    now intros [k e]. }
  destruct (loop_result participants teams_given (filter is_approved awards))
    as [(Hn & _) _].
  unfold descending in *. rewrite <- (firstn_skipn 10 full) in Hsorted.
  apply StronglySorted_app in Hsorted. destruct Hsorted as [Hboard Hrest].
  split; [|split; [|split; [|split]]].
  - rewrite length_firstn. lia.
  - rewrite <- firstn_map. apply NoDup_firstn.
    eapply Permutation_NoDup;
      [apply Permutation_sym, Permutation_map, Hperm|].
    rewrite Hids. now apply NoDup_keys_filter.
  - exact Hboard.
  - intros stat Hin. apply awarded_stat.
    eapply Permutation_in; [exact Hperm|]. eapply In_firstn, Hin.
  - intros stat k Hin Hlt.
    assert (Hk : In k (map ps_id full)).
    { eapply Permutation_in;
        [apply Permutation_sym, Permutation_map, Hperm|].
      rewrite Hids. apply awarded_ids. lia. }
    apply in_map_iff in Hk. destruct Hk as (other & Hid & Hother).
    assert (Hcount : ps_awardCount other
                     = credited k (filter is_approved awards)).
    { rewrite <- Hid. apply awarded_stat.
      eapply Permutation_in; [exact Hperm | exact Hother]. }
    rewrite <- (firstn_skipn 10 full) in Hother.
    apply in_app_or in Hother. destruct Hother as [Hb | Hr].
    + apply in_map_iff. now exists other.
    + specialize (Hrest stat other Hin Hr). cbn in Hrest. lia.
Qed.

Lemma team_awarded_ids (awards : list DirectusAwardRecord) (k : Z) :
  In k (IdMap.keys (filter (fun '(_, entry) => 0 <? tacc_teamAwardCount entry)
                      (snd (loop awards))))
  <-> 0 < team_credited k (filter is_approved awards).
Proof.
  destruct (loop_result participants teams_given (filter is_approved awards))
    as [_ (Hn & Hk & He)].
  rewrite keys_filter_In. split.
  - intros (e & Hin & Hpos). apply Nat.ltb_lt in Hpos.
    apply (IdMap_get_In _ _ _ Hn) in Hin.
    destruct (He k e Hin) as [Ht _]. lia.
  - intros Hpos.
    assert (Hin : In k (IdMap.keys (snd (loop awards))))
      by (apply Hk; now right).
    apply IdMap_get_keys in Hin. destruct Hin as [e Hg].
    exists e. split; [now apply (IdMap_get_In _ _ _ Hn)|].
    apply Nat.ltb_lt. destruct (He k e Hg) as [Ht _]. lia.
Qed.

Lemma awarded_team (awards : list DirectusAwardRecord) (stat : TeamStat) :
  In stat (map (fun '(id, entry) => awarded_team_stat parse_date_string id entry)
             (filter (fun '(_, entry) => 0 <? tacc_teamAwardCount entry)
                (snd (loop awards)))) ->
  let credited_awards :=
    filter (credits_team (ts_id stat)) (filter is_approved awards) in
  1 <= ts_awardCount stat /\
  ts_awardCount stat = List.length credited_awards /\
  Permutation (ts_teamAwards stat) (map team_detail credited_awards) /\
  descending (detail_key parse_date_string) (ts_teamAwards stat) /\
  list_sum (map count (ts_colorBreakdown stat)) = ts_awardCount stat /\
  Forall (fun d => td_kind d = kind_participant) (ts_individualAwards stat) /\
  ts_participantsRecognized stat <= List.length (ts_individualAwards stat).
Proof.
  destruct (loop_result participants teams_given (filter is_approved awards))
    as [_ (Hn & Hk & He)].
  intros Hin. apply in_map_iff in Hin. destruct Hin as ([k e] & <- & Hin).
  apply filter_In in Hin. destruct Hin as [Hin Hpos].
  apply Nat.ltb_lt in Hpos. apply (IdMap_get_In _ _ _ Hn) in Hin.
  destruct (He k e Hin) as (Ht & Ha & Hs & Hki & _ & Hsz & _).
  cbn [awarded_team_stat toTeamStat ts_id ts_awardCount ts_teamAwards
       ts_colorBreakdown ts_individualAwards ts_participantsRecognized].
  cbn zeta. rewrite breakdown_sum, <- Ha.
  split; [lia|]. split; [exact Ht|].
  split; [apply Array_sort_perm|]. split; [apply Array_sort_descending|].
  split; [assumption|]. split; assumption.
Qed.

(** X3. [teams] lists every team credited with an approved team award,
    each once, in descending order of award count; [teamLeaderboard]
    is its first ten and [teamsAwarded] its length.  A team's award
    count is the number of approved awards that take the team branch
    and name it, is at least one, and totals its color breakdown; its
    [teamAwards] are the details of exactly those awards, latest
    first; its [individualAwards] are all of participant kind and at
    least as many as the participants it counts as recognized. *)
Theorem teams_listed (awards : list DirectusAwardRecord) :
  let all := teams (build awards) in
  let credited_awards k :=
    filter (credits_team k) (filter is_approved awards) in
  pt_teamsAwarded (pt_metrics (build awards)) = List.length all /\
  teamLeaderboard (build awards) = firstn 10 all /\
  NoDup (map ts_id all) /\
  descending (fun stat => Z.of_nat (ts_awardCount stat)) all /\
  (forall k,
      In k (map ts_id all) <->
      exists award,
        In award awards /\ status award = approved /\
        team_branch award = Some k) /\
  (forall stat,
      In stat all ->
      1 <= ts_awardCount stat /\
      ts_awardCount stat = List.length (credited_awards (ts_id stat)) /\
      Permutation (ts_teamAwards stat)
        (map team_detail (credited_awards (ts_id stat))) /\
      descending (detail_key parse_date_string) (ts_teamAwards stat) /\
      list_sum (map count (ts_colorBreakdown stat)) = ts_awardCount stat /\
      Forall (fun d => td_kind d = kind_participant) (ts_individualAwards stat) /\
      ts_participantsRecognized stat <= List.length (ts_individualAwards stat)).
Proof.
  cbn zeta. rewrite build_fields.
  cbn [pt_metrics pt_teamsAwarded teamLeaderboard teams]. unfold slice0.
  set (awarded := map (fun '(id, entry) =>
                         awarded_team_stat parse_date_string id entry)
                    (filter (fun '(_, entry) => 0 <? tacc_teamAwardCount entry)
                       (snd (loop awards)))).
  assert (Hperm : Permutation
                    (Array_sort
                       (by_key (fun stat => Z.of_nat (ts_awardCount stat)))
                       awarded) awarded) by apply Array_sort_perm.
  assert (Hids : map ts_id awarded
                 = IdMap.keys
                     (filter (fun '(_, entry) => 0 <? tacc_teamAwardCount entry)
                        (snd (loop awards)))).
  { unfold awarded, IdMap.keys. rewrite map_map. apply map_ext.
    now intros [k e]. }
  destruct (loop_result participants teams_given (filter is_approved awards))
    as [_ (Hn & _)].
  split; [reflexivity|]. split; [reflexivity|].
  split; [|split; [|split]].
  - eapply Permutation_NoDup;
      [apply Permutation_sym, Permutation_map, Hperm|].
    rewrite Hids. now apply NoDup_keys_filter.
  - apply Array_sort_descending.
  - intros k. split.
    + intros Hin.
      eapply Permutation_in in Hin; [|apply Permutation_map, Hperm].
      rewrite Hids in Hin. apply team_awarded_ids in Hin.
      apply team_credited_positive in Hin. destruct Hin as (a & Ha & Hb).
      apply approved_In in Ha. exists a. tauto.
    + intros (a & Ha & Hs & Hb).
      eapply Permutation_in;
        [apply Permutation_sym, Permutation_map, Hperm|].
      rewrite Hids. apply team_awarded_ids, team_credited_positive.
      exists a. split; [apply approved_In; tauto | assumption].
  - intros stat Hin. apply awarded_team.
    eapply Permutation_in; [exact Hperm | exact Hin].
Qed.

Lemma teams_counts (awards : list DirectusAwardRecord) :
  let all := teams (build awards) in
  NoDup (map ts_id all) /\
  (forall k, In k (map ts_id all)
             <-> 0 < team_credited k (filter is_approved awards)) /\
  (forall stat, In stat all ->
                ts_awardCount stat
                = team_credited (ts_id stat) (filter is_approved awards)).
Proof.
  cbn zeta. rewrite build_fields. cbn [teams].
  set (awarded := map (fun '(id, entry) =>
                         awarded_team_stat parse_date_string id entry)
                    (filter (fun '(_, entry) => 0 <? tacc_teamAwardCount entry)
                       (snd (loop awards)))).
  assert (Hperm : Permutation
                    (Array_sort
                       (by_key (fun stat => Z.of_nat (ts_awardCount stat)))
                       awarded) awarded) by apply Array_sort_perm.
  assert (Hids : map ts_id awarded
                 = IdMap.keys
                     (filter (fun '(_, entry) => 0 <? tacc_teamAwardCount entry)
                        (snd (loop awards)))).
  { unfold awarded, IdMap.keys. rewrite map_map. apply map_ext.
    now intros [k e]. }
  destruct (loop_result participants teams_given (filter is_approved awards))
    as [_ (Hn & _)].
  split; [|split].
  - eapply Permutation_NoDup;
      [apply Permutation_sym, Permutation_map, Hperm|].
    rewrite Hids. now apply NoDup_keys_filter.
  - intros k. rewrite <- team_awarded_ids, <- Hids. split; intros Hin.
    + eapply Permutation_in; [apply Permutation_map, Hperm | exact Hin].
    + eapply Permutation_in;
        [apply Permutation_sym, Permutation_map, Hperm | exact Hin].
  - intros stat Hin.
    eapply Permutation_in in Hin; [|exact Hperm].
    now apply awarded_team in Hin.
Qed.

(** X4. The award counts of the listed teams add up to the number of
    approved awards that take the team branch: no such award is lost
    or counted twice. *)
Theorem team_awards_conserved (awards : list DirectusAwardRecord) :
  list_sum (map ts_awardCount (teams (build awards)))
  = List.length
      (filter (fun award =>
                 is_approved award
                 && match team_branch award with
                    | Some _ => true
                    | None => false
                    end) awards).
Proof.
  destruct (teams_counts awards) as (Hnd & Hids & Hstat).
  rewrite <- filter_filter.
  rewrite <- (team_credited_sum (filter is_approved awards) Hnd).
  - rewrite map_map. f_equal. apply map_ext_in. intros stat Hin.
    now apply Hstat.
  - intros a t Ha Hb. apply Hids, team_credited_positive. now exists a.
Qed.

Lemma accumulate_skips
  (maps : IdMap.t ParticipantAccumulator * IdMap.t TeamAccumulator)
  (award : DirectusAwardRecord) :
  individual_branch award = None -> team_branch award = None ->
  accumulate participants teams_given maps award = maps.
Proof.
  intros Hi Ht. destruct maps as [pm tm].
  unfold accumulate. unfold team_branch in Ht. rewrite Hi in *.
  now rewrite Ht.
Qed.

Lemma loop_skips (before after : list DirectusAwardRecord)
  (award : DirectusAwardRecord) :
  status award <> approved \/
  (individual_branch award = None /\ team_branch award = None) ->
  loop (before ++ award :: after) = loop (before ++ after).
Proof.
  intros Hskip. rewrite !filter_app. cbn [filter].
  destruct (is_approved award) eqn:Ea; [|reflexivity].
  destruct Hskip as [Hs | [Hi Ht]].
  - exfalso. apply Hs. now apply is_status_true_iff.
  - rewrite !fold_left_app. cbn [fold_left].
    now rewrite accumulate_skips.
Qed.

(** X5. An award that is not approved, or that takes neither branch of
    the loop (no usable participant on an individual award and no
    usable team), changes no leaderboard, no list of teams or of those
    awaiting recognition, and no count other than the total of
    approved awards. *)
Theorem skipped_award_ignored (before after : list DirectusAwardRecord)
  (award : DirectusAwardRecord) :
  status award <> approved \/
  (individual_branch award = None /\ team_branch award = None) ->
  let with_it := build (before ++ award :: after) in
  let without := build (before ++ after) in
  participantLeaderboard with_it = participantLeaderboard without /\
  participantsPendingRecognition with_it
  = participantsPendingRecognition without /\
  teamLeaderboard with_it = teamLeaderboard without /\
  teams with_it = teams without /\
  teamsPendingRecognition with_it = teamsPendingRecognition without /\
  participantsAwarded (pt_metrics with_it)
  = participantsAwarded (pt_metrics without) /\
  participantsAwaitingRecognition (pt_metrics with_it)
  = participantsAwaitingRecognition (pt_metrics without) /\
  pt_teamsAwarded (pt_metrics with_it) = pt_teamsAwarded (pt_metrics without) /\
  teamsAwaitingRecognition (pt_metrics with_it)
  = teamsAwaitingRecognition (pt_metrics without).
Proof.
  intros Hskip. cbn zeta. rewrite !build_fields.
  cbn [pt_metrics participantLeaderboard participantsPendingRecognition
       teamLeaderboard teams teamsPendingRecognition participantsAwarded
       participantsAwaitingRecognition pt_teamsAwarded
       teamsAwaitingRecognition].
  rewrite (loop_skips before after award Hskip).
  repeat split; reflexivity.
Qed.

(** X6. The lists of those awaiting recognition hold at most ten
    entries each.  A participant listed there is one of the supplied
    participants, appears once, has no approved individual award and
    an award count of zero; a team listed there has an award count of
    zero and no team awards. *)
Theorem awaiting_recognition_lists (awards : list DirectusAwardRecord) :
  let waiting := participantsPendingRecognition (build awards) in
  let waiting_teams := teamsPendingRecognition (build awards) in
  List.length waiting <= 10 /\
  NoDup (map ps_id waiting) /\
  (forall stat,
      In stat waiting ->
      ps_awardCount stat = 0 /\
      credited (ps_id stat) (filter is_approved awards) = 0 /\
      exists r,
        In r participants /\ pr_id r = ps_id stat /\
        ps_nganh stat = pr_nganh r) /\
  List.length waiting_teams <= 10 /\
  NoDup (map ts_id waiting_teams) /\
  (forall stat,
      In stat waiting_teams ->
      ts_awardCount stat = 0 /\ ts_teamAwards stat = [] /\
      team_credited (ts_id stat) (filter is_approved awards) = 0).
Proof.
  cbn zeta. rewrite build_fields.
  cbn [participantsPendingRecognition teamsPendingRecognition]. unfold slice0.
  destruct (loop_result participants teams_given (filter is_approved awards))
    as [(Hn & Hk & He) (Htn & Htk & Hte)].
  set (pending := map (fun '(id, entry) => toParticipantStat id entry)
                    (filter (fun '(_, entry) => pacc_total entry =? 0)
                       (fst (loop awards)))).
  set (pending_teams := map (fun '(id, entry) => toTeamStat id entry)
                          (filter (fun '(_, entry) =>
                                     tacc_teamAwardCount entry =? 0)
                             (snd (loop awards)))).
  assert (Hids : map ps_id pending
                 = IdMap.keys (filter (fun '(_, entry) => pacc_total entry =? 0)
                                 (fst (loop awards)))).
  { unfold pending, IdMap.keys. rewrite map_map. apply map_ext.
    now intros [k e]. }
  assert (Htids : map ts_id pending_teams
                  = IdMap.keys
                      (filter (fun '(_, entry) => tacc_teamAwardCount entry =? 0)
                         (snd (loop awards)))).
  { unfold pending_teams, IdMap.keys. rewrite map_map. apply map_ext.
    now intros [k e]. }
  split; [rewrite length_firstn; lia|].
  split; [|split; [|split; [rewrite length_firstn; lia | split]]].
  - rewrite <- firstn_map. apply NoDup_firstn.
    eapply Permutation_NoDup;
      [apply Permutation_sym, Permutation_map, Array_sort_perm_any|].
    rewrite Hids. now apply NoDup_keys_filter.
  - intros stat Hin. apply In_firstn in Hin.
    eapply Permutation_in in Hin; [|apply Array_sort_perm_any].
    apply in_map_iff in Hin. destruct Hin as ([k e] & <- & Hin).
    apply filter_In in Hin. destruct Hin as [Hin Hz].
    apply Nat.eqb_eq in Hz. apply (IdMap_get_In _ _ _ Hn) in Hin.
    destruct (He k e Hin) as (Ht & _ & Hr & Hnone).
    cbn [toParticipantStat ps_awardCount ps_id ps_nganh].
    split; [assumption|]. split; [lia|].
    destruct (pacc_record e) as [r|] eqn:Er.
    + destruct (Hr r eq_refl) as [Hrin Hrid]. exists r. tauto.
    + destruct (Hnone eq_refl). lia.
  - rewrite <- firstn_map. apply NoDup_firstn.
    eapply Permutation_NoDup;
      [apply Permutation_sym, Permutation_map, Array_sort_perm_any|].
    rewrite Htids. now apply NoDup_keys_filter.
  - intros stat Hin. apply In_firstn in Hin.
    eapply Permutation_in in Hin; [|apply Array_sort_perm_any].
    apply in_map_iff in Hin. destruct Hin as ([k e] & <- & Hin).
    apply filter_In in Hin. destruct Hin as [Hin Hz].
    apply Nat.eqb_eq in Hz. apply (IdMap_get_In _ _ _ Htn) in Hin.
    destruct (Hte k e Hin) as (Ht & Ha & _).
    cbn [toTeamStat ts_awardCount ts_id ts_teamAwards].
    split; [assumption|]. split; [|lia].
    rewrite Ha. unfold team_credited in Ht. rewrite Hz in Ht.
    destruct (filter (credits_team k) (filter is_approved awards));
      [reflexivity | discriminate].
Qed.

(** X18. An entity the supplied lists do not know shows under the
    fallback labels: a participant on the leaderboard whose id is not
    supplied is named Unknown participant, of team Unassigned; a listed
    team whose id is not supplied is named Unknown team.  A known one
    takes its labels from a supplied record of that id. *)
Theorem unknown_entities_labelled (awards : list DirectusAwardRecord) :
  (forall stat,
      In stat (participantLeaderboard (build awards)) ->
      (In (ps_id stat) (map pr_id participants) ->
       exists r,
         In r participants /\ pr_id r = ps_id stat /\
         ps_nganh stat = pr_nganh r /\
         ps_teamName stat
         = nullish (match pr_team r with
                    | Some t => ref_name t
                    | None => None
                    end) (lit "Unassigned")) /\
      (~ In (ps_id stat) (map pr_id participants) ->
       ps_name stat = lit "Unknown participant" /\
       ps_teamName stat = lit "Unassigned" /\ ps_nganh stat = None)) /\
  (forall stat,
      In stat (teams (build awards))
      \/ In stat (teamsPendingRecognition (build awards)) ->
      (In (ts_id stat) (map tr_id teams_given) ->
       exists r,
         In r teams_given /\ tr_id r = ts_id stat /\
         ts_name stat = nullish (tr_name r) (lit "Unknown team")) /\
      (~ In (ts_id stat) (map tr_id teams_given) ->
       ts_name stat = lit "Unknown team")).
Proof.
  rewrite build_fields.
  cbn [participantLeaderboard teams teamsPendingRecognition]. unfold slice0.
  destruct (loop_result participants teams_given (filter is_approved awards))
    as [(Hn & Hk & He) (Htn & Htk & Hte)].
  split.
  - intros stat Hin. apply In_firstn in Hin.
    eapply Permutation_in in Hin; [|apply Array_sort_perm].
    apply in_map_iff in Hin. destruct Hin as ([k e] & <- & Hin).
    apply filter_In in Hin. destruct Hin as [Hin _].
    apply (IdMap_get_In _ _ _ Hn) in Hin.
    destruct (He k e Hin) as (_ & _ & Hr & Hnone).
    unfold toParticipantStat. cbn [ps_id ps_name ps_teamName ps_nganh].
    destruct (pacc_record e) as [r|].
    + destruct (Hr r eq_refl) as [Hrin Hrid]. split.
      * intros _. exists r. repeat split; assumption.
      * intros Hnot. exfalso. apply Hnot. rewrite <- Hrid. now apply in_map.
    + destruct (Hnone eq_refl) as [_ Hnot]. split.
      * intros Hin'. contradiction.
      * intros _. repeat split; reflexivity.
  - assert (Hname : forall k e,
               IdMap.get k (snd (loop awards)) = Some e ->
               (In k (map tr_id teams_given) ->
                exists r,
                  In r teams_given /\ tr_id r = k /\
                  nullish (match tacc_record e with
                           | Some r => tr_name r
                           | None => None
                           end) (lit "Unknown team")
                  = nullish (tr_name r) (lit "Unknown team")) /\
               (~ In k (map tr_id teams_given) ->
                nullish (match tacc_record e with
                         | Some r => tr_name r
                         | None => None
                         end) (lit "Unknown team") = lit "Unknown team")).
    { intros k e Hg.
      destruct (Hte k e Hg) as (_ & _ & _ & _ & _ & _ & _ & Hr & Hnone).
      destruct (tacc_record e) as [r|].
      - destruct (Hr r eq_refl) as [Hrin Hrid]. split.
        + intros _. exists r. repeat split; assumption.
        + intros Hnot. exfalso. apply Hnot. rewrite <- Hrid. now apply in_map.
      - split; [intros Hin'; now apply Hnone in Hin' | reflexivity]. }
    intros stat [Hin | Hin].
    + eapply Permutation_in in Hin; [|apply Array_sort_perm].
      apply in_map_iff in Hin. destruct Hin as ([k e] & <- & Hin).
      apply filter_In in Hin. destruct Hin as [Hin _].
      apply (IdMap_get_In _ _ _ Htn) in Hin.
      exact (Hname k e Hin).
    + apply In_firstn in Hin.
      eapply Permutation_in in Hin; [|apply Array_sort_perm_any].
      apply in_map_iff in Hin. destruct Hin as ([k e] & <- & Hin).
      apply filter_In in Hin. destruct Hin as [Hin _].
      apply (IdMap_get_In _ _ _ Htn) in Hin.
      exact (Hname k e Hin).
Qed.

(** X19. The pending queue of this summary lists each pending award
    once, newest submission first, awards of equal date in input
    order; it is as long as the pending count of the ceremony summary
    built from the same awards. *)
Theorem pendingAwards_sorted (awards : list DirectusAwardRecord) :
  let queue := pendingAwards (build awards) in
  let entry_key entry :=
    parsed_or_zero parse_date_string (pa_submittedAt entry) in
  Permutation queue (map pending_award_entry (filter is_pending awards)) /\
  descending entry_key queue /\
  (forall k, filter (with_key entry_key k) queue
             = filter (with_key entry_key k)
                 (map pending_award_entry (filter is_pending awards))) /\
  List.length queue
  = metrics_pending (metrics (buildCeremonySummary parse_date_string awards)).
Proof.
  cbn zeta. rewrite build_fields. cbn [pendingAwards].
  unfold buildParticipantTeamSummary_pendingAwards.
  change (compare_pending_entry parse_date_string)
    with (by_key (fun e => parsed_or_zero parse_date_string (pa_submittedAt e))).
  split; [apply Array_sort_perm|]. split; [apply Array_sort_descending|].
  split; [intros k; apply Array_sort_stable|].
  rewrite (Permutation_length (Array_sort_perm _ _)), length_map.
  reflexivity.
Qed.

Lemma team_awaiting_ids (awards : list DirectusAwardRecord) (k : Z) :
  In k (IdMap.keys (filter (fun '(_, entry) => tacc_teamAwardCount entry =? 0)
                      (snd (loop awards))))
  <-> (In k (map tr_id teams_given)
       \/ exists award, In award (filter is_approved awards)
                        /\ recognizes participants k award)
      /\ team_credited k (filter is_approved awards) = 0.
Proof.
  destruct (loop_result participants teams_given (filter is_approved awards))
    as [_ (Hn & _ & He)].
  destruct (team_keys participants teams_given (filter is_approved awards))
    as [_ Hkeys].
  rewrite keys_filter_In. split.
  - intros (e & Hin & Hz). apply Nat.eqb_eq in Hz.
    assert (Hg : IdMap.get k (snd (loop awards)) = Some e)
      by now apply (IdMap_get_In _ _ _ Hn).
    destruct (He k e Hg) as [Ht _].
    assert (Hkey : In k (IdMap.keys (snd (loop awards))))
      by (apply IdMap_get_keys; now exists e).
    apply Hkeys in Hkey. split; [|lia].
    destruct Hkey as [H | [H | H]]; [now left | lia | now right].
  - intros [Hwhy Hz].
    assert (Hin : In k (IdMap.keys (snd (loop awards)))).
    { apply Hkeys. destruct Hwhy as [H | H]; [now left | right; now right]. }
    apply IdMap_get_keys in Hin. destruct Hin as [e Hg].
    exists e. split; [now apply (IdMap_get_In _ _ _ Hn)|].
    apply Nat.eqb_eq. destruct (He k e Hg) as [Ht _]. lia.
Qed.

(** X20. The summary counts as awarded the distinct team ids that
    approved awards taking the team branch name, and as awaiting
    recognition the distinct ids, with no such award, of the supplied
    teams and of the teams to which recognized participants belong. *)
Theorem teams_counted (awards : list DirectusAwardRecord) :
  let m := pt_metrics (build awards) in
  let named k :=
    exists award,
      In award awards /\ status award = approved /\
      team_branch award = Some k in
  let recognized k :=
    exists award,
      In award awards /\ status award = approved /\
      recognizes participants k award in
  (exists ids,
      NoDup ids /\ pt_teamsAwarded m = List.length ids /\
      forall k, In k ids <-> named k) /\
  (exists ids,
      NoDup ids /\ teamsAwaitingRecognition m = List.length ids /\
      forall k, In k ids <->
                (In k (map tr_id teams_given) \/ recognized k) /\ ~ named k).
Proof.
  cbn zeta. rewrite build_fields.
  cbn [pt_metrics pt_teamsAwarded teamsAwaitingRecognition].
  destruct (loop_result participants teams_given (filter is_approved awards))
    as [_ (Hn & _)].
  assert (Hnamed : forall k,
             0 < team_credited k (filter is_approved awards) <->
             exists award,
               In award awards /\ status award = approved /\
               team_branch award = Some k).
  { intros k. rewrite team_credited_positive. split.
    - intros (a & Ha & Hb). apply approved_In in Ha. exists a. tauto.
    - intros (a & Ha & Hs & Hb). exists a. split; [|assumption].
      apply approved_In. tauto. }
  assert (Hrec : forall k,
             (exists award, In award (filter is_approved awards)
                            /\ recognizes participants k award) <->
             exists award,
               In award awards /\ status award = approved /\
               recognizes participants k award).
  { intros k. split.
    - intros (a & Ha & Hr). apply approved_In in Ha. exists a. tauto.
    - intros (a & Ha & Hs & Hr). exists a. split; [|assumption].
      apply approved_In. tauto. }
  split.
  - exists (IdMap.keys (filter (fun '(_, entry) => 0 <? tacc_teamAwardCount entry)
                          (snd (loop awards)))).
    split; [now apply NoDup_keys_filter|]. split.
    + rewrite (Permutation_length (Array_sort_perm _ _)).
      unfold IdMap.keys. now rewrite !length_map.
    + intros k. rewrite team_awarded_ids. apply Hnamed.
  - exists (IdMap.keys (filter (fun '(_, entry) => tacc_teamAwardCount entry =? 0)
                          (snd (loop awards)))).
    split; [now apply NoDup_keys_filter|]. split.
    + rewrite (Permutation_length (Array_sort_perm_any _ _)).
      unfold IdMap.keys. now rewrite !length_map.
    + intros k. rewrite team_awaiting_ids, <- Hnamed, Hrec.
      split; intros [Hw Hz]; (split; [assumption | lia]).
Qed.

Lemma same_members_same_length (l1 l2 : list Z) :
  NoDup l1 -> NoDup l2 -> (forall k, In k l1 <-> In k l2) ->
  List.length l1 = List.length l2.
Proof.
  intros H1 H2 Hm. apply Permutation_length. now apply NoDup_Permutation.
Qed.

(** X21. The five counts do not depend on the order of the awards. *)
Theorem pt_metrics_order_independent (l1 l2 : list DirectusAwardRecord) :
  Permutation l1 l2 ->
  pt_metrics (build l1) = pt_metrics (build l2).
Proof.
  intros Hp.
  assert (Ha : Permutation (filter is_approved l1) (filter is_approved l2))
    by now apply filter_perm.
  assert (Hc : forall k, credited k (filter is_approved l1)
                         = credited k (filter is_approved l2)).
  { intros k. unfold credited. now apply Permutation_length, filter_perm. }
  assert (Ht : forall k, team_credited k (filter is_approved l1)
                         = team_credited k (filter is_approved l2)).
  { intros k. unfold team_credited. now apply Permutation_length, filter_perm. }
  assert (Hr : forall k,
             (exists award, In award (filter is_approved l1)
                            /\ recognizes participants k award) <->
             (exists award, In award (filter is_approved l2)
                            /\ recognizes participants k award)).
  { intros k. split; intros (a & Hin & Hrec); exists a;
      (split; [|assumption]).
    - eapply Permutation_in; [exact Ha | exact Hin].
    - eapply Permutation_in; [apply Permutation_sym; exact Ha | exact Hin]. }
  destruct (loop_result participants teams_given (filter is_approved l1))
    as [(Hn1 & _) (Htn1 & _)].
  destruct (loop_result participants teams_given (filter is_approved l2))
    as [(Hn2 & _) (Htn2 & _)].
  rewrite !build_fields. cbn [pt_metrics].
  rewrite !(Permutation_length (Array_sort_perm _ _)).
  rewrite !(Permutation_length (Array_sort_perm_any _ _)).
  rewrite !length_map.
  assert (Hlen : forall {V} (f : Z * V -> bool) (m : IdMap.t V),
             List.length (filter f m) = List.length (IdMap.keys (filter f m))).
  { intros V f m. unfold IdMap.keys. now rewrite length_map. }
  rewrite !Hlen. f_equal.
  - now apply Permutation_length.
  - apply same_members_same_length; try now apply NoDup_keys_filter.
    intros k. rewrite !awarded_ids, Hc. reflexivity.
  - apply same_members_same_length; try now apply NoDup_keys_filter.
    intros k. rewrite !awaiting_ids, Hc. reflexivity.
  - apply same_members_same_length; try now apply NoDup_keys_filter.
    intros k. rewrite !team_awarded_ids, Ht. reflexivity.
  - apply same_members_same_length; try now apply NoDup_keys_filter.
    intros k. rewrite !team_awaiting_ids, Ht, Hr. reflexivity.
Qed.

End ParticipantTeamProperties.

Lemma skipped_award_ignored_witness :
  (individual_branch Samples.a8 = None /\ team_branch Samples.a8 = None) /\
  teams (buildParticipantTeamSummary Samples.parse_date_string
           Samples.localeCompare Samples.participants Samples.team_records
           ([Samples.a1] ++ Samples.a8 :: [Samples.a3]))
  = teams (buildParticipantTeamSummary Samples.parse_date_string
             Samples.localeCompare Samples.participants Samples.team_records
             ([Samples.a1] ++ [Samples.a3])).
Proof.
  assert (H : individual_branch Samples.a8 = None
              /\ team_branch Samples.a8 = None)
    by (split; reflexivity).
  split; [exact H|].
  exact (proj1 (proj2 (proj2 (proj2
           (skipped_award_ignored Samples.parse_date_string
              Samples.localeCompare Samples.participants Samples.team_records
              [Samples.a1] [Samples.a3] Samples.a8 (or_intror H)))))).
Defined.

(** ** Names and trimming *)

Lemma trim_start_nil (s : str) :
  Js.trim_start s = [] <-> forallb Js.is_white_space s = true.
Proof.
  induction s as [|c s IH]; cbn [Js.trim_start forallb]; [tauto|].
  destruct (Js.is_white_space c); cbn [andb]; [exact IH|].
  split; discriminate.
Qed.

Lemma trim_start_blank_free (s : str) :
  forallb Js.is_white_space (Js.trim_start s) = true -> Js.trim_start s = [].
Proof.
  induction s as [|c s IH]; cbn [Js.trim_start]; [reflexivity|].
  destruct (Js.is_white_space c) eqn:E; [exact IH|].
  cbn [forallb]. rewrite E. discriminate.
Qed.

Lemma forallb_rev {A} (f : A -> bool) (l : list A) :
  forallb f (rev l) = forallb f l.
Proof.
  induction l as [|x l IH]; [reflexivity|].
  cbn [rev forallb]. rewrite forallb_app, IH. cbn [forallb].
  destruct (forallb f l), (f x); reflexivity.
Qed.

(** Trimming leaves nothing exactly when every code unit is white
    space. *)
Lemma trim_nil (s : str) :
  Js.trim s = [] <-> forallb Js.is_white_space s = true.
Proof.
  unfold Js.trim. split.
  - intros H.
    assert (H' : Js.trim_start (rev (Js.trim_start s)) = []).
    { destruct (Js.trim_start (rev (Js.trim_start s))); [reflexivity|].
      apply (f_equal (@List.length N)) in H.
      rewrite length_rev in H. discriminate. }
    apply trim_start_nil in H'. rewrite forallb_rev in H'.
    apply trim_start_blank_free in H'. now apply trim_start_nil.
  - intros H. apply trim_start_nil in H. rewrite H. reflexivity.
Qed.

Lemma keep_part_visible (part : option str) :
  keep_part part = true <->
  exists s, part = Some s /\ forallb Js.is_white_space s = false.
Proof.
  unfold keep_part. destruct part as [s|].
  - split.
    + intros H. apply andb_prop in H. destruct H as [_ H].
      apply nonempty_true_iff in H. exists s. split; [reflexivity|].
      destruct (forallb Js.is_white_space s) eqn:E; [|reflexivity].
      apply trim_nil in E. contradiction.
    + intros (s' & Hs & Hv). injection Hs as <-.
      assert (Ht : Js.trim s <> []).
      { intros Ht. apply trim_nil in Ht. congruence. }
      apply andb_true_intro. split; apply nonempty_true_iff; [|assumption].
      intros ->. now apply Ht.
  - split; [discriminate | intros (s & H & _); discriminate].
Qed.

Lemma kept_parts_visible (parts : list (option str)) :
  Forall (fun s => forallb Js.is_white_space s = false) (kept_parts parts) /\
  (kept_parts parts = [] <-> forall part, In part parts -> keep_part part = false).
Proof.
  induction parts as [|part parts [IHv IHn]]; cbn [kept_parts].
  - split; [constructor | split; [intros _ part [] | reflexivity]].
  - destruct part as [s|].
    + destruct (keep_part (Some s)) eqn:K.
      * split.
        -- constructor; [|assumption].
           apply keep_part_visible in K. destruct K as (s' & Hs & Hv).
           now injection Hs as <-.
        -- split; [discriminate|]. intros Hall.
           specialize (Hall (Some s) (or_introl eq_refl)). congruence.
      * split; [assumption|]. rewrite IHn. split.
        -- intros Hall part [<- | Hin]; [assumption | now apply Hall].
        -- intros Hall part Hin. apply Hall. now right.
    + split; [assumption|]. rewrite IHn. split.
      * intros Hall part [<- | Hin]; [reflexivity | now apply Hall].
      * intros Hall part Hin. apply Hall. now right.
Qed.

Lemma join_visible (sep : str) (parts : list str) :
  Forall (fun s => forallb Js.is_white_space s = false) parts ->
  parts <> [] ->
  forallb Js.is_white_space (Js.join sep parts) = false.
Proof.
  intros Hv Hne. destruct parts as [|p rest]; [contradiction|].
  inversion Hv as [|? ? Hp Hrest]; subst. cbn [Js.join].
  destruct rest; [assumption|].
  rewrite forallb_app, Hp. reflexivity.
Qed.

(** X7. A formatted name is empty exactly when the person is absent or
    neither name part has a visible character; a name that is not
    empty has a visible character itself, so the fallback labels
    replace exactly the names that would show as blank. *)
Theorem formatPersonName_blank {A} `{Person A} (person : option A) :
  let visible (part : option str) :=
    exists s, part = Some s /\ forallb Js.is_white_space s = false in
  (formatPersonName person = [] <->
   forall p, person = Some p ->
             ~ visible (first_name p) /\ ~ visible (last_name p)) /\
  (formatPersonName person <> [] ->
   forallb Js.is_white_space (formatPersonName person) = false).
Proof.
  cbn zeta. unfold formatPersonName.
  destruct person as [p|].
  - destruct (kept_parts_visible [first_name p; last_name p]) as [Hv Hn].
    assert (Hnil : Js.join (lit " ") (kept_parts [first_name p; last_name p]) = []
                   <-> kept_parts [first_name p; last_name p] = []).
    { split; [|intros ->; reflexivity].
      intros Hj.
      destruct (kept_parts [first_name p; last_name p]) as [|x rest] eqn:E;
        [reflexivity|].
      assert (Hvis : forallb Js.is_white_space
                       (Js.join (lit " ") (x :: rest)) = false)
        by (apply join_visible; [assumption | discriminate]).
      rewrite Hj in Hvis. discriminate. }
    split.
    + rewrite Hnil, Hn. split.
      * intros Hall q Hq. injection Hq as <-. split; intros Hvis.
        -- apply keep_part_visible in Hvis.
           rewrite (Hall (first_name p)) in Hvis; [discriminate | now left].
        -- apply keep_part_visible in Hvis.
           rewrite (Hall (last_name p)) in Hvis;
             [discriminate | right; now left].
      * intros Hall part Hin.
        destruct (Hall p eq_refl) as [Hf Hl].
        destruct (keep_part part) eqn:K; [|reflexivity].
        apply keep_part_visible in K.
        destruct Hin as [<- | [<- | []]]; contradiction.
    + intros Hne. apply join_visible; [assumption|].
      intros Hk. apply Hne, Hnil, Hk.
  - split; [split; [intros _ p Hp; discriminate | reflexivity]|].
    intros Hne. now contradiction Hne.
Qed.

(** ** The fetcher *)

Lemma strip_trailing_slash_snoc (u : str) :
  strip_trailing_slash (u ++ lit "/") = u.
Proof.
  induction u as [|c u IH]; [reflexivity|].
  cbn [app]. destruct (u ++ lit "/") as [|x rest] eqn:E.
  - destruct u; discriminate.
  - cbn [strip_trailing_slash]. cbn [strip_trailing_slash] in IH.
    now rewrite IH.
Qed.

Lemma strip_trailing_slash_none (u : str) :
  last u 0%N <> 47%N -> strip_trailing_slash u = u.
Proof.
  induction u as [|c u IH]; [reflexivity|].
  destruct u as [|x rest].
  - cbn. intros H. destruct (N.eqb_spec c 47); [contradiction | reflexivity].
  - intros H. cbn [strip_trailing_slash]. cbn [strip_trailing_slash] in IH.
    rewrite IH; [reflexivity | exact H].
Qed.

Section FetcherProperties.

Variable config : Config.

Context {S : Type}.
Variable store : S -> Request -> S * option Response.

(** X8. The fetcher sends nothing when a connection constant is
    missing or empty, and then throws a configuration error.  It
    returns a value only when the store answered its one request with
    a success response whose body is that JSON value; a response that
    is not a success is thrown as a failure carrying the status and the
    body text, or the status text when the body is empty. *)
Theorem directusFetch_outcomes (s : S) (path : str) (init : RequestInit) :
  let result := run store s (directusFetch config path init) in
  (configured config = false ->
   fst result = [] /\ exists message, snd result = inr (ConfigError message)) /\
  (configured config = true -> exists rq, fst result = [rq]) /\
  (forall value,
      snd result = inl value ->
      exists rq s' response,
        fst result = [rq] /\ store s rq = (s', Some response) /\
        resp_ok response = true /\ resp_json response = Some value) /\
  (forall rq s' response,
      fst result = [rq] -> store s rq = (s', Some response) ->
      resp_ok response = false ->
      snd result
      = inr (RequestFailed (resp_status response)
               (if Js.nonempty (resp_text response)
                then resp_text response
                else resp_statusText response))) /\
  (forall rq s',
      fst result = [rq] -> store s rq = (s', None) ->
      snd result = inr FetchRejected).
Proof.
  cbn zeta.
  unfold configured, directusFetch, getDirectusBaseUrl, getDirectusHeaders.
  destruct (DIRECTUS_URL config) as [url|]; cbn [Js.truthy];
    [destruct (Js.nonempty url)|]; cbn [andb bind run fst snd];
    try (split; [intros _; split; [reflexivity | eexists; reflexivity]|];
         split; [discriminate|];
         split; [intros v Hv; discriminate|];
         split; [intros rq s' r H; discriminate
                | intros rq s' H; discriminate]).
  destruct (DIRECTUS_STATIC_TOKEN config) as [token|]; cbn [Js.truthy];
    [destruct (Js.nonempty token)|]; cbn [andb bind run fst snd];
    try (split; [intros _; split; [reflexivity | eexists; reflexivity]|];
         split; [discriminate|];
         split; [intros v Hv; discriminate|];
         split; [intros rq s' r H; discriminate
                | intros rq s' H; discriminate]).
  match goal with
  | |- context [store s ?r] => set (rq := r)
  end.
  destruct (store s rq) as [s1 out] eqn:Estore.
  split; [discriminate|].
  destruct out as [response|]; cbn [run fst snd].
  - destruct (resp_ok response) eqn:Eok.
    + destruct (resp_json response) as [value|] eqn:Ej; cbn [run fst snd].
      * split; [now exists rq|]. split.
        -- intros v Hv. injection Hv as <-. exists rq, s1, response. tauto.
        -- split.
           ++ intros rq' s' r H Hs. injection H as <-.
              rewrite Estore in Hs. injection Hs as <- <-. congruence.
           ++ intros rq' s' H Hs. injection H as <-.
              rewrite Estore in Hs. discriminate.
      * split; [now exists rq|]. split; [intros v Hv; discriminate|]. split.
        -- intros rq' s' r H Hs. injection H as <-.
           rewrite Estore in Hs. injection Hs as <- <-. congruence.
        -- intros rq' s' H Hs. injection H as <-.
           rewrite Estore in Hs. discriminate.
    + cbn [run fst snd].
      split; [now exists rq|]. split; [intros v Hv; discriminate|]. split.
      * intros rq' s' r H Hs _. injection H as <-.
        rewrite Estore in Hs. injection Hs as <- <-. reflexivity.
      * intros rq' s' H Hs. injection H as <-.
        rewrite Estore in Hs. discriminate.
  - split; [now exists rq|]. split; [intros v Hv; discriminate|]. split.
    + intros rq' s' r H Hs. injection H as <-.
      rewrite Estore in Hs. discriminate.
    + reflexivity.
Qed.

(** X9. Every request goes to the configured base URL, less one
    trailing slash, joined to the path by a single slash; it carries
    the bearer token and asks for no caching.  A base URL written with
    or without the final slash gives the same request URL. *)
Theorem directusFetch_request (s : S) (path : str) (init : RequestInit) :
  (forall rq,
      In rq (fst (run store s (directusFetch config path init))) ->
      exists base token,
        DIRECTUS_URL config = Some base /\
        DIRECTUS_STATIC_TOKEN config = Some token /\
        req_url rq = strip_trailing_slash base ++ lit "/" ++ path /\
        req_headers rq = [(lit "Authorization", lit "Bearer " ++ token);
                          (lit "Content-Type", lit "application/json")] /\
        req_cache rq = lit "no-store" /\
        req_method rq = init_method init /\ req_body rq = init_body init) /\
  (forall u, strip_trailing_slash (u ++ lit "/") = u) /\
  (forall u, last u 0%N <> 47%N -> strip_trailing_slash u = u).
Proof.
  split; [|split; [apply strip_trailing_slash_snoc
                  | apply strip_trailing_slash_none]].
  unfold directusFetch, getDirectusBaseUrl, getDirectusHeaders.
  destruct (DIRECTUS_URL config) as [url|];
    [destruct (Js.nonempty url)|]; cbn [bind run fst];
    try (intros rq []).
  destruct (DIRECTUS_STATIC_TOKEN config) as [token|];
    [destruct (Js.nonempty token)|]; cbn [bind run fst];
    try (intros rq []).
  match goal with
  | |- context [store s ?r] => set (rq0 := r)
  end.
  destruct (store s rq0) as [s1 out].
  assert (Hsent : fst (let (sent, outcome) :=
                         run store s1
                           (match out with
                            | Some response =>
                                if resp_ok response
                                then match resp_json response with
                                     | Some value => Ret value
                                     | None => Throw BodyNotJson
                                     end
                                else Throw
                                       (RequestFailed (resp_status response)
                                          (Js.or_else (resp_text response)
                                             (resp_statusText response)))
                            | None => Throw FetchRejected
                            end) in
                       (rq0 :: sent, outcome)) = [rq0]).
  { destruct out as [response|]; [|reflexivity].
    destruct (resp_ok response); [|reflexivity].
    destruct (resp_json response); reflexivity. }
  rewrite Hsent. intros rq [<- | []].
  exists url, token. repeat split; reflexivity.
Qed.

End FetcherProperties.

(** ** More on the ceremony summary *)

Lemma JsMap_keys_fold (l : list DirectusAwardRecord) (m : JsMap.t) :
  map fst (fold_left count_color l m)
  = fold_left (fun s x => JsSet.add x s) (map categoryColor_of l) (map fst m).
Proof.
  revert m. induction l as [|a l IH]; intros m; [reflexivity|].
  cbn [fold_left map]. rewrite IH. f_equal.
  unfold count_color. apply JsMap_keys_set.
Qed.

Lemma JsSet_size_le (l : list str) :
  JsSet.size (JsSet.of_array l) <= List.length l.
Proof.
  destruct (JsSet_of_array_spec l) as [Hnd Hin].
  unfold JsSet.size. apply NoDup_incl_length; [assumption|].
  intros x Hx. now apply Hin.
Qed.

Lemma filter_length_le {A} (f : A -> bool) (l : list A) :
  List.length (filter f l) <= List.length l.
Proof.
  induction l as [|x l IH]; [reflexivity|].
  cbn [filter]. destruct (f x); cbn [List.length]; lia.
Qed.

Section CeremonyMore.

Variable parse_date_string : str -> option Z.

Local Abbreviation summary := (buildCeremonySummary parse_date_string).

Local Abbreviation pending_key :=
  (fun award => parsed_or_zero parse_date_string (submitted_at award)).

(** X10. [latestPending] holds the first five pending awards in
    descending order of the parsed [submitted_at], a missing or
    unparsable date counting as 0 and awards of equal date keeping
    their input order; each entry shows the award's own
    [submitted_at], never its approval time. *)
Theorem latestPending_top5 (awards : list DirectusAwardRecord) :
  (exists sorted,
      Permutation sorted (filter is_pending awards) /\
      descending pending_key sorted /\
      (forall k, filter (with_key pending_key k) sorted
                 = filter (with_key pending_key k) (filter is_pending awards)) /\
      latestPending (summary awards)
      = map latest_pending_entry (firstn 5 sorted)) /\
  (forall entry,
      In entry (latestPending (summary awards)) ->
      exists award,
        In award awards /\ status award = pending /\
        lp_id entry = id award /\
        lp_submittedAt entry = submitted_at award /\
        lp_nominee entry = getNomineeLabel award) /\
  (forall award,
      (submitted_at award = None -> pending_key award = 0%Z) /\
      (forall d, submitted_at award = Some d ->
                 Date_parse parse_date_string d = None ->
                 pending_key award = 0%Z) /\
      (forall d t, submitted_at award = Some d ->
                   Date_parse parse_date_string d = Some t ->
                   pending_key award = t)).
Proof.
  split; [|split].
  - exists (Array_sort (compare_pending parse_date_string)
              (filter is_pending awards)).
    rewrite fold_compare_pending.
    split; [apply Array_sort_perm|]. split; [apply Array_sort_descending|].
    split; [intros k; apply Array_sort_stable | reflexivity].
  - intros entry Hin. unfold buildCeremonySummary in Hin.
    cbn [latestPending] in Hin. rewrite fold_compare_pending in Hin.
    apply in_map_iff in Hin. destruct Hin as (award & <- & Hin).
    apply In_firstn in Hin.
    eapply Permutation_in in Hin; [|apply Array_sort_perm].
    apply filter_In in Hin. destruct Hin as [Hin Hp].
    exists award. split; [assumption|].
    split; [now apply is_status_true_iff|]. repeat split.
  - intros award. unfold parsed_or_zero. split; [|split].
    + intros ->. reflexivity.
    + intros d -> Hd. cbn [nullish]. now rewrite Hd.
    + intros d t -> Hd. cbn [nullish]. now rewrite Hd.
Qed.

(** X11. Rejected awards never reach the summary: building it from the
    awards with the rejected ones removed gives the same summary. *)
Theorem rejected_awards_ignored (awards : list DirectusAwardRecord) :
  summary (filter (fun award => negb (is_status (status award) rejected)) awards)
  = summary awards.
Proof.
  assert (Ha : filter is_approved
                 (filter (fun award => negb (is_status (status award) rejected))
                    awards)
               = filter is_approved awards).
  { rewrite filter_filter. apply filter_ext. intros a.
    unfold is_approved. destruct (status a); reflexivity. }
  assert (Hp : filter is_pending
                 (filter (fun award => negb (is_status (status award) rejected))
                    awards)
               = filter is_pending awards).
  { rewrite filter_filter. apply filter_ext. intros a.
    unfold is_pending. destruct (status a); reflexivity. }
  unfold buildCeremonySummary. rewrite Ha, Hp. reflexivity.
Qed.

(** X12. The two latest lists hold five entries, or all there are when
    fewer qualify; every entry of [latestApproved] has status
    approved.  The distinct-name counts and the number of colors never
    exceed the number of approved awards. *)
Theorem summary_bounds (awards : list DirectusAwardRecord) :
  let s := summary awards in
  List.length (latestApproved s) = Nat.min 5 (metrics_approved (metrics s)) /\
  List.length (latestPending s) = Nat.min 5 (metrics_pending (metrics s)) /\
  Forall (fun entry => ae_status entry = approved) (latestApproved s) /\
  individualsAwarded (metrics s) <= metrics_approved (metrics s) /\
  teamsAwarded (metrics s) <= metrics_approved (metrics s) /\
  List.length (colorBreakdown s) <= metrics_approved (metrics s).
Proof.
  cbn zeta. unfold buildCeremonySummary.
  cbn [metrics metrics_approved metrics_pending individualsAwarded
       teamsAwarded latestApproved latestPending colorBreakdown].
  rewrite fold_compare_approved, fold_compare_pending. unfold slice0.
  split; [|split; [|split; [|split; [|split]]]].
  - rewrite length_map, length_firstn.
    now rewrite (Permutation_length (Array_sort_perm _ _)).
  - rewrite length_map, length_firstn.
    now rewrite (Permutation_length (Array_sort_perm _ _)).
  - apply Forall_forall. intros entry Hin.
    apply in_map_iff in Hin. destruct Hin as (award & <- & Hin).
    apply In_firstn in Hin.
    eapply Permutation_in in Hin; [|apply Array_sort_perm].
    apply filter_In in Hin. destruct Hin as [_ Ha].
    now apply is_status_true_iff.
  - etransitivity; [apply JsSet_size_le|].
    etransitivity; [apply filter_length_le|].
    rewrite length_map. apply filter_length_le.
  - etransitivity; [apply JsSet_size_le|].
    etransitivity; [apply filter_length_le|].
    rewrite length_map. apply filter_length_le.
  - unfold JsMap.entries. rewrite length_map.
    rewrite <- (length_map fst), JsMap_keys_fold.
    etransitivity; [apply JsSet_size_le|]. now rewrite length_map.
Qed.

(** X13. The colors of [colorBreakdown] come in the order in which
    they first occur among the approved awards, in input order. *)
Theorem colorBreakdown_order (awards : list DirectusAwardRecord) :
  map color (colorBreakdown (summary awards))
  = JsSet.of_array (map categoryColor_of (filter is_approved awards)).
Proof.
  unfold buildCeremonySummary. cbn [colorBreakdown]. unfold JsMap.entries.
  rewrite map_map.
  erewrite map_ext; [apply JsMap_keys_fold|]. now intros [c n].
Qed.

End CeremonyMore.

(** ** The other routes *)

(** What one call of the fetcher sends: nothing when the connection is
    not configured, and otherwise the one request built from the
    connection constants, the path and the init. *)
Lemma directusFetch_sent {S} (store : S -> Request -> S * option Response)
  (config : Config) (path : str) (init : RequestInit) (s : S) :
  let sent := fst (run store s (directusFetch config path init)) in
  (configured config = false /\ sent = []) \/
  (exists base token,
      DIRECTUS_URL config = Some base /\
      DIRECTUS_STATIC_TOKEN config = Some token /\
      configured config = true /\
      sent = [{| req_url := strip_trailing_slash base ++ lit "/" ++ path;
                 req_method := init_method init;
                 req_headers := [(lit "Authorization", lit "Bearer " ++ token);
                                 (lit "Content-Type", lit "application/json")];
                 req_body := init_body init;
                 req_cache := lit "no-store" |}]).
Proof.
  cbn zeta.
  unfold configured, directusFetch, getDirectusBaseUrl, getDirectusHeaders.
  destruct (DIRECTUS_URL config) as [url|]; cbn [Js.truthy];
    [destruct (Js.nonempty url) eqn:Eu|]; cbn [andb bind run fst];
    try (left; split; reflexivity).
  destruct (DIRECTUS_STATIC_TOKEN config) as [token|]; cbn [Js.truthy];
    [destruct (Js.nonempty token) eqn:Et|]; cbn [andb bind run fst];
    try (left; split; reflexivity).
  right. exists url, token.
  split; [reflexivity|]. split; [reflexivity|]. split; [reflexivity|].
  match goal with
  | |- context [store s ?r] => destruct (store s r) as [s' out]
  end.
  destruct out as [response|]; [|reflexivity].
  destruct (resp_ok response); [|reflexivity].
  destruct (resp_json response); reflexivity.
Qed.

Lemma directusFetch_data_bound {S}
  (store : S -> Request -> S * option Response)
  (config : Config) (path : str) (init : RequestInit) (s : S) :
  (List.length (fst (run store s (bind (directusFetch config path init) data_of)))
   <= 1)%nat.
Proof.
  destruct (directusFetch_sends store config path init s) as (Hone & Hnone & _).
  destruct (configured config).
  - destruct (Hone eq_refl) as (rq & ->). apply Nat.le_refl.
  - rewrite (Hnone eq_refl). apply Nat.le_0_l.
Qed.

Section RouteProperties.

Variable parseInt10 : str -> option Z.
Variable Number_toString : Z -> str.
Variable encode_query : list (str * str) -> str.
Variable config : Config.

Context {S : Type}.
Variable store : S -> Request -> S * option Response.

(** X14. The confirm route answers 400, sending nothing, exactly when
    the award id of the path does not parse as a number; any number,
    0 included, goes on.  It then sends what [approveAward] sends, at
    most one request, a PATCH setting status approved with the current
    time as [approved_at], and answers 200 with the record returned, or
    500 when the update throws or returns no record; the handler itself
    never throws. *)
Theorem confirm_POST_outcomes (s : S) (now : str) (awardIdParam : str) :
  let handled :=
    run store s (confirm_POST parseInt10 Number_toString config now awardIdParam) in
  (parseInt10 awardIdParam = None ->
   handled = ([], inl (message_response 400 "Invalid award identifier."))) /\
  (forall awardId,
      parseInt10 awardIdParam = Some awardId ->
      let update := run store s (approveAward Number_toString config now awardId) in
      fst handled = fst update /\
      (List.length (fst handled) <= 1)%nat /\
      (forall rq,
          In rq (fst handled) ->
          req_method rq = Some (lit "PATCH") /\
          req_body rq
          = Some (Js.JObj [(lit "status", Js.JStr (lit "approved"));
                           (lit "approved_at", Js.JStr now)])) /\
      (forall award,
          snd update = inl (Some award) ->
          snd handled = inl {| http_code := 200; http_json := award |}) /\
      (snd update = inl None ->
       snd handled = inl (message_response 500 "Failed to approve award.")) /\
      (forall e,
          snd update = inr e ->
          snd handled = inl (message_response 500 "Failed to approve award."))) /\
  (exists response,
      snd handled = inl response /\
      (http_code response = 400%Z <-> parseInt10 awardIdParam = None)).
Proof.
  cbn zeta. unfold confirm_POST.
  destruct (parseInt10 awardIdParam) as [awardId|].
  - rewrite try_answer_run. cbn [fst snd].
    split; [discriminate|]. split.
    + intros n Hn. injection Hn as <-.
      destruct (directusFetch_sends store config
                  (lit "items/awards/" ++ Number_toString awardId)
                  {| init_method := Some (lit "PATCH");
                     init_body :=
                       Some (Js.JObj (updateAwardStatus_payload now approved)) |}
                  s) as (_ & _ & Hall).
      unfold approveAward, updateAwardStatus.
      split; [reflexivity|]. split; [|split; [|split; [|split]]].
      * apply (directusFetch_data_bound store config).
      * intros rq Hin. exact (Hall rq Hin).
      * intros award ->. reflexivity.
      * intros ->. reflexivity.
      * intros e ->. reflexivity.
    + eexists. split; [reflexivity|].
      destruct (snd (run store s (approveAward Number_toString config now awardId)))
        as [[award|]|e]; cbn; split; discriminate.
  - cbn [run fst snd]. split; [reflexivity|]. split; [discriminate|].
    eexists. split; [reflexivity|]. cbn. tauto.
Qed.

(** X15. The status route answers 400, sending nothing, when the award
    id does not parse.  Otherwise it awaits the body outside any
    [try]: a body that is not JSON, or is null, makes the handler throw
    with nothing sent.  On any other body it answers 400, sending
    nothing, when the status is absent or falsy, and hands any other
    status on unchecked: at most one request, a PATCH that carries the
    status as given, with the current time as [approved_at] only when
    it is the string approved and null otherwise; the answer is 200
    with the record, or 500 when the update throws or returns no
    record.  On the three statuses the update is the one
    [updateAwardStatus] makes. *)
Theorem status_POST_outcomes (s : S) (now : str) (awardIdParam : str)
  (request_body : option Js.json) :
  let handled :=
    run store s
      (status_POST parseInt10 Number_toString config now awardIdParam
         request_body) in
  (parseInt10 awardIdParam = None ->
   handled = ([], inl (message_response 400 "Invalid award identifier."))) /\
  (forall awardId,
      parseInt10 awardIdParam = Some awardId ->
      (request_body = None -> handled = ([], inr BodyNotJson)) /\
      (request_body = Some Js.JNull -> handled = ([], inr TypeError)) /\
      (forall parsed,
          request_body = Some parsed -> parsed <> Js.JNull ->
          let given := Js.get (lit "status") (fields_of parsed) in
          (truthy_value given = None ->
           handled = ([], inl (message_response 400 "Missing target status."))) /\
          (forall status,
              truthy_value given = Some status ->
              let update :=
                run store s
                  (updateAwardStatus_value Number_toString config now awardId
                     status) in
              given = Some status /\
              fst handled = fst update /\
              (List.length (fst handled) <= 1)%nat /\
              (forall rq,
                  In rq (fst handled) ->
                  req_method rq = Some (lit "PATCH") /\
                  req_body rq
                  = Some (Js.JObj
                            [(lit "status", status);
                             (lit "approved_at",
                              if is_approved_value status then Js.JStr now
                              else Js.JNull)])) /\
              (forall award,
                  snd update = inl (Some award) ->
                  snd handled = inl {| http_code := 200; http_json := award |}) /\
              (snd update = inl None ->
               snd handled
               = inl (message_response 500 "Failed to update award status.")) /\
              (forall e,
                  snd update = inr e ->
                  snd handled
                  = inl (message_response 500
                           "Failed to update award status."))))) /\
  (forall awardId target,
      updateAwardStatus_value Number_toString config now awardId
        (Js.JStr (status_string target))
      = updateAwardStatus Number_toString config now awardId target).
Proof.
  cbn zeta. unfold status_POST. split; [|split].
  - intros ->. reflexivity.
  - intros awardId ->. split; [|split].
    + intros ->. reflexivity.
    + intros ->. reflexivity.
    + intros parsed -> Hparsed.
      assert (Hread : properties_of parsed = Ret (fields_of parsed)).
      { destruct parsed; [contradiction | reflexivity ..]. }
      cbn [request_json bind]. rewrite Hread. cbn [bind].
      split.
      * intros ->. reflexivity.
      * intros status Hs. rewrite Hs. unfold update_and_answer.
        rewrite try_answer_run. cbn [fst snd].
        destruct (directusFetch_sends store config
                    (lit "items/awards/" ++ Number_toString awardId)
                    {| init_method := Some (lit "PATCH");
                       init_body :=
                         Some (Js.JObj
                                 (updateAwardStatus_value_payload now status)) |}
                    s) as (_ & _ & Hall).
        unfold updateAwardStatus_value.
        split; [now apply truthy_value_Some in Hs|].
        split; [reflexivity|]. split; [|split; [|split; [|split]]].
        -- apply (directusFetch_data_bound store config).
        -- intros rq Hin. destruct (Hall rq Hin) as [Hm Hb].
           split; [exact Hm|].
           rewrite Hb. cbn [init_body]. unfold updateAwardStatus_value_payload.
           destruct (is_approved_value status); reflexivity.
        -- intros award ->. reflexivity.
        -- intros ->. reflexivity.
        -- intros e ->. reflexivity.
  - intros awardId target. unfold updateAwardStatus_value, updateAwardStatus.
    destruct target; reflexivity.
Qed.

(** The read helpers end by picking the data out of the answer, which
    awaits nothing. *)
Lemma data_or_empty_settled (response : Js.json) :
  settled (data <- data_of response ;; Ret (data_or_empty data))%exec.
Proof. destruct response; exact I. Qed.

Lemma awards_query_filter (ceremonyId : option Z) (v : str) :
  In (lit "filter[ceremony][_eq]", v) (awards_query Number_toString ceremonyId)
  <-> exists n, ceremonyId = Some n /\ n <> 0%Z /\ v = Number_toString n.
Proof.
  unfold awards_query.
  assert (Hfixed : forall fields : str,
             ~ In (lit "filter[ceremony][_eq]", v)
                 [(lit "fields", fields); (lit "sort", lit "-submitted_at");
                  (lit "limit", lit "-1")]).
  { intros fields [H | [H | [H | []]]];
      apply (f_equal fst) in H; cbv in H; discriminate. }
  destruct ceremonyId as [n|]; cbn [truthy_number].
  - destruct (Z.eqb_spec n 0) as [-> | Hn].
    + split.
      * intros H. now apply Hfixed in H.
      * intros (m & Hm & Hne & _). congruence.
    + rewrite in_app_iff. split.
      * intros [H | [H | []]]; [now apply Hfixed in H|].
        injection H as <-. now exists n.
      * intros (m & Hm & _ & ->). injection Hm as <-.
        right. now left.
  - split.
    + intros H. now apply Hfixed in H.
    + intros (m & Hm & _). discriminate.
Qed.

Lemma awards_query_fixed (ceremonyId : option Z) :
  In (lit "sort", lit "-submitted_at") (awards_query Number_toString ceremonyId) /\
  In (lit "limit", lit "-1") (awards_query Number_toString ceremonyId).
Proof.
  unfold awards_query. destruct (truthy_number ceremonyId); split;
    try (apply in_or_app; left); cbn; tauto.
Qed.

(** The run of a read helper: the requests of its one fetch, and the
    data picked out of the answer. *)
Lemma read_run (path : str) (s : S) :
  run store s
    (response <- directusFetch config path read_init ;;
     data <- data_of response ;;
     Ret (data_or_empty data))%exec
  = (fst (run store s (directusFetch config path read_init)),
     match snd (run store s (directusFetch config path read_init)) with
     | inl response =>
         snd (run store s
                (data <- data_of response ;; Ret (data_or_empty data))%exec)
     | inr e => inr e
     end).
Proof. apply (run_bind_settled store _ _ s data_or_empty_settled). Qed.

Lemma data_or_empty_not_null (s0 : S) (response value : Js.json) :
  snd (run store s0
         (data <- data_of response ;; Ret (data_or_empty data))%exec)
  = inl value ->
  value <> Js.JNull.
Proof.
  destruct response as [ | b | n | t | items | fields]; cbn; intros Hv;
    try discriminate; try (injection Hv as <-; discriminate).
  injection Hv as <-. unfold data_or_empty.
  destruct (Js.get _ fields) as [[]|]; discriminate.
Qed.

(** X16. [getAwardsByCeremony] restricts the read to a ceremony exactly
    when it is given a non-zero id: with no id, NaN or 0 it sends the
    request for the whole event.  It sends at most one request, and
    exactly one when the connection is configured: without method or
    body, to the base URL followed by [items/awards?] and the encoded
    query, which always asks for every award, newest submission first.
    It yields an empty array, never null, when the answer carries no
    data. *)
Theorem getAwardsByCeremony_reads (s : S) (ceremonyId : option Z) :
  let query := awards_query Number_toString ceremonyId in
  let result :=
    run store s (getAwardsByCeremony Number_toString encode_query config ceremonyId) in
  (forall v,
      In (lit "filter[ceremony][_eq]", v) query <->
      exists n, ceremonyId = Some n /\ n <> 0%Z /\ v = Number_toString n) /\
  In (lit "sort", lit "-submitted_at") query /\
  In (lit "limit", lit "-1") query /\
  (truthy_number ceremonyId = None ->
   getAwardsByCeremony Number_toString encode_query config ceremonyId
   = getAwardsByCeremony Number_toString encode_query config None) /\
  (List.length (fst result) <= 1)%nat /\
  (configured config = true -> List.length (fst result) = 1%nat) /\
  (forall rq,
      In rq (fst result) ->
      exists base,
        DIRECTUS_URL config = Some base /\
        req_url rq
        = strip_trailing_slash base ++ lit "/" ++ lit "items/awards?"
          ++ encode_query query /\
        req_method rq = None /\ req_body rq = None) /\
  (forall value, snd result = inl value -> value <> Js.JNull) /\
  (forall fields,
      snd (run store s
             (directusFetch config (lit "items/awards?" ++ encode_query query)
                read_init))
      = inl (Js.JObj fields) ->
      (Js.get (lit "data") fields = None \/
       Js.get (lit "data") fields = Some Js.JNull ->
       snd result = inl (Js.JArr [])) /\
      (forall data,
          Js.get (lit "data") fields = Some data -> data <> Js.JNull ->
          snd result = inl data)).
Proof.
  cbn zeta.
  assert (Hdata : forall fields,
             snd (run store s
                    (directusFetch config
                       (lit "items/awards?"
                        ++ encode_query (awards_query Number_toString ceremonyId))
                       read_init))
             = inl (Js.JObj fields) ->
             (Js.get (lit "data") fields = None \/
              Js.get (lit "data") fields = Some Js.JNull ->
              snd (run store s
                     (getAwardsByCeremony Number_toString encode_query config
                        ceremonyId))
              = inl (Js.JArr [])) /\
             (forall data,
                 Js.get (lit "data") fields = Some data -> data <> Js.JNull ->
                 snd (run store s
                        (getAwardsByCeremony Number_toString encode_query config
                           ceremonyId))
                 = inl data)).
  { intros fields Hfetched. unfold getAwardsByCeremony.
    rewrite read_run. cbn [snd]. rewrite Hfetched. cbn [data_of bind run snd].
    split.
    - intros [-> | ->]; reflexivity.
    - intros data -> Hdata. destruct data; [contradiction | reflexivity ..]. }
  split; [apply awards_query_filter|].
  split; [apply awards_query_fixed|]. split; [apply awards_query_fixed|].
  split.
  { intros Hn. unfold getAwardsByCeremony, awards_query. now rewrite Hn. }
  unfold getAwardsByCeremony in *. rewrite read_run in *. cbn [fst snd] in *.
  set (path := lit "items/awards?"
               ++ encode_query (awards_query Number_toString ceremonyId)) in *.
  destruct (directusFetch_sent store config path read_init s)
    as [[Hoff Hsent] | (base & token & Hbase & _ & _ & Hsent)];
    cbn zeta in Hsent; rewrite Hsent.
  - split; [apply Nat.le_0_l|]. split; [congruence|].
    split; [intros rq []|]. split; [|exact Hdata].
    intros value Hv.
    destruct (snd (run store s (directusFetch config path read_init)))
      as [response|e]; [|discriminate].
    exact (data_or_empty_not_null s response Hv).
  - split; [apply Nat.le_refl|]. split; [reflexivity|]. split; [|split].
    + intros rq [<- | []]. exists base. cbn. tauto.
    + intros value Hv.
      destruct (snd (run store s (directusFetch config path read_init)))
        as [response|e]; [|discriminate].
      exact (data_or_empty_not_null s response Hv).
    + exact Hdata.
Qed.

End RouteProperties.

(** A store that answers without a record: both status routes report
    a failure, since there is nothing to serialize. *)
Example routes_without_record :
  let parse (_ : str) := Some 7%Z in
  snd (run Samples.bare_store tt
         (confirm_POST parse Samples.Number_toString Samples.config
            Samples.now (lit "7")))
  = inl (message_response 500 "Failed to approve award.") /\
  snd (run Samples.bare_store tt
         (status_POST parse Samples.Number_toString Samples.config
            Samples.now (lit "7")
            (Some (Js.JObj [(lit "status", Js.JStr (lit "rejected"))]))))
  = inl (message_response 500 "Failed to update award status.") /\
  snd (run Samples.echo_store tt
         (status_POST parse Samples.Number_toString Samples.config
            Samples.now (lit "7")
            (Some (Js.JObj [(lit "status", Js.JStr (lit "rejected"))]))))
  = inl {| http_code := 200; http_json := Js.JObj [] |} /\
  snd (run Samples.echo_store tt
         (status_POST parse Samples.Number_toString Samples.config
            Samples.now (lit "7") (Some Js.JNull)))
  = inr TypeError.
Proof. repeat split; reflexivity. Qed.






Lemma pt_metrics_order_independent_witness :
  Permutation Samples.awards (rev Samples.awards) /\
  pt_metrics (buildParticipantTeamSummary Samples.parse_date_string
                Samples.localeCompare Samples.participants
                Samples.team_records Samples.awards)
  = pt_metrics (buildParticipantTeamSummary Samples.parse_date_string
                  Samples.localeCompare Samples.participants
                  Samples.team_records (rev Samples.awards)).
Proof.
  split.
  - apply Permutation_rev.
  - exact (pt_metrics_order_independent Samples.parse_date_string
             Samples.localeCompare Samples.participants Samples.team_records
             (Permutation_rev Samples.awards)).
Defined.

(** X22. Every entry of the by-entity listing comes from an award that
    passes the filter and keeps the award's ceremony id.  It names the
    ceremony and takes its order, 999 when the order is missing, from
    a ceremony record of that id; an award with no ceremony, with
    ceremony 0, or with a ceremony the list does not know has no
    ceremony name and order 999. *)
Theorem entity_awards_ceremony (participantId teamId : option Z)
  (allAwards : list DirectusAwardRecord) (ceremonies : list CeremonyRecord)
  (entry : EntityAward) :
  In entry (entity_awards participantId teamId allAwards ceremonies) ->
  exists award,
    In award allAwards /\
    entity_filter participantId teamId award = true /\
    ea_id entry = id award /\
    ea_ceremonyId entry = ceremony award /\
    (forall c,
        ceremony award = Some c -> c <> 0%Z ->
        In c (map cr_id ceremonies) ->
        exists r,
          In r ceremonies /\ cr_id r = c /\
          ea_ceremonyName entry = Some (cr_name r) /\
          ea_ceremonyOrder entry = nullish (cr_order r) 999%Z) /\
    (ceremony award = None \/ ceremony award = Some 0%Z \/
     (exists c, ceremony award = Some c /\ ~ In c (map cr_id ceremonies)) ->
     ea_ceremonyName entry = None /\ ea_ceremonyOrder entry = 999%Z).
Proof.
  unfold entity_awards. intros Hin.
  apply in_map_iff in Hin. destruct Hin as (award & <- & Hin).
  apply filter_In in Hin. destruct Hin as [Hin Hf].
  exists award. split; [assumption|]. split; [assumption|].
  split; [reflexivity|]. split; [reflexivity|].
  unfold entity_award, ceremony_map.
  cbn [ea_ceremonyName ea_ceremonyOrder].
  destruct (seed_spec cr_id
              (fun c => (cr_name c, nullish (cr_order c) 999%Z))
              ceremonies [] (NoDup_nil Z)) as (_ & Hkeys & Hget).
  cbn zeta in Hkeys, Hget.
  set (m := fold_left
              (fun m c =>
                 IdMap.set (cr_id c) (cr_name c, nullish (cr_order c) 999%Z) m)
              ceremonies []) in *.
  split.
  - intros c Hc Hne Hknown. rewrite Hc. cbn [truthy_number].
    destruct (Z.eqb_spec c 0) as [|_]; [contradiction|].
    assert (Hkey : In c (IdMap.keys m)) by (apply Hkeys; now right).
    apply IdMap_get_keys in Hkey. destruct Hkey as [v Hv].
    destruct (Hget c v Hv) as [H0 | (r & Hr & Hrid & ->)]; [discriminate|].
    exists r. rewrite Hv. repeat split; assumption.
  - intros [Hc | [Hc | (c & Hc & Hunknown)]]; rewrite Hc; cbn [truthy_number];
      try (split; reflexivity).
    destruct (c =? 0)%Z; [split; reflexivity|].
    destruct (IdMap.get c m) as [v|] eqn:Ev; [|split; reflexivity].
    exfalso. apply Hunknown.
    assert (Hkey : In c (IdMap.keys m))
      by (apply IdMap_get_keys; now exists v).
    apply Hkeys in Hkey. destruct Hkey as [[] | Hkey]. exact Hkey.
Qed.

Lemma entity_awards_ceremony_witness :
  exists award,
    In award Samples.awards /\
    entity_filter (Some 1%Z) None award = true /\
    ea_id (entity_award (ceremony_map []) Samples.a1) = id award.
Proof.
  destruct (entity_awards_ceremony (Some 1%Z) None Samples.awards []
              (entity_award (ceremony_map []) Samples.a1)
              (or_introl eq_refl))
    as (award & Hin & Hf & Hid & _).
  now exists award.
Defined.

(** ** Labels of the award form *)

Lemma upper_word_char_word (c : N) :
  is_word_char (upper_word_char c) = is_word_char c.
Proof.
  unfold upper_word_char.
  destruct ((97 <=? c) && (c <=? 122))%N eqn:E; [|reflexivity].
  unfold is_word_char.
  apply andb_prop in E. destruct E as [E1 E2].
  apply N.leb_le in E1. apply N.leb_le in E2.
  assert (H1 : (65 <=? c - 32)%N = true) by (apply N.leb_le; lia).
  assert (H2 : (c - 32 <=? 90)%N = true) by (apply N.leb_le; lia).
  assert (H3 : (97 <=? c)%N = true) by (apply N.leb_le; lia).
  assert (H4 : (c <=? 122)%N = true) by (apply N.leb_le; lia).
  rewrite H1, H2, H3, H4. cbn [andb orb].
  now rewrite !orb_true_r.
Qed.

Lemma upper_word_char_idem (c : N) :
  upper_word_char (upper_word_char c) = upper_word_char c.
Proof.
  unfold upper_word_char.
  destruct ((97 <=? c) && (c <=? 122))%N eqn:E; [|now rewrite E].
  apply andb_prop in E. destruct E as [E1 E2].
  apply N.leb_le in E1. apply N.leb_le in E2.
  assert (H : (97 <=? c - 32)%N = false) by (apply N.leb_gt; lia).
  now rewrite H.
Qed.

Lemma upper_word_char_not_underscore (c : N) :
  c <> 95%N -> upper_word_char c <> 95%N.
Proof.
  unfold upper_word_char. intros Hc.
  destruct ((97 <=? c) && (c <=? 122))%N eqn:E; [|assumption].
  apply andb_prop in E. destruct E as [E1 E2].
  apply N.leb_le in E1. apply N.leb_le in E2. lia.
Qed.

Lemma capitalize_words_idem (b : bool) (s : str) :
  capitalize_words b (capitalize_words b s) = capitalize_words b s.
Proof.
  revert b. induction s as [|c s IH]; intros b; [reflexivity|].
  cbn [capitalize_words].
  destruct (is_word_char c && negb b) eqn:E.
  - rewrite upper_word_char_word, E, upper_word_char_idem.
    apply andb_prop in E. destruct E as [E _]. rewrite E. now rewrite IH.
  - rewrite E. now rewrite IH.
Qed.

Lemma capitalize_words_length (b : bool) (s : str) :
  List.length (capitalize_words b s) = List.length s.
Proof.
  revert b. induction s as [|c s IH]; intros b; [reflexivity|].
  cbn [capitalize_words List.length]. now rewrite IH.
Qed.

Lemma capitalize_words_no_underscore (b : bool) (s : str) :
  ~ In 95%N s -> ~ In 95%N (capitalize_words b s).
Proof.
  revert b. induction s as [|c s IH]; intros b Hs; [easy|].
  cbn [capitalize_words]. intros [H | H].
  - destruct (is_word_char c && negb b).
    + apply (upper_word_char_not_underscore (c := c)); [|exact H].
      intros ->. apply Hs. now left.
    + apply Hs. now left.
  - apply (IH (is_word_char c)); [|exact H].
    intros Hin. apply Hs. now right.
Qed.

Lemma spaces_for_underscores (s : str) :
  ~ In 95%N (map (fun c => if (c =? 95)%N then 32%N else c) s) /\
  (~ In 95%N s -> map (fun c => if (c =? 95)%N then 32%N else c) s = s).
Proof.
  induction s as [|c s [IHn IHs]]; [split; [easy | reflexivity]|].
  cbn [map]. split.
  - intros [H | H]; [|contradiction].
    destruct (N.eqb_spec c 95); [discriminate | contradiction].
  - intros Hs. rewrite IHs by (intros Hin; apply Hs; now right).
    destruct (N.eqb_spec c 95) as [-> | _]; [|reflexivity].
    exfalso. apply Hs. now left.
Qed.

(** X23. A color label is Unknown color for a missing or empty value.
    Otherwise it has the length of the value and no underscore, and
    labelling it again changes nothing. *)
Theorem normalizeColorLabel_shape :
  normalizeColorLabel None = lit "Unknown color" /\
  normalizeColorLabel (Some []) = lit "Unknown color" /\
  forall s,
    s <> [] ->
    let label := normalizeColorLabel (Some s) in
    List.length label = List.length s /\
    ~ In 95%N label /\
    normalizeColorLabel (Some label) = label.
Proof.
  split; [reflexivity|]. split; [reflexivity|].
  intros s Hs. cbn zeta.
  assert (Hform : forall t,
             t <> [] ->
             normalizeColorLabel (Some t)
             = capitalize_words false
                 (map (fun c => if (c =? 95)%N then 32%N else c) t)).
  { intros t Ht. unfold normalizeColorLabel, normalizeLabel.
    destruct t as [|c t]; [contradiction|]. reflexivity. }
  rewrite (Hform s Hs).
  destruct (spaces_for_underscores s) as [Hno _].
  set (spaced := map (fun c => if (c =? 95)%N then 32%N else c) s) in *.
  assert (Hout : ~ In 95%N (capitalize_words false spaced))
    by now apply capitalize_words_no_underscore.
  split; [|split].
  - rewrite capitalize_words_length. unfold spaced. apply length_map.
  - exact Hout.
  - rewrite Hform.
    + rewrite (proj2 (spaces_for_underscores _) Hout).
      apply capitalize_words_idem.
    + intros Hnil. apply (f_equal (@List.length N)) in Hnil.
      rewrite capitalize_words_length in Hnil. unfold spaced in Hnil.
      rewrite length_map in Hnil. destruct s; [contradiction | discriminate].
Qed.

(** The label of a color token. *)
Example normalizeColorLabel_sample :
  normalizeColorLabel (Some (lit "dark_blue")) = lit "Dark Blue".
Proof. reflexivity. Qed.
